(** * datadog-trace-agent: trace writer, span normalizer, resource filter
      and quantile summary

    A shallow embedding of the Go sources of the trace agent and the
    properties its specification states about them.

    Layout: the first part holds the definitions, one module per Go
    package ([Int64] for machine integers, [Model] for package [model],
    [Writer] for package [writer], [Filters] for package [filters],
    [Quantile] for package [quantile], [Main] for the writer of package
    [main]); the second part holds the proofs of the properties the
    specification states, the third part further properties of the code.

    Conventions.
    - Go [int] and [int64] are 64-bit two's complement integers: they are
      modelled as [Z] and every addition and subtraction goes through
      [Int64.add] / [Int64.sub], which wrap around.
    - [len] of a slice is a non-negative [int]; theorems that depend on it
      say so with [len t <= Int64.max_int].
    - A Go method that mutates its receiver returns the mutated value.
    - Collaborators whose code is outside the modelled files (the protobuf
      marshaller, the regexp engine, the tag normalizer, the clock) are
      Section variables. *)

From Stdlib Require Import ZArith Lia Ascii QArith Qround.
From Stdlib.Strings Require Import Byte.
From stdpp Require Import gmap strings list.

Open Scope Z_scope.

(* ===================================================================== *)
(** * Part I: definitions                                                 *)
(* ===================================================================== *)

(** ** 64-bit signed integers *)

Module Int64.

Definition min_int : Z := - 2 ^ 63.
Definition max_int : Z := 2 ^ 63 - 1.

(** The value a 64-bit register holds after an operation whose exact
    result is [x]. *)
Definition wrap (x : Z) : Z := (x + 2 ^ 63) mod 2 ^ 64 - 2 ^ 63.

Definition add (x y : Z) : Z := wrap (x + y).
Definition sub (x y : Z) : Z := wrap (x - y).

Definition in_range (x : Z) : Prop := min_int <= x <= max_int.

End Int64.

Arguments Int64.wrap : simpl never.
Arguments Int64.add : simpl never.
Arguments Int64.sub : simpl never.

(** [len(x)] of a Go slice or string, as an [int]. *)
Definition len {A} (l : list A) : Z := Z.of_nat (length l).
Definition len_str (s : string) : Z := Z.of_nat (String.length s).

(** Go slice expressions [t[i:]] and [t[:i]]: a run-time panic ([None])
    when the index is outside [0 .. len(t)]. (The upper bound of [t[:i]] is
    the capacity of [t], which is at least its length; where [t[:i]] is
    used below, [i] has already passed the check of [t[i:]].) *)
Definition slice_from {A} (t : list A) (i : Z) : option (list A) :=
  if (0 <=? i) && (i <=? len t) then Some (drop (Z.to_nat i) t) else None.

Definition slice_to {A} (t : list A) (i : Z) : option (list A) :=
  if (0 <=? i) && (i <=? len t) then Some (take (Z.to_nat i) t) else None.

(** ** Package model *)

Module Model.

(** The span structure. [TraceID], [SpanID] and [ParentID] are [uint64],
    [Start] and [Duration] are [int64] nanoseconds. [Meta] holds the
    entries of the string map; a nil map has none, and [Normalize] only
    reads the map, writes a key it has found, and deletes, none of which
    tells a nil map from an empty one (the filters, which assign to a key
    that may be absent, take the span with [Filters.Meta_is_nil]). The
    float-valued [Metrics] map is read by none of the functions below and
    is left out. *)
Record Span := mkSpan {
  Service : string;
  Name : string;
  Resource : string;
  TraceID : Z;
  SpanID : Z;
  ParentID : Z;
  Start : Z;
  Duration : Z;
  Type_ : string;
  Meta : gmap string string
}.

Definition set_Service (v : string) (s : Span) : Span :=
  mkSpan v (Name s) (Resource s) (TraceID s) (SpanID s) (ParentID s)
         (Start s) (Duration s) (Type_ s) (Meta s).
Definition set_Name (v : string) (s : Span) : Span :=
  mkSpan (Service s) v (Resource s) (TraceID s) (SpanID s) (ParentID s)
         (Start s) (Duration s) (Type_ s) (Meta s).
Definition set_ParentID (v : Z) (s : Span) : Span :=
  mkSpan (Service s) (Name s) (Resource s) (TraceID s) (SpanID s) v
         (Start s) (Duration s) (Type_ s) (Meta s).
Definition set_Meta (v : gmap string string) (s : Span) : Span :=
  mkSpan (Service s) (Name s) (Resource s) (TraceID s) (SpanID s) (ParentID s)
         (Start s) (Duration s) (Type_ s) v.

(** [type Trace []*Span]; the spans of a trace are taken to be non-nil and
    distinct objects. *)
Definition Trace := list Span.

(** Modelled from the spec: the [APITrace] type and [Trace.APITrace()] are
    declared outside the modelled files; the spec describes an APITrace as
    the flat, wire-ready sequence of the spans of a trace. *)
Record APITrace := mkAPITrace { at_Spans : Trace }.

Definition APITrace_of (t : Trace) : APITrace := mkAPITrace t.

Record TracePayload := mkTracePayload {
  HostName : string;
  Env : string;
  tp_Traces : list APITrace
}.

Definition MaxServiceLen : Z := 100.
Definition MaxNameLen : Z := 100.
Definition MaxTypeLen : Z := 100.
(** [10 * time.Minute], in nanoseconds *)
Definition MaxEndDateOffset : Z := 10 * 60 * 1000000000.
(** [time.Date(2000, time.January, 1, 0, 0, 0, 0, time.UTC).UnixNano()] *)
Definition Year2000NanosecTS : Z := 946684800 * 1000000000.

Definition byte_code (b : ascii) : Z := Z.of_N (N_of_ascii b).

Definition isAlpha (b : ascii) : bool :=
  let c := byte_code b in
  ((97 <=? c) && (c <=? 122)) || ((65 <=? c) && (c <=? 90)).

Definition isAlphaNum (b : ascii) : bool :=
  let c := byte_code b in
  isAlpha b || ((48 <=? c) && (c <=? 57)).

(** The first loop of [normMetricNameParse]: skip the bytes that are not
    alphabetic; what is returned is [name[i:]]. *)
Fixpoint skip_non_alpha (name : list ascii) : list ascii :=
  match name with
  | [] => []
  | b :: rest => if isAlpha b then name else skip_non_alpha rest
  end.

(** [res[ptr-1]]: [ptr] is always [len(res)]. The source relies on [res]
    holding a byte whenever it is indexed (the first byte the second loop
    sees is alphabetic), so the default is never returned. *)
Definition last_byte (res : list ascii) : ascii :=
  List.last res "_"%char.

(** One iteration of the second loop of [normMetricNameParse]. *)
Definition norm_step (res : list ascii) (b : ascii) : list ascii :=
  if isAlphaNum b then res ++ [b]
  else if Ascii.eqb b "."%char then
    if Ascii.eqb (last_byte res) "_"%char
    then removelast res ++ ["."%char]
    else res ++ ["."%char]
  else
    if Ascii.eqb (last_byte res) "."%char || Ascii.eqb (last_byte res) "_"%char
    then res
    else res ++ ["_"%char].

Definition normMetricNameParse (name : string) : string * bool :=
  if decide (name = EmptyString) then (name, false)
  else if MaxNameLen <? len_str name then (name, false)
  else
    match skip_non_alpha (String.list_ascii_of_string name) with
    | [] => (EmptyString, false)
    | rest =>
        let res := fold_left norm_step rest [] in
        let res := if Ascii.eqb (last_byte res) "_"%char
                   then removelast res else res in
        (String.string_of_list_ascii res, true)
    end.

(** [strconv.ParseUint(sc, 10, 64)]: an error ([None]) on the empty
    string, on any byte that is not a decimal digit and on a value that
    does not fit 64 bits. *)
Fixpoint parse_digits (acc : Z) (l : list ascii) : option Z :=
  match l with
  | [] => Some acc
  | b :: rest =>
      let c := byte_code b in
      if (48 <=? c) && (c <=? 57)
      then parse_digits (acc * 10 + (c - 48)) rest
      else None
  end.

Definition ParseUint (s : string) : option Z :=
  match String.list_ascii_of_string s with
  | [] => None
  | l => match parse_digits 0 l with
         | Some v => if v <? 2 ^ 64 then Some v else None
         | None => None
         end
  end.

Definition isValidStatusCode (sc : string) : bool :=
  match ParseUint sc with
  | Some code => (100 <=? code) && (code <? 600)
  | None => false
  end.

(** The errors [Span.Normalize] returns, one constructor per message. *)
Inductive SpanError :=
| EmptyService
| ServiceTooLong
| ServiceNotNormalizable
| EmptyName
| NameTooLong
| InvalidName
| EmptyResource
| EmptyTraceID
| EmptySpanID
| InvalidStart
| TooFarInFuture
| NonPositiveDuration
| TypeTooLong.

(** The errors [NormalizeTrace] returns. *)
Inductive TraceError :=
| EmptyTrace
| DuplicateSpanID (id : Z)
| TraceIDMismatch
| InvalidSpan (e : SpanError).

Section Normalizer.

(** [NormalizeTag], the tag normalizer of package [model]. *)
Variable NormalizeTag : string -> string.
(** [time.Now().UnixNano()] at the time of the call. *)
Variable now : Z.

(** [time.Now().Add(MaxEndDateOffset).UnixNano()] *)
Definition end_date_limit : Z := Int64.wrap (now + MaxEndDateOffset).

(** [func (s *Span) Normalize() error]: the span after the call (fields
    assigned before an error is returned stay assigned) and the error. *)
Definition Normalize (s : Span) : Span * option SpanError :=
  if decide (Service s = EmptyString) then (s, Some EmptyService)
  else if MaxServiceLen <? len_str (Service s) then (s, Some ServiceTooLong)
  else
  let s := set_Service (NormalizeTag (Service s)) s in
  if decide (Service s = EmptyString) then (s, Some ServiceNotNormalizable)
  else if decide (Name s = EmptyString) then (s, Some EmptyName)
  else if MaxNameLen <? len_str (Name s) then (s, Some NameTooLong)
  else
  let '(name, ok) := normMetricNameParse (Name s) in
  let s := set_Name name s in
  if negb ok then (s, Some InvalidName)
  else if decide (Resource s = EmptyString) then (s, Some EmptyResource)
  else if TraceID s =? 0 then (s, Some EmptyTraceID)
  else if SpanID s =? 0 then (s, Some EmptySpanID)
  else
  let s := if (ParentID s =? TraceID s) && (ParentID s =? SpanID s)
           then set_ParentID 0 s else s in
  if Start s <? Year2000NanosecTS then (s, Some InvalidStart)
  else if end_date_limit <? Int64.add (Start s) (Duration s)
       then (s, Some TooFarInFuture)
  else if Duration s <=? 0 then (s, Some NonPositiveDuration)
  else if MaxTypeLen <? len_str (Type_ s) then (s, Some TypeTooLong)
  else
  let s := match Meta s !! "env"%string with
           | Some env => set_Meta (<["env"%string := NormalizeTag env]> (Meta s)) s
           | None => s
           end in
  let s := match Meta s !! "http.status_code"%string with
           | Some sc => if isValidStatusCode sc then s
                        else set_Meta (delete "http.status_code"%string (Meta s)) s
           | None => s
           end in
  (s, None).

(** The loop of [NormalizeTrace]. [done] holds the spans already visited
    (normalized in place), [todo] the spans still to visit. *)
Fixpoint normalize_spans (traceID : Z) (spanIDs : gset Z) (done todo : Trace)
  : Trace * option TraceError :=
  match todo with
  | [] => (done, None)
  | span :: rest =>
      if decide (SpanID span ∈ spanIDs)
      then (done ++ todo, Some (DuplicateSpanID (SpanID span)))
      else if negb (TraceID span =? traceID)
      then (done ++ todo, Some TraceIDMismatch)
      else
        match Normalize span with
        | (span', Some err) => (done ++ span' :: rest, Some (InvalidSpan err))
        | (span', None) =>
            normalize_spans traceID ({[SpanID span]} ∪ spanIDs)
                            (done ++ [span']) rest
        end
  end.

Definition NormalizeTrace (t : Trace) : Trace * option TraceError :=
  match t with
  | [] => (t, Some EmptyTrace)
  | first :: _ => normalize_spans (TraceID first) ∅ [] t
  end.

End Normalizer.

(** The errors [Normalize] returns before it looks at [ParentID]. *)
Definition early_error (e : SpanError) : bool :=
  match e with
  | EmptyService | ServiceTooLong | ServiceNotNormalizable
  | EmptyName | NameTooLong | InvalidName | EmptyResource
  | EmptyTraceID | EmptySpanID => true
  | _ => false
  end.

(** The grounds for rejecting a span that do not involve its end date:
    an empty [Service], [Name] or [Resource], a [Service], [Name] or [Type]
    of more than 100 bytes, a [Start] before the year 2000, a [Duration]
    that is not positive. *)
Definition malformed (s : Span) : Prop :=
  Service s = EmptyString \/ Name s = EmptyString \/ Resource s = EmptyString \/
  MaxServiceLen < len_str (Service s) \/ MaxNameLen < len_str (Name s) \/
  MaxTypeLen < len_str (Type_ s) \/
  Start s < Year2000NanosecTS \/ Duration s <= 0.

(** The end of the span, as an exact number of nanoseconds, is more than
    ten minutes after [now]. *)
Definition ends_in_future (now : Z) (s : Span) : Prop :=
  now + MaxEndDateOffset < Start s + Duration s.

End Model.

(** ** Package writer *)

Module Writer.
Import Model.

(** What a call can end in: a result, a Go panic, or the recursion budget
    of the model running out (the Go call would still be running). *)
Inductive Outcome (A : Type) :=
| Done (a : A)
| Panic (reason : string)
| OutOfFuel.
Arguments Done {A} a.
Arguments Panic {A} reason.
Arguments OutOfFuel {A}.

Definition bind {A B} (m : Outcome A) (k : A -> Outcome B) : Outcome B :=
  match m with
  | Done a => k a
  | Panic r => Panic r
  | OutOfFuel => OutOfFuel
  end.

Notation "'do' x <- m ; k" := (bind m (fun x => k))
  (at level 10, x name, m at level 100, k at level 200).

(** [TraceWriterConfig]; the two periods are in nanoseconds. The stats
    client of the configuration is the [statsd] field of [World]. *)
Record TraceWriterConfig := mkConfig {
  MaxSpansPerPayload : Z;
  FlushPeriod : Z;
  UpdateInfoPeriod : Z
}.

Definition DefaultTraceWriterConfig : TraceWriterConfig :=
  mkConfig 1000 (5 * 1000000000) (60 * 1000000000).

(** [info.TraceWriterInfo]: six [int64] counters. *)
Record TraceWriterInfo := mkInfo {
  Payloads : Z;
  Traces : Z;
  Spans : Z;
  Bytes : Z;
  Retries : Z;
  Errors : Z
}.

Definition zero_info : TraceWriterInfo := mkInfo 0 0 0 0 0 0.

Definition set_Payloads (v : Z) (i : TraceWriterInfo) :=
  mkInfo v (Traces i) (Spans i) (Bytes i) (Retries i) (Errors i).
Definition set_Traces (v : Z) (i : TraceWriterInfo) :=
  mkInfo (Payloads i) v (Spans i) (Bytes i) (Retries i) (Errors i).
Definition set_Spans (v : Z) (i : TraceWriterInfo) :=
  mkInfo (Payloads i) (Traces i) v (Bytes i) (Retries i) (Errors i).
Definition set_Bytes (v : Z) (i : TraceWriterInfo) :=
  mkInfo (Payloads i) (Traces i) (Spans i) v (Retries i) (Errors i).
Definition set_Retries (v : Z) (i : TraceWriterInfo) :=
  mkInfo (Payloads i) (Traces i) (Spans i) (Bytes i) v (Errors i).
Definition set_Errors (v : Z) (i : TraceWriterInfo) :=
  mkInfo (Payloads i) (Traces i) (Spans i) (Bytes i) (Retries i) v.

(** Modelled from the spec: [Payload] and [NewPayload] are declared outside
    the modelled files; the spec has [Payload(bytes, headers)]. *)
Record Payload := mkPayload {
  payload_Bytes : list byte;
  Headers : gmap string string
}.

Definition NewPayload (bytes : list byte) (headers : gmap string string)
  : Payload := mkPayload bytes headers.

(** Modelled from the spec: the constant [languageHeaderKey] is declared
    outside the modelled files; the spec names the header. *)
Definition languageHeaderKey : string := "X-Datadog-Trace-Languages".

(** Modelled from the spec: the sender's event types are declared outside
    the modelled files; the spec gives Success (SendTime, Payload), Failure
    (SendTime, Payload, Error) and Retry (RetryNum, RetryDelay, Error).
    [OtherEvent] stands for a value of any other dynamic type. Times are
    in nanoseconds. *)
Inductive SenderEvent :=
| SenderSuccessEvent (sendTime : Z) (payload : Payload)
| SenderFailureEvent (sendTime : Z) (payload : Payload) (error : string)
| SenderRetryEvent (retryNum : Z) (retryDelay : Z) (error : string)
| OtherEvent (typeName : string).

Inductive LogLevel := LvlTrace | LvlDebug | LvlInfo | LvlWarn | LvlError.

(** A call of the stats client. A gauge carries the duration whose
    [Seconds()] the source reports. *)
Inductive StatsdCall :=
| Gauge (name : string) (duration : Z)
| Count (name : string) (value : Z).

(** Everything the writer acts on outside its own structure, as
    append-only histories: the payloads given to [payloadSender.Send] (each
    with the [TracePayload] its bytes were marshalled from), the log lines
    (level and format string), the calls of the stats client, and the
    last value given to [info.UpdateTraceWriterInfo]. *)
Record World := mkWorld {
  sent : list (TracePayload * Payload);
  logged : list (LogLevel * string);
  statsd : list StatsdCall;
  info_registry : TraceWriterInfo
}.

Definition empty_world : World := mkWorld [] [] [] zero_info.

Definition log (l : LogLevel) (format : string) (o : World) : World :=
  mkWorld (sent o) (logged o ++ [(l, format)]) (statsd o) (info_registry o).
Definition Send (tp : TracePayload) (p : Payload) (o : World) : World :=
  mkWorld (sent o ++ [(tp, p)]) (logged o) (statsd o) (info_registry o).
Definition stat (c : StatsdCall) (o : World) : World :=
  mkWorld (sent o) (logged o) (statsd o ++ [c]) (info_registry o).
Definition UpdateTraceWriterInfo (i : TraceWriterInfo) (o : World) : World :=
  mkWorld (sent o) (logged o) (statsd o) i.

(** The fields of [TraceWriter] that the modelled methods use. *)
Record TraceWriter := mkTraceWriter {
  hostName : string;
  env : string;
  conf : TraceWriterConfig;
  stats : TraceWriterInfo;
  traces : list APITrace;
  spansInBuffer : Z
}.

Definition NewTraceWriter (host defaultEnv : string) : TraceWriter :=
  mkTraceWriter host defaultEnv DefaultTraceWriterConfig zero_info [] 0.

Definition set_stats (v : TraceWriterInfo) (w : TraceWriter) :=
  mkTraceWriter (hostName w) (env w) (conf w) v (traces w) (spansInBuffer w).
Definition set_traces (v : list APITrace) (w : TraceWriter) :=
  mkTraceWriter (hostName w) (env w) (conf w) (stats w) v (spansInBuffer w).
Definition set_spansInBuffer (v : Z) (w : TraceWriter) :=
  mkTraceWriter (hostName w) (env w) (conf w) (stats w) (traces w) v.
Definition set_conf (v : TraceWriterConfig) (w : TraceWriter) :=
  mkTraceWriter (hostName w) (env w) v (stats w) (traces w) (spansInBuffer w).

(** [strings.Join(elems, sep)] *)
Fixpoint Join (elems : list string) (sep : string) : string :=
  match elems with
  | [] => EmptyString
  | [e] => e
  | e :: rest => e +:+ sep +:+ Join rest sep
  end.

Section TraceWriter.

(** [proto.Marshal]: [None] stands for a non-nil error. *)
Variable Marshal : TracePayload -> option (list byte).
(** [info.Languages()] *)
Variable Languages : list string.

(** The marshaller never fails. *)
Definition Marshal_total : Prop := forall p, is_Some (Marshal p).

(** [func (w *TraceWriter) flush()] *)
Definition flush (s : TraceWriter * World) : TraceWriter * World :=
  let '(w, o) := s in
  let numTraces := len (traces w) in
  if numTraces =? 0 then (w, o)
  else
    let w := set_stats (set_Traces (Int64.add (Traces (stats w)) numTraces)
                                   (stats w)) w in
    let w := set_stats (set_Spans (Int64.add (Spans (stats w)) (spansInBuffer w))
                                  (stats w)) w in
    let tracePayload := mkTracePayload (hostName w) (env w) (traces w) in
    match Marshal tracePayload with
    | None =>
        (w, log LvlError
                "failed to serialize trace payload, data got dropped, err: %s" o)
    | Some serialized =>
        let w := set_stats (set_Bytes (Int64.add (Bytes (stats w)) (len serialized))
                                      (stats w)) w in
        let headers : gmap string string :=
          <[languageHeaderKey := Join Languages "|"]>
          (<["Content-Type"%string := "application/x-protobuf"%string]>
          (<["Content-Encoding"%string := "identity"%string]> ∅)) in
        let payload := NewPayload serialized headers in
        let o := Send tracePayload payload o in
        (set_spansInBuffer 0 (set_traces [] w), o)
    end.

(** [func (w *TraceWriter) handleTrace(trace *model.Trace)]. The first
    argument bounds the depth of the recursion. *)
Fixpoint handleTrace (fuel : nat) (s : TraceWriter * World) (trace : Trace)
  : Outcome (TraceWriter * World) :=
  match fuel with
  | O => OutOfFuel
  | S fuel' =>
    let '(w, o) := s in
    if len trace =? 0 then Done (w, log LvlDebug "Ignoring 0-length trace" o)
    else
    let o := log LvlTrace "Handling new trace with %d spans: %v" o in
    let spanOverflow :=
      Int64.sub (Int64.add (spansInBuffer w) (len trace))
                (MaxSpansPerPayload (conf w)) in
    do r <- (if 0 <? spanOverflow then
            let o := log LvlDebug "Detected span overflow. Splitting trace: MaxSpansPerPayload=%d, len(trace)=%d, spanOverflow=%d" o in
            let splitIndex := Int64.sub (len trace) spanOverflow in
            let o := log LvlDebug "Splitting trace at index %d" o in
            match slice_from trace splitIndex, slice_to trace splitIndex with
            | Some splitTrace, Some truncatedTrace =>
                Done (splitTrace, truncatedTrace, o)
            | _, _ => Panic "slice bounds out of range"
            end
          else Done ([], trace, o)) ;
    let '(splitTrace, trace, o) := r in
    let w := set_traces (traces w ++ [APITrace_of trace]) w in
    let w := set_spansInBuffer (Int64.add (spansInBuffer w) (len trace)) w in
    let o := log LvlDebug "Added new trace to buffer. spansInBuffer=%d, len(w.traces)=%d" o in
    do s' <- (if spansInBuffer w =? MaxSpansPerPayload (conf w) then
             Done (flush (w, log LvlDebug "Flushing because we reached max per payload" o))
           else if MaxSpansPerPayload (conf w) <? spansInBuffer w then
             Panic "Number of spans in buffer went over the limit"
           else Done (w, o)) ;
    if 0 <? len splitTrace then
      let '(w, o) := s' in
      handleTrace fuel' (w, log LvlDebug "Found split trace, handling it" o) splitTrace
    else Done s'
  end.

(** One event of the sender's monitor channel, as handled by the goroutine
    that [Run] starts; [None] is a nil event. *)
Definition handleEvent (s : TraceWriter * World) (event : option SenderEvent)
  : TraceWriter * World :=
  let '(w, o) := s in
  match event with
  | None => (w, o)
  | Some (SenderSuccessEvent sendTime payload) =>
      let o := log LvlInfo "flushed trace payload to the API, time:%s, size:%d bytes" o in
      let o := stat (Gauge "datadog.trace_agent.trace_writer.flush_duration" sendTime) o in
      (set_stats (set_Payloads (Int64.add (Payloads (stats w)) 1) (stats w)) w, o)
  | Some (SenderFailureEvent sendTime payload error) =>
      let o := log LvlError "failed to flush trace payload, time:%s, size:%d bytes, error: %s" o in
      (set_stats (set_Errors (Int64.add (Errors (stats w)) 1) (stats w)) w, o)
  | Some (SenderRetryEvent retryNum retryDelay error) =>
      let o := log LvlError "retrying flush trace payload, retryNum: %d, delay:%s, error: %s" o in
      (set_stats (set_Retries (Int64.add (Retries (stats w)) 1) (stats w)) w, o)
  | Some (OtherEvent _) =>
      (w, log LvlDebug "don't know how to handle event with type %T" o)
  end.

(** The monitor goroutine: [for event := range w.payloadSender.Monitor()]. *)
Definition monitor (events : list (option SenderEvent)) (s : TraceWriter * World)
  : TraceWriter * World :=
  fold_left handleEvent events s.

(** [func (w *TraceWriter) updateInfo()], run without interleaving. *)
Definition updateInfo (s : TraceWriter * World) : TraceWriter * World :=
  let '(w, o) := s in
  let twInfo := zero_info in
  let twInfo := set_Payloads (Payloads (stats w)) twInfo in
  let w := set_stats (set_Payloads 0 (stats w)) w in
  let twInfo := set_Traces (Traces (stats w)) twInfo in
  let w := set_stats (set_Traces 0 (stats w)) w in
  let twInfo := set_Spans (Spans (stats w)) twInfo in
  let w := set_stats (set_Spans 0 (stats w)) w in
  let twInfo := set_Bytes (Bytes (stats w)) twInfo in
  let w := set_stats (set_Bytes 0 (stats w)) w in
  let twInfo := set_Retries (Retries (stats w)) twInfo in
  let w := set_stats (set_Retries 0 (stats w)) w in
  let twInfo := set_Errors (Errors (stats w)) twInfo in
  let w := set_stats (set_Errors 0 (stats w)) w in
  let o := stat (Count "datadog.trace_agent.trace_writer.payloads" (Payloads twInfo)) o in
  let o := stat (Count "datadog.trace_agent.trace_writer.traces" (Traces twInfo)) o in
  let o := stat (Count "datadog.trace_agent.trace_writer.spans" (Spans twInfo)) o in
  let o := stat (Count "datadog.trace_agent.trace_writer.bytes" (Bytes twInfo)) o in
  let o := stat (Count "datadog.trace_agent.trace_writer.retries" (Retries twInfo)) o in
  let o := stat (Count "datadog.trace_agent.trace_writer.errors" (Errors twInfo)) o in
  (w, UpdateTraceWriterInfo twInfo o).

(** What the [select] of [Run] can receive. *)
Inductive LoopEvent :=
| InTrace (trace : option Trace)
| FlushTick
| UpdateInfoTick
| Exit.

(** The [for { select }] loop of [Run] over the events it receives, in the
    order it receives them. [updateInfo] is started as a goroutine by the
    source; here it runs to its end at the tick. The loop returns at
    [Exit]; when the events run out the loop is blocked in its [select]. *)
Fixpoint select_loop (fuel : nat) (events : list LoopEvent)
    (s : TraceWriter * World) : Outcome (TraceWriter * World) :=
  match events with
  | [] => Done s
  | InTrace None :: rest => select_loop fuel rest s
  | InTrace (Some trace) :: rest =>
      do s' <- handleTrace fuel s trace ; select_loop fuel rest s'
  | FlushTick :: rest =>
      let '(w, o) := s in
      select_loop fuel rest (flush (w, log LvlDebug "Flushing current traces" o))
  | UpdateInfoTick :: rest =>
      let '(w, o) := s in
      select_loop fuel rest (updateInfo (w, log LvlDebug "Updating info" o))
  | Exit :: _ =>
      let '(w, o) := s in
      let '(w, o) := flush (w, log LvlInfo "exiting trace writer, flushing all remaining traces" o) in
      Done (w, log LvlInfo "Flushed. Exiting" o)
  end.

(** [func (w *TraceWriter) Run()]. The goroutine it starts for the sender
    events is [monitor]. *)
Definition Run (fuel : nat) (events : list LoopEvent) (s : TraceWriter * World)
  : Outcome (TraceWriter * World) :=
  let '(w, o) := s in
  select_loop fuel events (w, log LvlDebug "starting trace writer" o).

End TraceWriter.

(** The spans a buffer or a payload holds, in order. *)
Definition spans_of (ts : list APITrace) : list Span :=
  concat (map at_Spans ts).

Definition payload_spans (p : TracePayload * Payload) : list Span :=
  spans_of (tp_Traces (fst p)).

(** Every span the sender has been given, followed by every span still
    buffered. *)
Definition all_spans (s : TraceWriter * World) : list Span :=
  concat (map payload_spans (sent (snd s))) ++ spans_of (traces (fst s)).

(** The buffer after [handleTrace] has appended [trace.APITrace()] and
    added [len] of the trace to [spansInBuffer], when the sum does not
    wrap. *)
Definition push (w : TraceWriter) (t : Trace) : TraceWriter :=
  set_spansInBuffer (spansInBuffer w + len t)
                    (set_traces (traces w ++ [APITrace_of t]) w).

(** The payload [flush] builds from the buffer. *)
Definition payload_of (w : TraceWriter) : TracePayload :=
  mkTracePayload (hostName w) (env w) (traces w).

(** [o'] is [o] with more log lines and nothing else changed. *)
Definition only_logged (o o' : World) : Prop :=
  sent o' = sent o /\ statsd o' = statsd o /\
  info_registry o' = info_registry o /\
  exists lines, logged o' = logged o ++ lines.

(** The buffer invariant of the data model: non-negative count, at most the
    cap. *)
Definition within_cap (w : TraceWriter) : Prop :=
  0 <= spansInBuffer w <= MaxSpansPerPayload (conf w).

(** [spansInBuffer] is the number of buffered spans. *)
Definition counts_buffer (w : TraceWriter) : Prop :=
  spansInBuffer w = len (spans_of (traces w)).

(** How many events of a kind the monitor channel delivered. *)
Definition is_success (e : option SenderEvent) : bool :=
  match e with Some (SenderSuccessEvent _ _) => true | _ => false end.
Definition is_failure (e : option SenderEvent) : bool :=
  match e with Some (SenderFailureEvent _ _ _) => true | _ => false end.
Definition is_retry (e : option SenderEvent) : bool :=
  match e with Some (SenderRetryEvent _ _ _) => true | _ => false end.

Definition count_events (p : option SenderEvent -> bool)
    (events : list (option SenderEvent)) : Z :=
  len (List.filter p events).

(** The traces the loop of [Run] hands to [handleTrace]: those received
    before the first [Exit]. *)
Fixpoint ingested (events : list LoopEvent) : list Trace :=
  match events with
  | [] => []
  | InTrace (Some t) :: rest => t :: ingested rest
  | Exit :: _ => []
  | _ :: rest => ingested rest
  end.

(** [chunks k l]: [l] cut into consecutive pieces of [k] elements, the
    last one holding what is left. *)
Fixpoint chunks_aux {A} (n k : nat) (l : list A) : list (list A) :=
  match n with
  | O => []
  | S n' =>
      match l with
      | [] => []
      | _ => take k l :: chunks_aux n' k (drop k l)
      end
  end.

Definition chunks {A} (k : nat) (l : list A) : list (list A) :=
  chunks_aux (length l) k l.

End Writer.

(** ** Package filters *)

Module Filters.
Import Model.
Import Writer (Outcome, Done, Panic, OutOfFuel, bind).

(** The span a filter is given, behind its pointer. [Span.Meta] is a Go
    map and may be nil, which [Meta_is_nil] says. A nil map reads as a map
    without entries (the [Meta] of [fields] is then not looked at), and an
    assignment to one of its entries is a run-time panic. *)
Record SpanPtr := mkSpanPtr {
  fields : Span;
  Meta_is_nil : bool
}.

(** [t.Meta["http.url"]]: the empty string when the key is absent, and
    when the map is nil. *)
Definition http_url (t : SpanPtr) : string :=
  if Meta_is_nil t then EmptyString
  else default EmptyString (Meta (fields t) !! "http.url"%string).

(** The span once [t.Meta["http.url"] = v] has been carried out on a map
    that is not nil. *)
Definition with_http_url (v : string) (t : SpanPtr) : SpanPtr :=
  mkSpanPtr (set_Meta (<["http.url"%string := v]> (Meta (fields t))) (fields t)) false.

(** [t.Meta["http.url"] = v] *)
Definition assign_http_url (v : string) (t : SpanPtr) : Outcome SpanPtr :=
  if Meta_is_nil t then Panic "assignment to entry in nil map"
  else Done (with_http_url v t).

Section ResourceFilter.

(** The regexp engine: [*regexp.Regexp] values, [regexp.Compile] ([None]
    stands for a non-nil error), [MatchString] and
    [ReplaceAllString(src, repl)]. *)
Variable Regexp : Type.
Variable Compile : string -> option Regexp.
Variable MatchString : Regexp -> string -> bool.
Variable ReplaceAllString : Regexp -> string -> string -> string.

(** A [map[*regexp.Regexp]string] is kept as the list of its entries in
    the order a [range] over it visits them. *)
Record resourceFilter := mkResourceFilter {
  blacklist : list Regexp;
  searchReplace : list (list (Regexp * string))
}.

(** The body of the inner loop over one search-replace map. *)
Definition apply_rule (t : SpanPtr) (rule : Regexp * string) : Outcome SpanPtr :=
  let '(key, value) := rule in
  if MatchString key (http_url t)
  then assign_http_url (ReplaceAllString key (http_url t) value) t
  else Done t.

(** The inner loop, over the rules of one map. *)
Fixpoint apply_entry (t : SpanPtr) (entry : list (Regexp * string))
  : Outcome SpanPtr :=
  match entry with
  | [] => Done t
  | rule :: rest => bind (apply_rule t rule) (fun t' => apply_entry t' rest)
  end.

(** The outer loop, over the maps. *)
Fixpoint apply_entries (t : SpanPtr) (entries : list (list (Regexp * string)))
  : Outcome SpanPtr :=
  match entries with
  | [] => Done t
  | entry :: rest => bind (apply_entry t entry) (fun t' => apply_entries t' rest)
  end.

Definition apply_searchReplace (f : resourceFilter) (t : SpanPtr) : Outcome SpanPtr :=
  apply_entries t (searchReplace f).

(** The first loop of [Keep]. *)
Fixpoint matches_blacklist (entries : list Regexp) (resource : string) : bool :=
  match entries with
  | [] => false
  | entry :: rest =>
      if MatchString entry resource then true
      else matches_blacklist rest resource
  end.

(** [func (f *resourceFilter) Keep(t *model.Span) bool] of
    [filters/resource.go]: the result and the span after the call, or the
    panic. *)
Definition Keep (f : resourceFilter) (t : SpanPtr) : Outcome (bool * SpanPtr) :=
  if matches_blacklist (blacklist f) (Resource (fields t)) then Done (false, t)
  else bind (apply_searchReplace f t) (fun t' => Done (true, t')).

Fixpoint compileRules (entries : list string) : list Regexp :=
  match entries with
  | [] => []
  | entry :: rest =>
      match Compile entry with
      | None => compileRules rest
      | Some rule => rule :: compileRules rest
      end
  end.

Fixpoint compileSearchReplace (entries : list (list string))
  : list (list (Regexp * string)) :=
  match entries with
  | [] => []
  | entry :: rest =>
      match entry with
      | [search; replace] =>
          match Compile search with
          | None => compileSearchReplace rest
          | Some re => [(re, replace)] :: compileSearchReplace rest
          end
      | _ => compileSearchReplace rest
      end
  end.

(** [newResourceFilter], from [conf.Ignore["resource"]] and
    [conf.Regex["resource"]]. *)
Definition newResourceFilter (ignore : list string) (regex : list (list string))
  : resourceFilter :=
  mkResourceFilter (compileRules ignore) (compileSearchReplace regex).

(** The rewriting of [Keep] as the sentence describes it: the url after
    every rule, in order, whose pattern matches the url it is given. *)
Definition rewrite_step (url : string) (rule : Regexp * string) : string :=
  if MatchString (fst rule) url then ReplaceAllString (fst rule) url (snd rule)
  else url.

Definition rewrite_url (rules : list (Regexp * string)) (url : string) : string :=
  fold_left rewrite_step rules url.

(** Some rule of the list matches the url it is given. *)
Fixpoint some_rule_fires (rules : list (Regexp * string)) (url : string) : bool :=
  match rules with
  | [] => false
  | rule :: rest =>
      MatchString (fst rule) url || some_rule_fires rest (rewrite_step url rule)
  end.

(** The other revision of the filter among the sources splits the two
    halves: its [Keep] only reads, and [ApplyRegex] rewrites the spans of
    a trace one after the other (the spans of a trace are taken to be
    distinct objects). *)
Definition Keep_readonly (f : resourceFilter) (t : SpanPtr) : bool :=
  negb (matches_blacklist (blacklist f) (Resource (fields t))).

Fixpoint apply_spans (f : resourceFilter) (spans : list SpanPtr)
  : Outcome (list SpanPtr) :=
  match spans with
  | [] => Done []
  | span :: rest =>
      bind (apply_searchReplace f span) (fun span' =>
      bind (apply_spans f rest) (fun rest' => Done (span' :: rest')))
  end.

Definition ApplyRegex (f : resourceFilter) (t : list SpanPtr)
  : Outcome (list SpanPtr) :=
  apply_spans f t.

End ResourceFilter.

(** Two spans that differ at most in [Meta["http.url"]]. *)
Definition same_but_url (t t' : Span) : Prop :=
  Service t' = Service t /\ Name t' = Name t /\ Resource t' = Resource t /\
  TraceID t' = TraceID t /\ SpanID t' = SpanID t /\ ParentID t' = ParentID t /\
  Start t' = Start t /\ Duration t' = Duration t /\ Type_ t' = Type_ t /\
  forall k : string, k <> "http.url"%string -> Meta t' !! k = Meta t !! k.

(** The same behind the pointers: the map is nil after the call when it
    was before. *)
Definition same_but_url_ptr (t t' : SpanPtr) : Prop :=
  Meta_is_nil t' = Meta_is_nil t /\ same_but_url (fields t) (fields t').

(** The span after the rewriting by [rules], when no assignment panics. *)
Definition rewritten {Regexp : Type} (MatchString : Regexp -> string -> bool)
    (ReplaceAllString : Regexp -> string -> string -> string)
    (rules : list (Regexp * string)) (t : SpanPtr) : SpanPtr :=
  if some_rule_fires Regexp MatchString ReplaceAllString rules (http_url t)
  then with_http_url (rewrite_url Regexp MatchString ReplaceAllString rules (http_url t)) t
  else t.

End Filters.

(** ** Package quantile *)

Module Quantile.

(** Modelled from the spec: the summary, its entries, [Quantile] and the
    binary encoding are described by the specification only; the sources
    of the summary are outside the modelled files (its benchmarks are
    among them). An [f64] is kept as the 64 bits of its IEEE 754 encoding,
    which is what the wire format carries; [g], [delta] and the sample
    count are [u32], [N] and the sample identifiers are [u64]. *)
Record Entry := mkEntry {
  V : Z;
  G : Z;
  Delta : Z;
  Samples : list Z
}.

(** Modelled from the spec: a summary is the ordered sequence of its
    entries, the running count [N] and the error parameter epsilon. *)
Record Summary := mkSummary {
  Entries : list Entry;
  N : Z;
  EPS : Z
}.

(** Modelled from the spec: the real number an [f64] stands for; [None]
    for the infinities and the NaNs, which are no observed real value. *)
Definition f64_value (bits : Z) : option Q :=
  let e := Z.land (Z.shiftr bits 52) 2047 in
  let m := Z.land bits (2 ^ 52 - 1) in
  if e =? 2047 then None
  else
    let mag := if e =? 0
               then Qmult (inject_Z m) (Qpower (2 # 1) (-1074))
               else Qmult (inject_Z (2 ^ 52 + m)) (Qpower (2 # 1) (e - 1075)) in
    Some (if Z.testbit bits 63 then Qopp mag else mag).

(** [v1 <= v2] on two [f64]; false when either is not a real number. *)
Definition f64_leb (v1 v2 : Z) : bool :=
  match f64_value v1, f64_value v2 with
  | Some x, Some y => Qle_bool x y
  | _, _ => false
  end.

(** Modelled from the spec: the invariants of the data model. Every entry
    has [g >= 1] and [delta >= 0]; two adjacent entries are in value order
    and the second has [g + delta <= floor(2 * eps * N) + 1]. *)
Fixpoint adjacent_ok (bound : Z) (es : list Entry) : bool :=
  match es with
  | e1 :: rest =>
      match rest with
      | e2 :: _ =>
          f64_leb (V e1) (V e2) && (G e2 + Delta e2 <=? bound + 1) &&
          adjacent_ok bound rest
      | [] => true
      end
  | [] => true
  end.

(** Modelled from the spec: the invariants of a whole summary, with
    [floor(2 * eps * N)] computed exactly; a summary whose epsilon is not a
    real number breaks them. *)
Definition invariants_hold (s : Summary) : bool :=
  match f64_value (EPS s) with
  | None => false
  | Some eps =>
      let bound := Qfloor (Qmult (Qmult (2 # 1) eps) (inject_Z (N s))) in
      forallb (fun e => (1 <=? G e) && (0 <=? Delta e)) (Entries s) &&
      adjacent_ok bound (Entries s)
  end.

(** Modelled from the spec: the ranges of the fields, as the widths of the
    wire format give them. *)
Definition u32 (x : Z) : Prop := 0 <= x < 2 ^ 32.
Definition u64 (x : Z) : Prop := 0 <= x < 2 ^ 64.

Definition entry_fits (e : Entry) : Prop :=
  u64 (V e) /\ u32 (G e) /\ u32 (Delta e) /\
  u32 (len (Samples e)) /\ Forall u64 (Samples e).

Definition fits (s : Summary) : Prop :=
  u64 (EPS s) /\ u64 (N s) /\ u32 (len (Entries s)) /\
  Forall entry_fits (Entries s).

(** Modelled from the spec: the quantile lookup. [rank = ceil(q * N)];
    the entries are scanned from the left with [cumG] the sum of their
    [g]; the answer is the first entry with [cumG + delta >= rank + eps * N].
    [q = 0] answers the first entry and [q = 1] the last; an empty summary
    is an error, and so is a scan that finds no entry. The answer is the
    value and the samples of the entry. *)
Fixpoint scan (target : Q) (cumG : Z) (es : list Entry) : option Entry :=
  match es with
  | [] => None
  | e :: rest =>
      let cumG := cumG + G e in
      if Qle_bool target (inject_Z (cumG + Delta e)) then Some e
      else scan target cumG rest
  end.

(** Modelled from the spec: [Quantile(q)], with the edge cases first. *)
Definition Quantile (s : Summary) (q : Q) : option (Z * list Z) :=
  if N s =? 0 then None
  else
    match f64_value (EPS s) with
    | None => None
    | Some eps =>
        let answer :=
          if Qeq_bool q (0 # 1) then head (Entries s)
          else if Qeq_bool q (1 # 1) then last (Entries s)
          else
            let rank := Qceiling (Qmult q (inject_Z (N s))) in
            scan (Qplus (inject_Z rank) (Qmult eps (inject_Z (N s)))) 0
                 (Entries s) in
        (fun e => (V e, Samples e)) <$> answer
    end.

(** Modelled from the spec: the wire format. Integers are written with the
    least significant byte first (the spec gives the widths, not the byte
    order); the version this reader understands is 1. *)
Definition version : Z := 1.

Definition byte_of_Z (x : Z) : byte :=
  default x00 (Byte.of_N (Z.to_N (x mod 256))).

Definition Z_of_byte (b : byte) : Z := Z.of_N (Byte.to_N b).

Fixpoint put_uint (width : nat) (x : Z) : list byte :=
  match width with
  | O => []
  | S width' => byte_of_Z x :: put_uint width' (x / 256)
  end.

Fixpoint uint_of (bs : list byte) : Z :=
  match bs with
  | [] => 0
  | b :: rest => Z_of_byte b + 256 * uint_of rest
  end.

(** Modelled from the spec: one record [(v, g, delta, sampleCount,
    samples)] of the wire format. *)
Definition put_entry (e : Entry) : list byte :=
  put_uint 8 (V e) ++ put_uint 4 (G e) ++ put_uint 4 (Delta e) ++
  put_uint 4 (len (Samples e)) ++ concat (map (put_uint 8) (Samples e)).

(** Modelled from the spec: the header [(version, eps, N, entryCount)]
    followed by the records. A field wider than its slot is cut to the
    slot, as a conversion to the narrower integer type cuts it. *)
Definition Serialize (s : Summary) : list byte :=
  put_uint 1 version ++ put_uint 8 (EPS s) ++ put_uint 8 (N s) ++
  put_uint 4 (len (Entries s)) ++ concat (map put_entry (Entries s)).

(** A reader takes bytes from the front of its input or fails. *)
Definition Reader (A : Type) : Type := list byte -> option (A * list byte).

Definition ret {A} (a : A) : Reader A := fun bs => Some (a, bs).
Definition fail {A} : Reader A := fun _ => None.
Definition bind {A B} (r : Reader A) (k : A -> Reader B) : Reader B :=
  fun bs => match r bs with
            | Some (a, rest) => k a rest
            | None => None
            end.

Notation "'do' x <- m ; k" := (bind m (fun x => k))
  (at level 10, x name, m at level 100, k at level 200).

Definition get_uint (width : nat) : Reader Z :=
  fun bs => if (width <=? length bs)%nat
            then Some (uint_of (take width bs), drop width bs)
            else None.

Fixpoint get_many {A} (r : Reader A) (count : nat) : Reader (list A) :=
  match count with
  | O => ret []
  | S count' => do a <- r ; do rest <- get_many r count' ; ret (a :: rest)
  end.

(** Modelled from the spec: reading one record. *)
Definition get_entry : Reader Entry :=
  do v <- get_uint 8 ;
  do g <- get_uint 4 ;
  do delta <- get_uint 4 ;
  do sampleCount <- get_uint 4 ;
  do samples <- get_many (get_uint 8) (Z.to_nat sampleCount) ;
  ret (mkEntry v g delta samples).

(** Modelled from the spec: reading the header, refusing a version that
    is not understood, and reading the records. *)
Definition get_summary : Reader Summary :=
  do ver <- get_uint 1 ;
  if ver =? version then
    do eps <- get_uint 8 ;
    do n <- get_uint 8 ;
    do entryCount <- get_uint 4 ;
    do entries <- get_many get_entry (Z.to_nat entryCount) ;
    ret (mkSummary entries n eps)
  else fail.

(** Modelled from the spec: the reader re-establishes the value order of
    the entries (here by a stable insertion sort) before it checks the
    invariants. *)
Fixpoint insert_entry (e : Entry) (es : list Entry) : list Entry :=
  match es with
  | [] => [e]
  | x :: rest =>
      if f64_leb (V e) (V x) then e :: es else x :: insert_entry e rest
  end.

Definition sort_entries (es : list Entry) : list Entry :=
  foldr insert_entry [] es.

(** Modelled from the spec: the reader rejects a version it does not
    understand, input that is too short or too long, and a summary that
    breaks the invariants once its entries are in order; it builds a new
    summary and touches no other. *)
Definition Deserialize (bs : list byte) : option Summary :=
  match get_summary bs with
  | Some (s, []) =>
      let s' := mkSummary (sort_entries (Entries s)) (N s) (EPS s) in
      if invariants_hold s' then Some s' else None
  | _ => None
  end.

End Quantile.

(** ** Sample values *)

Module Examples.
Import Model Writer.

(** A well-formed span of trace 1 with the given span id. *)
Definition span (id : Z) : Span :=
  mkSpan "web" "http.request" "GET /users" 1 id 0
         1500000000000000000 1000000 "http" ∅.

Definition spans (n : nat) : Trace := map (fun i => span (Z.of_nat i)) (seq 1 n).

(** A marshaller that succeeds (one byte per buffered span) and one that
    always fails. *)
Definition marshal_ok (p : TracePayload) : option (list byte) :=
  Some (map (fun _ => x00) (spans_of (tp_Traces p))).
Definition marshal_fail (p : TracePayload) : option (list byte) := None.

(** A writer with a cap of [cap] spans. *)
Definition writer (cap : Z) : TraceWriter :=
  set_conf (mkConfig cap (5 * 1000000000) (60 * 1000000000))
           (NewTraceWriter "host" "none").

Definition payload : Payload := NewPayload [x00] ∅.

(** Events for the main loop: the last one comes after the exit. *)
Definition sample_events : list LoopEvent :=
  [InTrace (Some (spans 3)); FlushTick; InTrace None;
   InTrace (Some (spans 4)); Exit; InTrace (Some (spans 2))].

(** A tag normalizer that leaves its argument alone (the sample tags are
    already in normal form) and a clock reading, in 2020. *)
Definition tag_id (tag : string) : string := tag.
Definition clock : Z := 1600000000000000000.

(** A span that starts at [clock] and lasts the largest [int64]. *)
Definition endless_span : Span :=
  mkSpan "web" "http.request" "GET /users" 1 1 0 clock Int64.max_int "http" ∅.

(** A span whose three ids are the same. *)
Definition self_parent_span : Span :=
  mkSpan "web" "http.request" "GET /users" 7 7 7 clock 1000000 "http" ∅.

(** The sizes of the payloads the sender was given, and the span count of
    the buffer, at the end of a run. *)
Definition sent_sizes (s : Outcome (TraceWriter * World)) : list nat :=
  match s with
  | Done (_, o) => map (fun p => length (payload_spans p)) (sent o)
  | _ => []
  end.

Definition buffered (s : Outcome (TraceWriter * World)) : Z :=
  match s with
  | Done (w, _) => spansInBuffer w
  | _ => -1
  end.

End Examples.

(** A summary of the three observations 1.0, 2.0 and 3.0 with epsilon
    0.01, and the same summary with its first two entries swapped. *)
Module Sketch.
Import Quantile.

Definition f64_1 : Z := 0x3FF0000000000000.
Definition f64_2 : Z := 0x4000000000000000.
Definition f64_3 : Z := 0x4008000000000000.
Definition f64_eps : Z := 0x3F847AE147AE147B.

Definition summary : Summary :=
  mkSummary [mkEntry f64_1 1 0 [11]; mkEntry f64_2 1 0 [12];
             mkEntry f64_3 1 0 [13]] 3 f64_eps.

Definition shuffled : Summary :=
  mkSummary [mkEntry f64_2 1 0 [12]; mkEntry f64_1 1 0 [11];
             mkEntry f64_3 1 0 [13]] 3 f64_eps.

End Sketch.

(** ** A sample regexp engine *)

(** An engine for the samples. It reads a pattern literally, which is
    what [regexp] does with a pattern made of letters, digits, blanks and
    slashes, and with the empty pattern; the replacement is copied as it
    is, which is what [regexp] does with a replacement without a dollar
    sign. It refuses a pattern that opens a bracket it never closes, as
    [regexp.Compile] does ("missing closing ]"). The samples use no other
    pattern. *)
Module Literal.

Fixpoint contains (pat s : string) : bool :=
  match s with
  | EmptyString => String.prefix pat s
  | String _ rest => String.prefix pat s || contains pat rest
  end.

Fixpoint replace (pat repl : string) (skip : nat) (s : string) : string :=
  match s with
  | EmptyString => EmptyString
  | String c rest =>
      match skip with
      | S k => replace pat repl k rest
      | O =>
          if String.prefix pat s
          then repl +:+ replace pat repl (String.length pat - 1) rest
          else String c (replace pat repl 0 rest)
      end
  end.

(** The empty pattern matches before every byte and at the end. *)
Fixpoint replace_empty (repl s : string) : string :=
  match s with
  | EmptyString => repl
  | String c rest => repl +:+ String c (replace_empty repl rest)
  end.

Definition Compile (pat : string) : option string :=
  match pat with
  | String "["%char rest => if contains "]" rest then Some pat else None
  | _ => Some pat
  end.
Definition MatchString (pat s : string) : bool := contains pat s.
Definition ReplaceAllString (pat src repl : string) : string :=
  if decide (pat = EmptyString) then replace_empty repl src
  else replace pat repl 0 src.

(** The filter of the test [TestMultipleRegex] under a blacklist of one
    pattern, and a span with a url. *)
Definition filter : Filters.resourceFilter string :=
  Filters.newResourceFilter string Compile ["/healthcheck"%string]
    [["match2"; "replace2"]; ["match1"; "replace1"]; ["broken"]]%string.

Definition url_span (resource url : string) : Filters.SpanPtr :=
  Filters.mkSpanPtr
    (Model.mkSpan "web" "http.request" resource 1 1 0
                  1600000000000000000 1000000 "http"
                  (<["http.url"%string := url]> ∅))
    false.

(** A span whose [Meta] is nil, as a client that sends no [meta] leaves
    it, and the same span with a map that is allocated and empty. *)
Definition bare_span (resource : string) : Filters.SpanPtr :=
  Filters.mkSpanPtr
    (Model.mkSpan "web" "http.request" resource 1 1 0
                  1600000000000000000 1000000 "http" ∅)
    true.

Definition empty_meta_span (resource : string) : Filters.SpanPtr :=
  Filters.mkSpanPtr (Filters.fields (bare_span resource)) false.

(** A filter with one search-replace rule, whose pattern is empty and so
    matches every url, the empty one included. *)
Definition default_url_filter : Filters.resourceFilter string :=
  Filters.newResourceFilter string Compile [] [[""; "none"]]%string.

End Literal.

(** ** What the counters of the trace writer are compared with *)

Module Accounting.
Import Model Writer.

(** The traces, spans and bytes of a list of payloads given to the
    sender. *)
Definition traces_in (ps : list (TracePayload * Payload)) : Z :=
  len (concat (map (fun p => tp_Traces (fst p)) ps)).
Definition spans_in (ps : list (TracePayload * Payload)) : Z :=
  len (concat (map payload_spans ps)).
Definition bytes_in (ps : list (TracePayload * Payload)) : Z :=
  len (concat (map (fun p => payload_Bytes (snd p)) ps)).

(** The three counters [flush] adds to are [int64] values. *)
Definition counters_ok (i : TraceWriterInfo) : Prop :=
  Int64.in_range (Traces i) /\ Int64.in_range (Spans i) /\
  Int64.in_range (Bytes i).

(** Between [s] and [s'] the counters [Traces], [Spans] and [Bytes] have
    grown by what was given to the sender, and the counters of the sender
    events have not moved. *)
Definition accounted (s s' : TraceWriter * World) : Prop :=
  exists ps,
    sent (snd s') = sent (snd s) ++ ps /\
    Traces (stats (fst s')) = Int64.wrap (Traces (stats (fst s)) + traces_in ps) /\
    Spans (stats (fst s')) = Int64.wrap (Spans (stats (fst s)) + spans_in ps) /\
    Bytes (stats (fst s')) = Int64.wrap (Bytes (stats (fst s)) + bytes_in ps) /\
    Payloads (stats (fst s')) = Payloads (stats (fst s)) /\
    Retries (stats (fst s')) = Retries (stats (fst s)) /\
    Errors (stats (fst s')) = Errors (stats (fst s)).

End Accounting.

(** ** Normalized metric names and status codes *)

Module MetricName.
Import Model.

(** The bytes [normMetricNameParse] writes: letters, digits, periods and
    underscores. *)
Definition name_byte (b : ascii) : bool :=
  isAlphaNum b || Ascii.eqb b "."%char || Ascii.eqb b "_"%char.

(** The result buffer during the second loop of [normMetricNameParse]: it
    starts with a letter, holds name bytes only, and every underscore
    follows a letter or a digit and is followed, if by anything, by a
    letter or a digit. *)
Definition building (res : list ascii) : Prop :=
  isAlpha (hd "_"%char res) = true /\
  Forall (fun b => name_byte b = true) res /\
  forall pre post : list ascii, res = pre ++ "_"%char :: post ->
    isAlphaNum (last_byte pre) = true /\
    (post = [] \/ isAlphaNum (hd "_"%char post) = true).

(** A normalized metric name: it starts with a letter, holds name bytes
    only, and every underscore stands between two letters or digits (so
    there is no underscore at the end, none next to a period and no two
    in a row). *)
Definition metric_name (name : string) : Prop :=
  let l := String.list_ascii_of_string name in
  isAlpha (hd "_"%char l) = true /\
  Forall (fun b => name_byte b = true) l /\
  forall pre post : list ascii, l = pre ++ "_"%char :: post ->
    isAlphaNum (last_byte pre) = true /\
    isAlphaNum (hd "_"%char post) = true.

(** A decimal digit. *)
Definition is_digit (b : ascii) : bool :=
  (48 <=? byte_code b) && (byte_code b <=? 57).

End MetricName.

(** ** Normalized spans *)

Module Normalized.
Import Model MetricName.

Section Normalized.

Variable NormalizeTag : string -> string.
Variable now : Z.

(** The condition under which [Normalize] zeroes [ParentID]. *)
Definition self_parent (s : Span) : bool :=
  (ParentID s =? TraceID s) && (ParentID s =? SpanID s).

(** The checks of [Normalize], on the span as it is given. *)
Definition accepts (s : Span) : Prop :=
  Service s <> EmptyString /\ len_str (Service s) <= MaxServiceLen /\
  NormalizeTag (Service s) <> EmptyString /\
  Name s <> EmptyString /\ len_str (Name s) <= MaxNameLen /\
  snd (normMetricNameParse (Name s)) = true /\
  Resource s <> EmptyString /\ TraceID s <> 0 /\ SpanID s <> 0 /\
  Year2000NanosecTS <= Start s /\
  Int64.add (Start s) (Duration s) <= end_date_limit now /\
  0 < Duration s /\ len_str (Type_ s) <= MaxTypeLen.

(** The two steps of [Normalize] on [Meta]. *)
Definition normalize_env (m : gmap string string) : gmap string string :=
  match m !! "env"%string with
  | Some env => <["env"%string := NormalizeTag env]> m
  | None => m
  end.

Definition check_status_code (m : gmap string string) : gmap string string :=
  match m !! "http.status_code"%string with
  | Some sc => if isValidStatusCode sc then m
               else delete "http.status_code"%string m
  | None => m
  end.

(** The assignments of a run of [Normalize] that reaches its end. *)
Definition normalized (s : Span) : Span :=
  mkSpan (NormalizeTag (Service s)) (fst (normMetricNameParse (Name s)))
         (Resource s) (TraceID s) (SpanID s)
         (if self_parent s then 0 else ParentID s)
         (Start s) (Duration s) (Type_ s)
         (check_status_code (normalize_env (Meta s))).

(** What holds of a span that [Normalize] has accepted. *)
Definition well_formed (s : Span) : Prop :=
  Service s <> EmptyString /\
  metric_name (Name s) /\ len_str (Name s) <= MaxNameLen /\
  Resource s <> EmptyString /\ TraceID s <> 0 /\ SpanID s <> 0 /\
  self_parent s = false /\
  Year2000NanosecTS <= Start s /\
  Int64.add (Start s) (Duration s) <= end_date_limit now /\
  0 < Duration s /\ len_str (Type_ s) <= MaxTypeLen /\
  (forall sc : string, Meta s !! "http.status_code"%string = Some sc ->
                       isValidStatusCode sc = true).

End Normalized.

(** Two spans that differ at most in what [Normalize] assigns: [Service],
    [Name], [ParentID] and the keys [env] and [http.status_code] of
    [Meta]. *)
Definition same_but_normalized (s r : Span) : Prop :=
  Resource r = Resource s /\ TraceID r = TraceID s /\ SpanID r = SpanID s /\
  Start r = Start s /\ Duration r = Duration s /\ Type_ r = Type_ s /\
  forall k : string, k <> "env"%string -> k <> "http.status_code"%string ->
                     Meta r !! k = Meta s !! k.

End Normalized.

(** ** Sample spans for the normalizer *)

Module Samples.
Import Model.

(** A span as a client may send it: a name to normalize, the three ids
    the same, an environment, a status code that is not a number and a
    url. *)
Definition raw_span : Span :=
  mkSpan "web" "_http request_" "GET /users" 7 7 7
         Examples.clock 1000000 "http"
         (<["env"%string := "prod"%string]>
            (<["http.status_code"%string := "abc"%string]>
               (<["http.url"%string := "/users"%string]> ∅))).

(** A trace whose second span has no service. *)
Definition broken_trace : Trace :=
  [Examples.span 1; set_Service EmptyString (Examples.span 2); Examples.span 3].

End Samples.

(** ** The configuration of the resource filter *)

Module FilterConfig.
Import Model Filters.

Section FilterConfig.

Variable Regexp : Type.
Variable Compile : string -> option Regexp.

(** The search-replace rule an entry of [conf.Regex["resource"]] stands
    for: none when the entry does not have two elements or when its
    pattern does not compile. *)
Definition rule_of (entry : list string) : option (Regexp * string) :=
  match entry with
  | [search; replace] =>
      match Compile search with
      | Some re => Some (re, replace)
      | None => None
      end
  | _ => None
  end.

End FilterConfig.

End FilterConfig.

(** ** Package main: the writer of payloads and services

    The older writer that comes with the sources of package [quantile]:
    it buffers the payloads it receives, writes them to a
    [BucketEndpoint], and writes the services metadata when it has
    changed. The endpoint is an interface; of its two implementations,
    [NullEndpoint] is modelled, and [APIEndpoint], which posts to the API
    over HTTP, is not. *)

Module Main.

(** The lines the writer logs: "Received a payload, initiating a flush",
    "Writer exiting, trying to flush all remaining data",
    "Error writing bucket: %s", "Flushed %d/%d payloads" and
    "could not flush services: %v". *)
Inductive LogLine :=
| ReceivedPayload
| WriterExiting
| ErrorWritingBucket (err : string)
| Flushed (flushed total : Z)
| CouldNotFlushServices (err : string).

Section BucketWriter.

(** [model.AgentPayload] and [model.ServicesMetadata] are declared outside
    the modelled files, as is [ServicesMetadata.Update], which merges the
    metadata received into the current one. *)
Variable AgentPayload : Type.
Variable ServicesMetadata : Type.
Variable Update : ServicesMetadata -> ServicesMetadata -> ServicesMetadata.

(** [type BucketEndpoint interface]: a place where payloads can be
    written. A value of type [E] is the endpoint together with what is
    behind it; [None] stands for a nil error. *)
Class BucketEndpoint (E : Type) := {
  Write : E -> AgentPayload -> E * option string;
  WriteServices : E -> ServicesMetadata -> E * option string
}.

(** [type NullEndpoint struct{}]: both methods drop what they are given
    and return nil. *)
Inductive NullEndpoint := mkNullEndpoint.

#[export] Instance NullEndpoint_BucketEndpoint : BucketEndpoint NullEndpoint := {
  Write ne _ := (ne, None);
  WriteServices ne _ := (ne, None)
}.

(** The calls made on the endpoint, with the error returned: a history
    kept for the statements. *)
Inductive Call :=
| WriteCall (p : AgentPayload) (err : option string)
| WriteServicesCall (s : ServicesMetadata) (err : option string).

Context {E : Type} `{BucketEndpoint E}.

Record Writer := mkWriter {
  endpoint : E;
  payloadsToWrite : list AgentPayload;
  svcs : ServicesMetadata;
  svcsVer : Z;
  svcsFlushed : Z;
  calls : list Call;
  logged : list LogLine
}.

(** [NewWriter], for the endpoint the configuration selects; [svcs] is the
    empty metadata. *)
Definition NewWriter (e : E) (empty : ServicesMetadata) : Writer :=
  mkWriter e [] empty 0 0 [] [].

Definition log_line (l : LogLine) (w : Writer) : Writer :=
  mkWriter (endpoint w) (payloadsToWrite w) (svcs w) (svcsVer w) (svcsFlushed w)
           (calls w) (logged w ++ [l]).

(** The loop of [Flush] over the buffered payloads: it stops at the first
    error. It returns the endpoint, the count of payloads flushed, and
    the calls and log lines it made. *)
Fixpoint write_loop (e : E) (ps : list AgentPayload) (flushed : Z)
  : E * Z * list Call * list LogLine :=
  match ps with
  | [] => (e, flushed, [], [])
  | p :: rest =>
      match Write e p with
      | (e', Some err) =>
          (e', flushed, [WriteCall p (Some err)], [ErrorWritingBucket err])
      | (e', None) =>
          let '(e'', n, cs, ls) := write_loop e' rest (Int64.add flushed 1) in
          (e'', n, WriteCall p None :: cs, ls)
      end
  end.

(** [func (w *Writer) Flush()] *)
Definition Flush (w : Writer) : Writer :=
  let total := len (payloadsToWrite w) in
  if total =? 0 then w
  else
    let '(e, flushed, cs, ls) := write_loop (endpoint w) (payloadsToWrite w) 0 in
    mkWriter e [] (svcs w) (svcsVer w) (svcsFlushed w)
             (calls w ++ cs) (logged w ++ ls ++ [Flushed flushed total]).

(** [func (w *Writer) FlushServices()] *)
Definition FlushServices (w : Writer) : Writer :=
  if svcsFlushed w =? svcsVer w then w
  else
    let '(e, err) := WriteServices (endpoint w) (svcs w) in
    mkWriter e (payloadsToWrite w) (svcs w) (svcsVer w) (svcsVer w)
             (calls w ++ [WriteServicesCall (svcs w) err])
             (logged w ++ match err with
                          | Some msg => [CouldNotFlushServices msg]
                          | None => []
                          end).

(** What the [select] of [run] receives: a payload on [w.in], metadata on
    [w.inServices], or the closing of [w.exit]. *)
Inductive Event :=
| InPayload (p : AgentPayload)
| InServices (sm : ServicesMetadata)
| Exit.

(** [func (w *Writer) run()], on the events it receives; when they are
    exhausted the loop is waiting and the writer is returned as it is. *)
Fixpoint run (events : list Event) (w : Writer) : Writer :=
  match events with
  | [] => w
  | InPayload p :: rest =>
      let w := log_line ReceivedPayload w in
      let w := mkWriter (endpoint w) (payloadsToWrite w ++ [p]) (svcs w)
                        (svcsVer w) (svcsFlushed w) (calls w) (logged w) in
      run rest (FlushServices (Flush w))
  | InServices sm :: rest =>
      run rest (mkWriter (endpoint w) (payloadsToWrite w) (Update (svcs w) sm)
                         (Int64.add (svcsVer w) 1) (svcsFlushed w)
                         (calls w) (logged w))
  | Exit :: _ => Flush (log_line WriterExiting w)
  end.

(** The payloads and the metadata of the calls of a history. *)
Definition written (cs : list Call) : list AgentPayload :=
  omap (fun c => match c with WriteCall p _ => Some p | _ => None end) cs.

Definition services_written (cs : list Call) : list ServicesMetadata :=
  omap (fun c => match c with WriteServicesCall s _ => Some s | _ => None end) cs.

(** The payloads received before the exit. *)
Fixpoint received (events : list Event) : list AgentPayload :=
  match events with
  | [] => []
  | InPayload p :: rest => p :: received rest
  | InServices _ :: rest => received rest
  | Exit :: _ => []
  end.

(** The metadata due to be written along the events: after a payload, the
    current metadata if some has been received since the payload before
    ([dirty]). *)
Fixpoint services_due (current : ServicesMetadata) (dirty : bool)
    (events : list Event) : list ServicesMetadata :=
  match events with
  | [] => []
  | InPayload _ :: rest =>
      if dirty then current :: services_due current false rest
      else services_due current false rest
  | InServices sm :: rest => services_due (Update current sm) true rest
  | Exit :: _ => []
  end.

Definition is_services (e : Event) : bool :=
  match e with InServices _ => true | _ => false end.

(** The error a call returned. *)
Definition call_error (c : Call) : option string :=
  match c with
  | WriteCall _ err => err
  | WriteServicesCall _ err => err
  end.

(** A log line that reports no error, and one payload flushed out of one
    if it reports a flush. *)
Definition all_flushed (l : LogLine) : bool :=
  match l with
  | ErrorWritingBucket _ | CouldNotFlushServices _ => false
  | Flushed flushed total => (flushed =? 1) && (total =? 1)
  | _ => true
  end.

End BucketWriter.

Arguments BucketEndpoint : clear implicits.
Arguments Write {AgentPayload ServicesMetadata E _} e p.
Arguments WriteServices {AgentPayload ServicesMetadata E _} e s.
Arguments WriteCall {AgentPayload ServicesMetadata} p err.
Arguments WriteServicesCall {AgentPayload ServicesMetadata} s err.
Arguments Writer : clear implicits.
Arguments mkWriter {AgentPayload ServicesMetadata E}.
Arguments endpoint {AgentPayload ServicesMetadata E} w.
Arguments payloadsToWrite {AgentPayload ServicesMetadata E} w.
Arguments svcs {AgentPayload ServicesMetadata E} w.
Arguments svcsVer {AgentPayload ServicesMetadata E} w.
Arguments svcsFlushed {AgentPayload ServicesMetadata E} w.
Arguments calls {AgentPayload ServicesMetadata E} w.
Arguments logged {AgentPayload ServicesMetadata E} w.
Arguments NewWriter {AgentPayload ServicesMetadata E} e empty.
Arguments log_line {AgentPayload ServicesMetadata E} l w.
Arguments write_loop {AgentPayload ServicesMetadata E _} e ps flushed.
Arguments Flush {AgentPayload ServicesMetadata E _} w.
Arguments FlushServices {AgentPayload ServicesMetadata E _} w.
Arguments InPayload {AgentPayload ServicesMetadata} p.
Arguments InServices {AgentPayload ServicesMetadata} sm.
Arguments Exit {AgentPayload ServicesMetadata}.
Arguments run {AgentPayload ServicesMetadata} Update {E _} events w.
Arguments written {AgentPayload ServicesMetadata} cs.
Arguments services_written {AgentPayload ServicesMetadata} cs.
Arguments received {AgentPayload ServicesMetadata} events.
Arguments services_due {AgentPayload ServicesMetadata} Update current dirty events.
Arguments is_services {AgentPayload ServicesMetadata} e.
Arguments call_error {AgentPayload ServicesMetadata} c.

End Main.

(** An endpoint for the samples: it accepts the payloads (numbers) below
    its threshold and no metadata. *)
Module Picky.

Record Endpoint := mkEndpoint { threshold : Z }.

#[export] Instance Endpoint_BucketEndpoint : Main.BucketEndpoint Z (list Z) Endpoint := {
  Write e p := (e, if p <? threshold e then None else Some "too large"%string);
  WriteServices e s := (e, Some "no services"%string)
}.

Definition picky_writer (buffer : list Z) : Main.Writer Z (list Z) Endpoint :=
  Main.mkWriter (mkEndpoint 10) buffer [] 0 0 [] [].

(** [Update] for the samples: the metadata received is appended. *)
Definition Update (current sm : list Z) : list Z := current ++ sm.

End Picky.

(** A writer whose buffer holds one trace of two spans. *)
Module Loaded.
Import Model Writer.

Definition loaded_writer : TraceWriter :=
  set_spansInBuffer 2 (set_traces [APITrace_of (Examples.spans 2)] (Examples.writer 10)).

End Loaded.

(* ===================================================================== *)
(** * Part II: proofs                                                     *)
(* ===================================================================== *)

(** ** 64-bit arithmetic *)

Lemma wrap_in_range (x : Z) : Int64.in_range x -> Int64.wrap x = x.
Proof.
  unfold Int64.in_range, Int64.wrap, Int64.min_int, Int64.max_int.
  intros H. rewrite Z.mod_small; lia.
Qed.

Lemma wrap_range (x : Z) : Int64.in_range (Int64.wrap x).
Proof.
  unfold Int64.in_range, Int64.wrap, Int64.min_int, Int64.max_int.
  pose proof (Z.mod_pos_bound (x + 2 ^ 63) (2 ^ 64)). lia.
Qed.

Lemma wrap_wrap_sub (x y : Z) : Int64.wrap (Int64.wrap x - y) = Int64.wrap (x - y).
Proof.
  unfold Int64.wrap.
  replace ((x + 2 ^ 63) mod 2 ^ 64 - 2 ^ 63 - y + 2 ^ 63)
    with ((x + 2 ^ 63) mod 2 ^ 64 + (- y)) by lia.
  rewrite Zplus_mod_idemp_l. f_equal. f_equal. lia.
Qed.

(** [a + b - c] computed with wrap-around is exact as soon as the exact
    result fits, whatever [a + b] does. *)
Lemma sub_add_exact (a b c : Z) :
  Int64.in_range (a + b - c) -> Int64.sub (Int64.add a b) c = a + b - c.
Proof.
  intros H. unfold Int64.sub, Int64.add.
  rewrite wrap_wrap_sub. by apply wrap_in_range.
Qed.

Lemma add_exact (a b : Z) : Int64.in_range (a + b) -> Int64.add a b = a + b.
Proof. apply wrap_in_range. Qed.

Lemma sub_exact (a b : Z) : Int64.in_range (a - b) -> Int64.sub a b = a - b.
Proof. apply wrap_in_range. Qed.

Lemma len_nonneg {A} (l : list A) : 0 <= len l.
Proof. unfold len. lia. Qed.

Lemma len_app {A} (l1 l2 : list A) : len (l1 ++ l2) = len l1 + len l2.
Proof. unfold len. rewrite length_app. lia. Qed.

Lemma slice_from_ok {A} (t : list A) (i : Z) :
  0 <= i <= len t -> slice_from t i = Some (drop (Z.to_nat i) t).
Proof.
  intros H. unfold slice_from.
  destruct (0 <=? i) eqn:E1; [|lia].
  destruct (i <=? len t) eqn:E2; [done|lia].
Qed.

Lemma slice_to_ok {A} (t : list A) (i : Z) :
  0 <= i <= len t -> slice_to t i = Some (take (Z.to_nat i) t).
Proof.
  intros H. unfold slice_to.
  destruct (0 <=? i) eqn:E1; [|lia].
  destruct (i <=? len t) eqn:E2; [done|lia].
Qed.

(** ** The trace writer: buffer, split and flush *)

Section WriterProofs.
Import Model Writer.

Variable Marshal : TracePayload -> option (list byte).
Variable Languages : list string.

Arguments Writer.flush : simpl never.
Arguments Writer.updateInfo : simpl never.
Arguments push : simpl never.

Notation "'flush'" := (Writer.flush Marshal Languages).
Notation "'handleTrace'" := (Writer.handleTrace Marshal Languages).
Notation "'Run'" := (Writer.Run Marshal Languages).
Notation "'select_loop'" := (Writer.select_loop Marshal Languages).
Notation "'Max' w" := (MaxSpansPerPayload (conf w)) (at level 10, w at level 9).
Notation "'Marshal_total'" := (Writer.Marshal_total Marshal).

Lemma spans_of_app (l1 l2 : list APITrace) :
  spans_of (l1 ++ l2) = spans_of l1 ++ spans_of l2.
Proof. unfold spans_of. by rewrite map_app, concat_app. Qed.

Lemma spans_of_push (w : TraceWriter) (t : Trace) :
  spans_of (traces (push w t)) = spans_of (traces w) ++ t.
Proof.
  unfold push. simpl. rewrite spans_of_app. unfold spans_of. simpl.
  by rewrite app_nil_r.
Qed.

(** *** flush *)

(** An empty buffer: nothing happens. *)
Lemma flush_empty (w : TraceWriter) (o : World) :
  traces w = [] -> flush (w, o) = (w, o).
Proof. intros H. unfold Writer.flush. by rewrite H. Qed.

(** Serialization fails: the early return leaves the buffer as it is and
    nothing reaches the sender. *)
Lemma flush_marshal_error (w : TraceWriter) (o : World) :
  traces w <> [] ->
  Marshal (payload_of w) = None ->
  exists w' o',
    flush (w, o) = (w', o') /\
    traces w' = traces w /\
    spansInBuffer w' = spansInBuffer w /\
    conf w' = conf w /\ hostName w' = hostName w /\ env w' = env w /\
    sent o' = sent o /\
    logged o' = logged o ++
      [(LvlError, "failed to serialize trace payload, data got dropped, err: %s"%string)].
Proof.
  intros Hne Herr. unfold Writer.flush.
  destruct (len (traces w) =? 0) eqn:E.
  - apply Z.eqb_eq in E. unfold len in E. destruct (traces w); [done|simpl in E; lia].
  - simpl. unfold payload_of in Herr. rewrite Herr.
    eexists _, _. repeat split.
Qed.

(** Serialization succeeds: the payload goes to the sender and the buffer
    is reset. *)
Lemma flush_success (w : TraceWriter) (o : World) (serialized : list byte) :
  traces w <> [] ->
  Marshal (payload_of w) = Some serialized ->
  exists w' o' p,
    flush (w, o) = (w', o') /\
    traces w' = [] /\
    spansInBuffer w' = 0 /\
    conf w' = conf w /\ hostName w' = hostName w /\ env w' = env w /\
    payload_Bytes p = serialized /\
    sent o' = sent o ++ [(payload_of w, p)] /\
    logged o' = logged o.
Proof.
  intros Hne Hok. unfold Writer.flush.
  destruct (len (traces w) =? 0) eqn:E.
  - apply Z.eqb_eq in E. unfold len in E. destruct (traces w); [done|simpl in E; lia].
  - simpl. unfold payload_of in Hok. rewrite Hok.
    eexists _, _, _. repeat split; reflexivity.
Qed.

(** What every [flush] keeps: the configuration, the spans (sent or
    buffered), and a span count that is either unchanged or zero. *)
Lemma flush_sound (w : TraceWriter) (o : World) :
  exists w' o',
    flush (w, o) = (w', o') /\
    conf w' = conf w /\ hostName w' = hostName w /\ env w' = env w /\
    all_spans (w', o') = all_spans (w, o) /\
    ((spansInBuffer w' = spansInBuffer w /\ traces w' = traces w) \/
     (spansInBuffer w' = 0 /\ traces w' = [])).
Proof.
  destruct (traces w) as [|a l] eqn:Ht.
  - exists w, o. rewrite flush_empty by done. rewrite Ht. naive_solver.
  - destruct (Marshal (payload_of w)) as [bytes|] eqn:Hm.
    + destruct (flush_success w o bytes) as (w' & o' & p & Hf & H1 & H2 & H3 & H4 & H5 & H6 & H7 & H8);
        [by rewrite Ht|done|].
      exists w', o'. repeat split; try done.
      * unfold all_spans. simpl. rewrite H7, H1, map_app, concat_app. simpl.
        unfold payload_spans at 2. simpl. by rewrite !app_nil_r.
      * right. done.
    + destruct (flush_marshal_error w o) as (w' & o' & Hf & H1 & H2 & H3 & H4 & H5 & H6 & H7);
        [by rewrite Ht|done|].
      exists w', o'. repeat split; try done.
      * unfold all_spans. simpl. by rewrite H6, H1.
      * left. rewrite <- Ht. done.
Qed.


(** *** handleTrace, one call at a time *)

Lemma only_logged_refl (o : World) : only_logged o o.
Proof. repeat split. exists []. by rewrite app_nil_r. Qed.

Lemma only_logged_log (o o' : World) (l : LogLevel) (m : string) :
  only_logged o o' -> only_logged o (log l m o').
Proof.
  intros (H1 & H2 & H3 & lines & H4). repeat split; simpl; try done.
  exists (lines ++ [(l, m)]). rewrite H4. by rewrite app_assoc.
Qed.

Lemma only_logged_trans (o1 o2 o3 : World) :
  only_logged o1 o2 -> only_logged o2 o3 -> only_logged o1 o3.
Proof.
  intros (H1 & H2 & H3 & l1 & H4) (G1 & G2 & G3 & l2 & G4).
  repeat split; try congruence.
  exists (l1 ++ l2). rewrite G4, H4. by rewrite app_assoc.
Qed.

Lemma len_zero_iff {A} (t : list A) : (len t =? 0) = true <-> t = [].
Proof.
  unfold len. rewrite Z.eqb_eq. destruct t; simpl; split; intros; try done; lia.
Qed.

Lemma len_nonzero {A} (t : list A) : t <> [] -> (len t =? 0) = false.
Proof.
  intros H. destruct (len t =? 0) eqn:E; [|done]. by apply len_zero_iff in E.
Qed.

(** An empty trace is ignored. *)
Lemma handleTrace_nil (fuel : nat) (w : TraceWriter) (o : World) :
  handleTrace (S fuel) (w, o) [] =
  Done (w, log LvlDebug "Ignoring 0-length trace" o).
Proof. reflexivity. Qed.

(** The trace fits below the cap: it is appended and nothing else
    happens. *)
Lemma handleTrace_below (fuel : nat) (w : TraceWriter) (o : World) (t : Trace) :
  t <> [] ->
  0 <= spansInBuffer w ->
  spansInBuffer w + len t < Max w ->
  Max w <= Int64.max_int ->
  exists o1, only_logged o o1 /\
    handleTrace (S fuel) (w, o) t = Done (push w t, o1).
Proof.
  intros Hne H0 Hlt Hmax.
  pose proof (len_nonneg t) as Hl.
  assert (Hr : Int64.in_range (spansInBuffer w + len t - Max w))
    by (unfold Int64.in_range, Int64.min_int, Int64.max_int in *; lia).
  assert (Hr2 : Int64.in_range (spansInBuffer w + len t))
    by (unfold Int64.in_range, Int64.min_int, Int64.max_int in *; lia).
  simpl. rewrite (len_nonzero t Hne). rewrite sub_add_exact by done.
  destruct (0 <? spansInBuffer w + len t - Max w) eqn:E; [lia|].
  simpl. rewrite add_exact by done.
  destruct (spansInBuffer w + len t =? Max w) eqn:E1; [lia|].
  destruct (Max w <? spansInBuffer w + len t) eqn:E2; [lia|].
  simpl. eexists. split; [|reflexivity].
  do 2 apply only_logged_log. apply only_logged_refl.
Qed.

(** The trace fills the buffer exactly to the cap: it is appended and the
    buffer is flushed at once. *)
Lemma handleTrace_fill (fuel : nat) (w : TraceWriter) (o : World) (t : Trace) :
  t <> [] ->
  0 <= spansInBuffer w ->
  spansInBuffer w + len t = Max w ->
  Max w <= Int64.max_int ->
  exists o1, only_logged o o1 /\
    handleTrace (S fuel) (w, o) t = Done (flush (push w t, o1)).
Proof.
  intros Hne H0 Heq Hmax.
  pose proof (len_nonneg t) as Hl.
  assert (Hr : Int64.in_range (spansInBuffer w + len t - Max w))
    by (unfold Int64.in_range, Int64.min_int, Int64.max_int in *; lia).
  assert (Hr2 : Int64.in_range (spansInBuffer w + len t))
    by (unfold Int64.in_range, Int64.min_int, Int64.max_int in *; lia).
  simpl. rewrite (len_nonzero t Hne). rewrite sub_add_exact by done.
  destruct (0 <? spansInBuffer w + len t - Max w) eqn:E; [lia|].
  simpl. rewrite add_exact by done.
  destruct (spansInBuffer w + len t =? Max w) eqn:E1; [|lia].
  simpl. eexists. split; [|reflexivity].
  do 3 apply only_logged_log. apply only_logged_refl.
Qed.


Lemma len_take {A} (t : list A) (k : Z) :
  0 <= k <= len t -> len (take (Z.to_nat k) t) = k.
Proof. unfold len. intros H. rewrite length_take. lia. Qed.

Lemma len_drop {A} (t : list A) (k : Z) :
  0 <= k <= len t -> len (drop (Z.to_nat k) t) = len t - k.
Proof. unfold len. intros H. rewrite length_drop. lia. Qed.

(** The trace overflows the cap: the prefix that fills the buffer exactly
    to the cap is appended, the buffer is flushed, and the suffix is
    handled as a trace of its own. *)
Lemma handleTrace_split (fuel : nat) (w : TraceWriter) (o : World) (t : Trace) :
  0 <= spansInBuffer w <= Max w ->
  Max w <= Int64.max_int ->
  len t <= Int64.max_int ->
  Max w < spansInBuffer w + len t ->
  exists o1 w2 o2 o3,
    only_logged o o1 /\
    spansInBuffer (push w (take (Z.to_nat (Max w - spansInBuffer w)) t)) = Max w /\
    flush (push w (take (Z.to_nat (Max w - spansInBuffer w)) t), o1) = (w2, o2) /\
    only_logged o2 o3 /\
    drop (Z.to_nat (Max w - spansInBuffer w)) t <> [] /\
    handleTrace (S fuel) (w, o) t =
    handleTrace fuel (w2, o3) (drop (Z.to_nat (Max w - spansInBuffer w)) t).
Proof.
  intros H0 Hmax Hlen Hov.
  pose proof (len_nonneg t) as Hl.
  assert (Hne : t <> []).
  { intros ->. unfold len in Hov. simpl in Hov. lia. }
  assert (Hr : Int64.in_range (spansInBuffer w + len t - Max w))
    by (unfold Int64.in_range, Int64.min_int, Int64.max_int in *; lia).
  assert (Hk : 0 <= Max w - spansInBuffer w <= len t) by lia.
  assert (Hr2 : Int64.in_range (len t - (spansInBuffer w + len t - Max w)))
    by (unfold Int64.in_range, Int64.min_int, Int64.max_int in *; lia).
  assert (Hr3 : Int64.in_range (spansInBuffer w + (Max w - spansInBuffer w)))
    by (unfold Int64.in_range, Int64.min_int, Int64.max_int in *; lia).
  simpl. rewrite (len_nonzero t Hne). rewrite sub_add_exact by done.
  destruct (0 <? spansInBuffer w + len t - Max w) eqn:E; [|lia].
  rewrite sub_exact by done.
  replace (len t - (spansInBuffer w + len t - Max w))
    with (Max w - spansInBuffer w) by lia.
  rewrite slice_from_ok, slice_to_ok by done.
  simpl. rewrite len_take by done. rewrite add_exact by done.
  replace (spansInBuffer w + (Max w - spansInBuffer w)) with (Max w) by lia.
  rewrite Z.eqb_refl. simpl.
  rewrite len_drop by done.
  destruct (0 <? len t - (Max w - spansInBuffer w)) eqn:E2; [|lia].
  match goal with
  | |- context [Writer.flush _ _ (?a, ?b)] =>
      destruct (flush (a, b)) as [w2 o2] eqn:Hf; exists b, w2, o2
  end.
  eexists. split.
  { do 5 apply only_logged_log. apply only_logged_refl. }
  split; [done|].
  split.
  { rewrite <- Hf. do 2 f_equal. unfold push. f_equal.
    rewrite len_take by done. lia. }
  split; [apply only_logged_log, only_logged_refl|].
  split; [|reflexivity].
  intros Hd. apply (f_equal len) in Hd. rewrite len_drop in Hd by done.
  unfold len in Hd at 2. simpl in Hd. lia.
Qed.


Lemma all_spans_only_logged (w : TraceWriter) (o o' : World) :
  only_logged o o' -> all_spans (w, o') = all_spans (w, o).
Proof. intros (H & _). unfold all_spans. simpl. by rewrite H. Qed.

Lemma all_spans_push (w : TraceWriter) (o : World) (t : Trace) :
  all_spans (push w t, o) = all_spans (w, o) ++ t.
Proof.
  unfold all_spans. cbn [fst snd]. rewrite spans_of_push. by rewrite app_assoc.
Qed.

Lemma counts_buffer_push (w : TraceWriter) (t : Trace) :
  counts_buffer w -> counts_buffer (push w t).
Proof.
  unfold counts_buffer. intros H. rewrite spans_of_push, len_app.
  unfold push. simpl. lia.
Qed.

(** What one call of [handleTrace] guarantees, whatever the marshaller
    does: it does not panic, and when it returns the cap holds again, the
    configuration is the same and the spans of the trace have been added
    to those sent or buffered, in order. *)
Lemma handleTrace_sound (fuel : nat) :
  forall (w : TraceWriter) (o : World) (t : Trace),
    within_cap w ->
    Max w <= Int64.max_int ->
    len t <= Int64.max_int ->
    match handleTrace fuel (w, o) t with
    | Done (w', o') =>
        within_cap w' /\ conf w' = conf w /\
        all_spans (w', o') = all_spans (w, o) ++ t /\
        (counts_buffer w -> counts_buffer w')
    | Panic _ => False
    | OutOfFuel => True
    end.
Proof.
  induction fuel as [|fuel IH]; intros w o t Hcap Hmax Hlen; [done|].
  destruct t as [|x t'] eqn:Ht.
  { rewrite handleTrace_nil. split; [done|split; [done|split; [|done]]].
    unfold all_spans. simpl. by rewrite app_nil_r. }
  rewrite <- Ht in *. assert (Hne : t <> []) by (by rewrite Ht).
  clear Ht x t'. unfold within_cap in Hcap.
  destruct (Z.lt_trichotomy (spansInBuffer w + len t) (Max w)) as [Hlt|[Heq|Hgt]].
  - destruct (handleTrace_below fuel w o t) as (o1 & Ho1 & ->); try done; [lia|].
    pose proof (len_nonneg t).
    split; [|split; [done|split]].
    + unfold within_cap, push. simpl. lia.
    + rewrite all_spans_push. by rewrite (all_spans_only_logged _ _ _ Ho1).
    + apply counts_buffer_push.
  - destruct (handleTrace_fill fuel w o t) as (o1 & Ho1 & ->); try done; [lia|].
    destruct (flush_sound (push w t) o1)
      as (w' & o' & -> & Hc & _ & _ & Hall & Hbuf).
    split; [|split; [done|split]].
    + unfold within_cap. rewrite Hc.
      destruct Hbuf as [[-> _]|[-> _]]; unfold push; simpl; lia.
    + rewrite Hall, all_spans_push. by rewrite (all_spans_only_logged _ _ _ Ho1).
    + intros Hcb. apply (counts_buffer_push w t) in Hcb.
      unfold counts_buffer in *.
      destruct Hbuf as [[-> ->]|[-> ->]]; done.
  - destruct (handleTrace_split fuel w o t)
      as (o1 & w2 & o2 & o3 & Ho1 & Hfull & Hf & Ho3 & Hd & ->); try done.
    set (k := Z.to_nat (Max w - spansInBuffer w)) in *.
    destruct (flush_sound (push w (take k t)) o1)
      as (w' & o' & Hf' & Hc & _ & _ & Hall & Hbuf).
    rewrite Hf in Hf'. injection Hf' as <- <-.
    assert (Hc2 : conf w2 = conf w) by (rewrite Hc; done).
    assert (Hcap2 : within_cap w2).
    { unfold within_cap. rewrite Hc2.
      destruct Hbuf as [[-> _]|[-> _]]; [rewrite Hfull|]; lia. }
    assert (Hlen2 : len (drop k t) <= Int64.max_int).
    { unfold len in *. rewrite length_drop. lia. }
    specialize (IH w2 o3 (drop k t) Hcap2 ltac:(by rewrite Hc2) Hlen2).
    destruct (handleTrace fuel (w2, o3) (drop k t)) as [[w' o']| |]; [|done|done].
    destruct IH as (I1 & I2 & I3 & I4).
    split; [done|split; [congruence|split]].
    + rewrite I3, (all_spans_only_logged _ _ _ Ho3), Hall, all_spans_push.
      rewrite (all_spans_only_logged _ _ _ Ho1).
      rewrite <- app_assoc. by rewrite take_drop.
    + intros Hcb. apply I4.
      apply (counts_buffer_push w (take k t)) in Hcb.
      unfold counts_buffer in *.
      destruct Hbuf as [[-> ->]|[-> ->]]; done.
Qed.


(** *** handleTrace returns *)

(** Below the cap, a call returns within [length t + 1] levels of
    recursion. *)
Lemma handleTrace_returns_below (fuel : nat) :
  Marshal_total ->
  forall (w : TraceWriter) (o : World) (t : Trace),
    (length t < fuel)%nat ->
    0 <= spansInBuffer w < Max w ->
    Max w <= Int64.max_int ->
    len t <= Int64.max_int ->
    exists s', handleTrace fuel (w, o) t = Done s'.
Proof.
  intros Htot.
  induction fuel as [|fuel IH]; intros w o t Hfuel Hcap Hmax Hlen; [lia|].
  destruct t as [|x t'] eqn:Ht.
  { rewrite handleTrace_nil. eauto. }
  rewrite <- Ht in *. assert (Hne : t <> []) by (by rewrite Ht).
  clear Ht x t'.
  destruct (Z.lt_trichotomy (spansInBuffer w + len t) (Max w)) as [Hlt|[Heq|Hgt]].
  - destruct (handleTrace_below fuel w o t) as (o1 & Ho1 & ->); try done; [lia|eauto].
  - destruct (handleTrace_fill fuel w o t) as (o1 & Ho1 & ->); try done; [lia|eauto].
  - destruct (handleTrace_split fuel w o t)
      as (o1 & w2 & o2 & o3 & Ho1 & Hfull & Hf & Ho3 & Hd & ->); try done; [lia|].
    set (k := Z.to_nat (Max w - spansInBuffer w)) in *.
    assert (Hne2 : traces (push w (take k t)) <> []).
    { unfold push. simpl. by destruct (traces w). }
    destruct (Htot (payload_of (push w (take k t)))) as [bytes Hb].
    destruct (flush_success (push w (take k t)) o1 bytes Hne2 Hb)
      as (w' & o' & p & Hf' & Ht' & Hs' & Hc' & _).
    rewrite Hf in Hf'. injection Hf' as <- <-.
    apply IH.
    + rewrite length_drop. subst k.
      assert (length t <> 0)%nat by (by destruct t). lia.
    + rewrite Hs', Hc'. unfold push. simpl. lia.
    + rewrite Hc'. unfold push. simpl. done.
    + unfold len in *. rewrite length_drop. lia.
Qed.

(** Within the cap, a call returns within [length t + 2] levels of
    recursion. *)
Lemma handleTrace_returns (fuel : nat) (w : TraceWriter) (o : World) (t : Trace) :
  Marshal_total ->
  within_cap w ->
  0 < Max w <= Int64.max_int ->
  len t <= Int64.max_int ->
  (S (length t) < fuel)%nat ->
  exists s', handleTrace fuel (w, o) t = Done s'.
Proof.
  intros Htot Hcap Hmax Hlen Hfuel. unfold within_cap in Hcap.
  destruct (decide (spansInBuffer w = Max w)) as [Heq|Hneq].
  2: { apply handleTrace_returns_below; try done; lia. }
  destruct fuel as [|fuel]; [lia|].
  destruct t as [|x t'] eqn:Ht.
  { rewrite handleTrace_nil. eauto. }
  rewrite <- Ht in *. assert (Hne : t <> []) by (by rewrite Ht).
  clear Ht x t'.
  assert (0 < len t).
  { unfold len. destruct t; [done|simpl; lia]. }
  destruct (handleTrace_split fuel w o t)
    as (o1 & w2 & o2 & o3 & Ho1 & Hfull & Hf & Ho3 & Hd & ->); try done; [lia..|].
  set (k := Z.to_nat (Max w - spansInBuffer w)) in *.
  assert (Hne2 : traces (push w (take k t)) <> []).
  { unfold push. simpl. by destruct (traces w). }
  destruct (Htot (payload_of (push w (take k t)))) as [bytes Hb].
  destruct (flush_success (push w (take k t)) o1 bytes Hne2 Hb)
    as (w' & o' & p & Hf' & Ht' & Hs' & Hc' & _).
  rewrite Hf in Hf'. injection Hf' as <- <-.
  apply handleTrace_returns_below; try done.
  - rewrite length_drop. lia.
  - rewrite Hs', Hc'. unfold push. simpl. lia.
  - rewrite Hc'. unfold push. simpl. lia.
  - unfold len in *. rewrite length_drop. lia.
Qed.


(** *** The main loop *)

Lemma updateInfo_buffer (w : TraceWriter) (o : World) :
  exists w' o',
    Writer.updateInfo (w, o) = (w', o') /\
    traces w' = traces w /\ spansInBuffer w' = spansInBuffer w /\
    conf w' = conf w /\ sent o' = sent o.
Proof. eexists _, _. split; [reflexivity|]. done. Qed.

Lemma within_cap_eq (w w' : TraceWriter) :
  spansInBuffer w' = spansInBuffer w -> conf w' = conf w ->
  within_cap w -> within_cap w'.
Proof. unfold within_cap. by intros -> ->. Qed.

Lemma flush_within_cap (w : TraceWriter) (o : World) :
  within_cap w ->
  exists w' o',
    flush (w, o) = (w', o') /\ within_cap w' /\ conf w' = conf w /\
    all_spans (w', o') = all_spans (w, o).
Proof.
  intros Hcap.
  destruct (flush_sound w o) as (w' & o' & Hf & Hc & _ & _ & Hall & Hbuf).
  exists w', o'. split; [done|]. split; [|done].
  unfold within_cap in *. rewrite Hc.
  destruct Hbuf as [[-> _]|[-> _]]; lia.
Qed.

(** The main loop does not panic, keeps the cap and the configuration, and
    adds exactly the spans of the traces it was given, in order, to those
    sent or buffered. *)
Lemma select_loop_sound (fuel : nat) (events : list LoopEvent) :
  forall (w : TraceWriter) (o : World),
    within_cap w ->
    Max w <= Int64.max_int ->
    Forall (fun t : Trace => len t <= Int64.max_int) (ingested events) ->
    match select_loop fuel events (w, o) with
    | Done (w', o') =>
        within_cap w' /\ conf w' = conf w /\
        all_spans (w', o') = all_spans (w, o) ++ concat (ingested events)
    | Panic _ => False
    | OutOfFuel => True
    end.
Proof.
  induction events as [|ev rest IH]; intros w o Hcap Hmax Hlen.
  { simpl. by rewrite app_nil_r. }
  destruct ev as [[t|]| | |]; simpl in *.
  - apply Forall_cons in Hlen as [Ht Hrest].
    pose proof (handleTrace_sound fuel w o t Hcap Hmax Ht) as Hs.
    destruct (handleTrace fuel (w, o) t) as [[w1 o1]| |]; simpl; [|done|done].
    destruct Hs as (H1 & H2 & H3 & _).
    specialize (IH w1 o1 H1 ltac:(by rewrite H2) Hrest).
    destruct (select_loop fuel rest (w1, o1)) as [[w' o']| |]; [|done|done].
    destruct IH as (I1 & I2 & I3).
    split; [done|split; [congruence|]].
    rewrite I3, H3. by rewrite <- app_assoc.
  - by apply IH.
  - destruct (flush_within_cap w (log LvlDebug "Flushing current traces" o) Hcap)
      as (w1 & o1 & -> & H1 & H2 & H3).
    specialize (IH w1 o1 H1 ltac:(by rewrite H2) Hlen).
    destruct (select_loop fuel rest (w1, o1)) as [[w' o']| |]; [|done|done].
    destruct IH as (I1 & I2 & I3).
    split; [done|split; [congruence|]].
    rewrite I3, H3. done.
  - destruct (updateInfo_buffer w (log LvlDebug "Updating info" o))
      as (w1 & o1 & -> & H1 & H2 & H3 & H4).
    specialize (IH w1 o1 (within_cap_eq _ _ H2 H3 Hcap) ltac:(by rewrite H3) Hlen).
    destruct (select_loop fuel rest (w1, o1)) as [[w' o']| |]; [|done|done].
    destruct IH as (I1 & I2 & I3).
    split; [done|split; [congruence|]].
    rewrite I3. unfold all_spans. simpl. by rewrite H1, H4.
  - destruct (flush_within_cap w
        (log LvlInfo "exiting trace writer, flushing all remaining traces" o) Hcap)
      as (w1 & o1 & -> & H1 & H2 & H3).
    split; [done|split; [done|]].
    rewrite app_nil_r.
    rewrite (all_spans_only_logged w1 o1) by apply only_logged_log, only_logged_refl.
    rewrite H3. apply all_spans_only_logged, only_logged_log, only_logged_refl.
Qed.

(** With a marshaller that never fails and a positive cap, the main loop
    gets through every event as soon as the recursion budget exceeds the
    longest trace by two. *)
Lemma select_loop_returns (fuel : nat) (events : list LoopEvent) :
  Marshal_total ->
  forall (w : TraceWriter) (o : World),
    within_cap w ->
    0 < Max w <= Int64.max_int ->
    Forall (fun t : Trace => len t <= Int64.max_int) (ingested events) ->
    Forall (fun t : Trace => (S (length t) < fuel)%nat) (ingested events) ->
    exists s', select_loop fuel events (w, o) = Done s'.
Proof.
  intros Htot.
  induction events as [|ev rest IH]; intros w o Hcap Hmax Hlen Hfuel.
  { simpl. eauto. }
  destruct ev as [[t|]| | |]; simpl in *.
  - apply Forall_cons in Hlen as [Ht Hrest].
    apply Forall_cons in Hfuel as [Hf Hfrest].
    destruct (handleTrace_returns fuel w o t) as [[w1 o1] Hr]; try done.
    pose proof (handleTrace_sound fuel w o t Hcap ltac:(lia) Ht) as Hs.
    rewrite Hr in Hs. rewrite Hr. simpl.
    destruct Hs as (H1 & H2 & _).
    apply IH; try done. by rewrite H2.
  - by apply IH.
  - destruct (flush_within_cap w (log LvlDebug "Flushing current traces" o) Hcap)
      as (w1 & o1 & -> & H1 & H2 & H3).
    apply IH; try done. by rewrite H2.
  - destruct (updateInfo_buffer w (log LvlDebug "Updating info" o))
      as (w1 & o1 & -> & H1 & H2 & H3 & H4).
    apply IH; try done; [by apply (within_cap_eq w)|by rewrite H3].
  - destruct (Writer.flush _ _ _). eauto.
Qed.


Lemma Run_sound (fuel : nat) (events : list LoopEvent)
    (w : TraceWriter) (o : World) :
  within_cap w ->
  Max w <= Int64.max_int ->
  Forall (fun t : Trace => len t <= Int64.max_int) (ingested events) ->
  match Run fuel events (w, o) with
  | Done (w', o') =>
      within_cap w' /\ conf w' = conf w /\
      all_spans (w', o') = all_spans (w, o) ++ concat (ingested events)
  | Panic _ => False
  | OutOfFuel => True
  end.
Proof.
  intros Hcap Hmax Hlen. unfold Writer.Run.
  apply (select_loop_sound fuel events w
           (log LvlDebug "starting trace writer" o) Hcap Hmax Hlen).
Qed.

Lemma Run_returns (fuel : nat) (events : list LoopEvent)
    (w : TraceWriter) (o : World) :
  Marshal_total ->
  within_cap w ->
  0 < Max w <= Int64.max_int ->
  Forall (fun t : Trace => len t <= Int64.max_int) (ingested events) ->
  Forall (fun t : Trace => (S (length t) < fuel)%nat) (ingested events) ->
  exists s', Run fuel events (w, o) = Done s'.
Proof.
  intros Htot Hcap Hmax Hlen Hfuel. unfold Writer.Run.
  by apply select_loop_returns.
Qed.

(** *** Cutting a list into chunks *)

Lemma chunks_aux_enough {A} (k : nat) :
  (0 < k)%nat ->
  forall (n m : nat) (l : list A),
    (length l <= n)%nat -> (length l <= m)%nat ->
    chunks_aux n k l = chunks_aux m k l.
Proof.
  intros Hk. induction n as [|n IH]; intros m l Hn Hm.
  - destruct l; [|simpl in Hn; lia]. by destruct m.
  - destruct l as [|x l]; [by destruct m|].
    destruct m as [|m]; [simpl in Hm; lia|].
    simpl. f_equal. apply IH; rewrite length_drop; simpl in *; lia.
Qed.

Lemma chunks_nil {A} (k : nat) : chunks k (@nil A) = [].
Proof. reflexivity. Qed.

Lemma chunks_cons {A} (k : nat) (l : list A) :
  (0 < k)%nat -> l <> [] ->
  chunks k l = take k l :: chunks k (drop k l).
Proof.
  intros Hk Hne. unfold chunks. destruct l as [|x l]; [done|].
  simpl length. cbn [chunks_aux]. f_equal.
  apply chunks_aux_enough; [done| |done].
  rewrite length_drop. simpl. lia.
Qed.

(** A list that fits one chunk is its own and only chunk. *)
Lemma chunks_short {A} (k : nat) (l : list A) :
  (0 < k)%nat -> l <> [] -> (length l <= k)%nat -> chunks k l = [l].
Proof.
  intros Hk Hne Hl. rewrite chunks_cons by done.
  rewrite take_ge by done. rewrite drop_ge by done. done.
Qed.

Lemma chunks_aux_concat {A} (k : nat) :
  (0 < k)%nat ->
  forall (n : nat) (l : list A),
    (length l <= n)%nat -> concat (chunks_aux n k l) = l.
Proof.
  intros Hk. induction n as [|n IH]; intros l Hn.
  - destruct l; [done|simpl in Hn; lia].
  - destruct l as [|x l]; [done|].
    cbn [chunks_aux concat]. rewrite IH.
    + apply take_drop.
    + rewrite length_drop. simpl in *. lia.
Qed.

Lemma chunks_concat {A} (k : nat) (l : list A) :
  (0 < k)%nat -> concat (chunks k l) = l.
Proof. intros Hk. by apply chunks_aux_concat. Qed.

(** Every chunk holds between one and [k] elements, and every chunk but
    the last holds exactly [k]. *)
Lemma chunks_aux_sizes {A} (k : nat) :
  (0 < k)%nat ->
  forall (n : nat) (l : list A) (i : nat) (c : list A),
    (length l <= n)%nat ->
    chunks_aux n k l !! i = Some c ->
    (0 < length c <= k)%nat /\
    ((S i < length (chunks_aux n k l))%nat -> length c = k).
Proof.
  intros Hk. induction n as [|n IH]; intros l i c Hn Hi; [done|].
  destruct l as [|x l]; [done|].
  cbn [chunks_aux] in *.
  destruct i as [|i].
  - simpl in Hi. injection Hi as <-. split.
    + rewrite length_take. simpl. lia.
    + simpl. intros Hlen.
      destruct (chunks_aux n k (drop k (x :: l))) as [|c' cs] eqn:E;
        [simpl in Hlen; lia|].
      rewrite length_take.
      destruct (decide (k <= length (x :: l))%nat); [lia|].
      rewrite drop_ge in E by lia. by destruct n.
  - simpl in Hi. apply IH in Hi.
    + destruct Hi as [H1 H2]. split; [done|]. simpl. intros Hlen. apply H2. lia.
    + rewrite length_drop. simpl in *. lia.
Qed.

Lemma chunks_sizes {A} (k : nat) (l : list A) (i : nat) (c : list A) :
  (0 < k)%nat ->
  chunks k l !! i = Some c ->
  (0 < length c <= k)%nat /\
  ((S i < length (chunks k l))%nat -> length c = k).
Proof. intros Hk. by apply chunks_aux_sizes. Qed.


(** *** One trace into an empty buffer *)

Lemma payload_spans_push (w : TraceWriter) (t : Trace) (p : Payload) :
  traces w = [] -> payload_spans (payload_of (push w t), p) = t.
Proof.
  intros Hw. unfold payload_spans, payload_of. cbn [fst tp_Traces].
  rewrite spans_of_push, Hw. done.
Qed.

(** With a marshaller that never fails, a trace handed to an empty buffer
    leaves as the chunks of [MaxSpansPerPayload] spans it is cut into: the
    full chunks as payloads, one trace each, and what is left in the
    buffer. *)
Lemma handleTrace_chunks (fuel : nat) :
  Marshal_total ->
  forall (w : TraceWriter) (o : World) (t : Trace),
    (length t < fuel)%nat ->
    traces w = [] ->
    spansInBuffer w = 0 ->
    0 < Max w <= Int64.max_int ->
    len t <= Int64.max_int ->
    exists w' o' ps,
      handleTrace fuel (w, o) t = Done (w', o') /\
      conf w' = conf w /\
      sent o' = sent o ++ ps /\
      map payload_spans ps ++
        match traces w' with [] => [] | _ => [spans_of (traces w')] end
      = chunks (Z.to_nat (Max w)) t.
Proof.
  intros Htot.
  induction fuel as [|fuel IH]; intros w o t Hfuel Hw Hs Hmax Hlen; [lia|].
  destruct t as [|x t'] eqn:Ht.
  { rewrite handleTrace_nil. eexists _, _, []. split; [done|].
    split; [done|]. split; [simpl; by rewrite app_nil_r|]. by rewrite Hw. }
  rewrite <- Ht in *. assert (Hne : t <> []) by (by rewrite Ht).
  clear Ht x t'.
  assert (Hk : (0 < Z.to_nat (Max w))%nat) by lia.
  destruct (Z.lt_trichotomy (spansInBuffer w + len t) (Max w)) as [Hlt|[Heq|Hgt]].
  - destruct (handleTrace_below fuel w o t) as (o1 & Ho1 & ->); try done; [lia..|].
    exists (push w t), o1, []. split; [done|]. split; [done|].
    split; [rewrite app_nil_r; apply Ho1|].
    rewrite chunks_short; [|done|done|unfold len in *; lia].
    unfold push. simpl. rewrite Hw. simpl. unfold spans_of. simpl.
    by rewrite app_nil_r.
  - destruct (handleTrace_fill fuel w o t) as (o1 & Ho1 & ->); try done; [lia..|].
    assert (Hne2 : traces (push w t) <> []).
    { unfold push. simpl. by destruct (traces w). }
    destruct (Htot (payload_of (push w t))) as [bytes Hb].
    destruct (flush_success (push w t) o1 bytes Hne2 Hb)
      as (w' & o' & p & -> & Ht' & Hs' & Hc' & _ & _ & _ & Hsent & _).
    exists w', o', [(payload_of (push w t), p)].
    split; [done|]. split; [done|].
    split; [rewrite Hsent; f_equal; apply Ho1|].
    rewrite Ht'. cbn [map]. rewrite payload_spans_push by done.
    rewrite chunks_short; [done|done|done|unfold len in *; lia].
  - destruct (handleTrace_split fuel w o t)
      as (o1 & w2 & o2 & o3 & Ho1 & Hfull & Hf & Ho3 & Hd & ->); try done; [lia..|].
    rewrite Hs in *. rewrite Z.sub_0_r in *.
    set (k := Z.to_nat (Max w)) in *.
    assert (Hne2 : traces (push w (take k t)) <> []).
    { unfold push. simpl. by destruct (traces w). }
    destruct (Htot (payload_of (push w (take k t)))) as [bytes Hb].
    destruct (flush_success (push w (take k t)) o1 bytes Hne2 Hb)
      as (w' & o' & p & Hf' & Ht' & Hs' & Hc' & _ & _ & _ & Hsent & _).
    rewrite Hf in Hf'. injection Hf' as <- <-.
    assert (Hc2 : conf w2 = conf w) by (rewrite Hc'; done).
    destruct (IH w2 o3 (drop k t)) as (w' & o' & ps & Hrun & Hc3 & Hsent3 & Hch).
    + rewrite length_drop. assert (length t <> 0)%nat by (by destruct t). lia.
    + done.
    + done.
    + by rewrite Hc2.
    + unfold len in *. rewrite length_drop. lia.
    + exists w', o', ((payload_of (push w (take k t)), p) :: ps).
      split; [done|]. split; [congruence|].
      split.
      { rewrite Hsent3. destruct Ho3 as (-> & _). rewrite Hsent.
        destruct Ho1 as (-> & _). by rewrite <- app_assoc. }
      cbn [map]. rewrite payload_spans_push by done.
      rewrite (chunks_cons k t) by done. rewrite <- app_comm_cons.
      f_equal. rewrite Hch. by rewrite Hc2.
Qed.


(** *** The properties of the buffer *)

(** C1 (cap invariant). From a buffer whose span count is between zero and
    [MaxSpansPerPayload], and for every trace, [handleTrace] never reaches
    its panic (nor any other), and whenever it returns the span count is
    again at most [MaxSpansPerPayload] (and non-negative, under the same
    configuration). It does return, within [length t + 2] levels of
    recursion, when the marshaller never fails and the cap is positive. *)
Theorem handleTrace_cap_invariant (w : TraceWriter) (o : World) (t : Trace) :
  0 <= spansInBuffer w ->
  spansInBuffer w <= Max w ->
  Max w <= Int64.max_int ->
  len t <= Int64.max_int ->
  (forall fuel : nat,
     match handleTrace fuel (w, o) t with
     | Done (w', _) =>
         spansInBuffer w' <= Max w' /\ 0 <= spansInBuffer w' /\ conf w' = conf w
     | Panic _ => False
     | OutOfFuel => True
     end) /\
  (Marshal_total -> 0 < Max w ->
   exists w' o',
     handleTrace (S (S (length t))) (w, o) t = Done (w', o') /\
     spansInBuffer w' <= Max w').
Proof.
  intros H0 Hcap Hmax Hlen.
  assert (Hw : within_cap w) by (unfold within_cap; lia).
  split.
  - intros fuel. pose proof (handleTrace_sound fuel w o t Hw Hmax Hlen) as Hs.
    destruct (handleTrace fuel (w, o) t) as [[w' o']| |]; [|done|done].
    destruct Hs as ([? ?] & ? & _). done.
  - intros Htot Hpos.
    destruct (handleTrace_returns (S (S (length t))) w o t) as [[w' o'] Hr];
      try done; [lia..|].
    exists w', o'. split; [done|].
    pose proof (handleTrace_sound (S (S (length t))) w o t Hw Hmax Hlen) as Hs.
    rewrite Hr in Hs. destruct Hs as ([? ?] & _). done.
Qed.

(** C2 (splitting rule). When [spansInBuffer + len(trace)] exceeds the cap,
    [handleTrace] appends exactly the first [len(trace) - overflow] spans
    to the buffer, which brings the span count to the cap, flushes, and
    goes on with the remaining spans as a trace of its own. When the
    buffer is empty and the marshaller never fails, the payloads a trace
    longer than the cap has produced once the rest is flushed hold, in
    order, the spans of the trace: their concatenation is the trace, each
    holds at least one and at most [MaxSpansPerPayload] spans, and each but
    the last holds exactly [MaxSpansPerPayload]. *)
Theorem handleTrace_splits_oversized (w : TraceWriter) (o : World) (t : Trace) :
  0 <= spansInBuffer w <= Max w ->
  Max w <= Int64.max_int ->
  len t <= Int64.max_int ->
  0 < spansInBuffer w + len t - Max w ->
  let overflow := spansInBuffer w + len t - Max w in
  let prefix := take (Z.to_nat (len t - overflow)) t in
  let suffix := drop (Z.to_nat (len t - overflow)) t in
  (forall fuel : nat,
     exists o1 w2 o2 o3,
       only_logged o o1 /\
       traces (push w prefix) = traces w ++ [APITrace_of prefix] /\
       spansInBuffer (push w prefix) = Max w /\
       flush (push w prefix, o1) = (w2, o2) /\
       only_logged o2 o3 /\
       prefix ++ suffix = t /\ suffix <> [] /\
       handleTrace (S fuel) (w, o) t = handleTrace fuel (w2, o3) suffix) /\
  (Marshal_total -> traces w = [] -> spansInBuffer w = 0 -> 0 < Max w ->
   exists w1 o1 w2 o2 ps,
     handleTrace (S (length t)) (w, o) t = Done (w1, o1) /\
     flush (w1, o1) = (w2, o2) /\
     traces w2 = [] /\
     sent o2 = sent o ++ ps /\
     concat (map payload_spans ps) = t /\
     forall (i : nat) (c : list Span),
       map payload_spans ps !! i = Some c ->
       (0 < len c <= Max w) /\
       ((S i < length ps)%nat -> len c = Max w)).
Proof.
  intros Hcap Hmax Hlen Hov overflow prefix suffix.
  assert (Hk : len t - overflow = Max w - spansInBuffer w)
    by (unfold overflow; lia).
  subst prefix suffix. rewrite Hk. clear Hk. split.
  - intros fuel.
    destruct (handleTrace_split fuel w o t)
      as (o1 & w2 & o2 & o3 & Ho1 & Hfull & Hf & Ho3 & Hd & Hrun);
      try done; [lia|].
    exists o1, w2, o2, o3. repeat split; try done; try apply Ho1; try apply Ho3.
    apply take_drop.
  - intros Htot Hw Hs Hpos.
    destruct (handleTrace_chunks (S (length t)) Htot w o t)
      as (w1 & o1 & ps & Hrun & Hc & Hsent & Hch); try done; [lia..|].
    assert (Hkpos : (0 < Z.to_nat (Max w))%nat) by lia.
    assert (Hsizes : forall ps' : list (TracePayload * Payload),
      map payload_spans ps' = chunks (Z.to_nat (Max w)) t ->
      concat (map payload_spans ps') = t /\
      forall (i : nat) (c : list Span),
        map payload_spans ps' !! i = Some c ->
        (0 < len c <= Max w) /\ ((S i < length ps')%nat -> len c = Max w)).
    { intros ps' Hps. split; [rewrite Hps; by apply chunks_concat|].
      intros i c Hi. rewrite Hps in Hi.
      destruct (chunks_sizes _ _ _ _ Hkpos Hi) as [H1 H2].
      split; [unfold len; lia|].
      intros Hlast. unfold len. rewrite H2; [lia|].
      by rewrite <- Hps, length_map. }
    destruct (traces w1) as [|a l] eqn:Hw1.
    + exists w1, o1, w1, o1, ps. rewrite flush_empty by done.
      rewrite app_nil_r in Hch.
      destruct (Hsizes ps Hch) as [H1 H2]. done.
    + destruct (Htot (payload_of w1)) as [bytes Hb].
      destruct (flush_success w1 o1 bytes) as
        (w2 & o2 & p & Hf & Ht2 & _ & _ & _ & _ & _ & Hsent2 & _);
        [by rewrite Hw1|done|].
      exists w1, o1, w2, o2, (ps ++ [(payload_of w1, p)]).
      split; [done|]. split; [done|]. split; [done|].
      split; [rewrite Hsent2, Hsent; by rewrite app_assoc|].
      apply Hsizes. rewrite map_app. rewrite <- Hch. f_equal.
      cbn [map]. unfold payload_spans, payload_of. cbn [fst tp_Traces].
      by rewrite Hw1.
Qed.

(** C3 (conservation). Over every sequence of events of the main loop
    (traces to handle, flush ticks, telemetry ticks, the exit), from a
    buffer within the cap: the loop never panics, and when it returns the
    spans of the payloads given to the sender followed by the spans still
    buffered are those that were there before followed by the spans of the
    traces handed to [handleTrace], in the same order, hence the same
    multiset. The loop does return when the marshaller never fails, the
    cap is positive and the recursion budget exceeds the longest trace by
    two. *)
Theorem spans_conserved (fuel : nat) (events : list LoopEvent)
    (w : TraceWriter) (o : World) :
  0 <= spansInBuffer w <= Max w ->
  Max w <= Int64.max_int ->
  Forall (fun t : Trace => len t <= Int64.max_int) (ingested events) ->
  match Run fuel events (w, o) with
  | Done (w', o') =>
      concat (map payload_spans (sent o')) ++ spans_of (traces w')
        ≡ₚ (concat (map payload_spans (sent o)) ++ spans_of (traces w))
             ++ concat (ingested events) /\
      concat (map payload_spans (sent o')) ++ spans_of (traces w')
        = (concat (map payload_spans (sent o)) ++ spans_of (traces w))
             ++ concat (ingested events)
  | Panic _ => False
  | OutOfFuel => True
  end /\
  (Marshal_total -> 0 < Max w ->
   Forall (fun t : Trace => (S (length t) < fuel)%nat) (ingested events) ->
   exists s', Run fuel events (w, o) = Done s').
Proof.
  intros Hcap Hmax Hlen. split.
  - pose proof (Run_sound fuel events w o Hcap Hmax Hlen) as Hs.
    destruct (Run fuel events (w, o)) as [[w' o']| |]; [|done|done].
    destruct Hs as (_ & _ & Hall). unfold all_spans in Hall. simpl in Hall.
    split; [by rewrite Hall|done].
  - intros Htot Hpos Hfuel. apply Run_returns; try done.
Qed.

(** After a flush that failed at the cap, the next trace that is not empty
    sends [handleTrace] into a recursion that does not end: whatever the
    budget, the call has not returned. *)
Lemma handleTrace_diverges_at_cap (fuel : nat) :
  (forall p, Marshal p = None) ->
  forall (w : TraceWriter) (o : World) (t : Trace),
    spansInBuffer w = Max w ->
    0 <= Max w <= Int64.max_int ->
    len t <= Int64.max_int ->
    t <> [] ->
    handleTrace fuel (w, o) t = OutOfFuel.
Proof.
  intros Hfail. induction fuel as [|fuel IH]; intros w o t Hfull Hmax Hlen Hne;
    [done|].
  assert (0 < len t) by (unfold len; destruct t; [done|simpl; lia]).
  destruct (handleTrace_split fuel w o t)
    as (o1 & w2 & o2 & o3 & Ho1 & Hfull2 & Hf & Ho3 & Hd & ->); try done; [lia..|].
  rewrite Hfull in *. rewrite Z.sub_diag in *.
  change (Z.to_nat 0) with 0%nat in *. rewrite take_0 in *.
  assert (Hne2 : traces (push w []) <> []).
  { unfold push. simpl. by destruct (traces w). }
  destruct (flush_marshal_error (push w []) o1 Hne2 (Hfail _))
    as (w' & o' & Hf' & _ & Hs' & Hc' & _).
  rewrite Hf in Hf'. injection Hf' as <- <-.
  rewrite drop_0. apply IH; try done.
  - rewrite Hs', Hc'. done.
  - by rewrite Hc'.
Qed.

End WriterProofs.

(** ** Flush on a serialization error *)

(** C4 (flush and serialization errors). With one trace of one span in the
    buffer and a marshaller that returns an error, [flush] logs the error
    and gives nothing to the sender, but it returns before the reset: the
    trace is still buffered and [spansInBuffer] is still 1. *)
Theorem flush_error_keeps_buffer :
  let w := Writer.push (Examples.writer 10) (Examples.spans 1) in
  let s' := Writer.flush Examples.marshal_fail [] (w, Writer.empty_world) in
  Writer.traces w <> [] /\
  Writer.traces (fst s') = Writer.traces w /\
  Writer.spansInBuffer (fst s') = 1 /\
  Writer.sent (snd s') = [] /\
  Writer.logged (snd s') =
    [(Writer.LvlError,
      "failed to serialize trace payload, data got dropped, err: %s"%string)].
Proof. repeat split; try reflexivity. discriminate. Qed.

(** ** The sender events and the telemetry *)

Section MonitorProofs.
Import Writer.

Lemma wrap_add_1 (x n : Z) :
  Int64.add (Int64.wrap (x + n)) 1 = Int64.wrap (x + (n + 1)).
Proof.
  unfold Int64.add.
  replace (Int64.wrap (x + n) + 1) with (Int64.wrap (x + n) - (-1)) by lia.
  rewrite wrap_wrap_sub. f_equal. lia.
Qed.

Lemma count_events_cons (p : option SenderEvent -> bool)
    (e : option SenderEvent) (events : list (option SenderEvent)) :
  count_events p (e :: events) =
  (if p e then 1 else 0) + count_events p events.
Proof.
  unfold count_events, len. simpl. destruct (p e); simpl; lia.
Qed.

(** The counters after the monitor has consumed [events], started from
    counters that are [pa], [er] and [re] increments away from [w0]. *)
Lemma monitor_counts_from (events : list (option SenderEvent)) :
  forall (w0 w : TraceWriter) (o : World) (pa er re : Z),
    Payloads (stats w) = Int64.wrap (Payloads (stats w0) + pa) ->
    Errors (stats w) = Int64.wrap (Errors (stats w0) + er) ->
    Retries (stats w) = Int64.wrap (Retries (stats w0) + re) ->
    let w' := fst (monitor events (w, o)) in
    Payloads (stats w') =
      Int64.wrap (Payloads (stats w0) + (pa + count_events is_success events)) /\
    Errors (stats w') =
      Int64.wrap (Errors (stats w0) + (er + count_events is_failure events)) /\
    Retries (stats w') =
      Int64.wrap (Retries (stats w0) + (re + count_events is_retry events)) /\
    Traces (stats w') = Traces (stats w) /\
    Spans (stats w') = Spans (stats w) /\
    Bytes (stats w') = Bytes (stats w) /\
    traces w' = traces w /\ spansInBuffer w' = spansInBuffer w.
Proof.
  induction events as [|e events IH]; intros w0 w o pa er re Hp He Hr.
  { simpl. unfold count_events, len. simpl. rewrite !Z.add_0_r. done. }
  unfold monitor in *. cbn [fold_left].
  rewrite !count_events_cons.
  destruct e as [[sendTime payload|sendTime payload error
                 |retryNum retryDelay error|typeName]|];
    cbn [handleEvent is_success is_failure is_retry];
    rewrite ?Z.add_0_l;
    match goal with
    | |- context [fold_left handleEvent events (?w1, ?o1)] =>
        first
          [ replace (pa + (1 + count_events is_success events))
              with ((pa + 1) + count_events is_success events) by lia;
            apply (IH w0 w1 o1 (pa + 1) er re)
          | replace (er + (1 + count_events is_failure events))
              with ((er + 1) + count_events is_failure events) by lia;
            apply (IH w0 w1 o1 pa (er + 1) re)
          | replace (re + (1 + count_events is_retry events))
              with ((re + 1) + count_events is_retry events) by lia;
            apply (IH w0 w1 o1 pa er (re + 1))
          | apply (IH w0 w1 o1 pa er re) ]
    end;
    simpl; rewrite ?Hp, ?He, ?Hr, ?wrap_add_1; done.
Qed.


(** C5 (sender events). After the monitor has consumed a finite sequence of
    events, [Payloads] has grown by the number of Success events, [Errors]
    by the number of Failure events and [Retries] by the number of Retry
    events, in 64-bit arithmetic, and exactly so as long as the counter
    does not pass the largest [int64]; the other counters and the buffer
    are unchanged, so an event of an unknown type or a nil event changes no
    counter. One Success, two Retry and one Failure event on a new writer
    give [Payloads = 1], [Retries = 2], [Errors = 1]. *)
Theorem monitor_counts (events : list (option SenderEvent))
    (w : TraceWriter) (o : World) :
  Int64.in_range (Payloads (stats w)) ->
  Int64.in_range (Errors (stats w)) ->
  Int64.in_range (Retries (stats w)) ->
  let w' := fst (monitor events (w, o)) in
  let successes := count_events is_success events in
  let failures := count_events is_failure events in
  let retries := count_events is_retry events in
  (Payloads (stats w') = Int64.wrap (Payloads (stats w) + successes) /\
   Errors (stats w') = Int64.wrap (Errors (stats w) + failures) /\
   Retries (stats w') = Int64.wrap (Retries (stats w) + retries)) /\
  (Payloads (stats w) + successes <= Int64.max_int ->
   Payloads (stats w') = Payloads (stats w) + successes) /\
  (Errors (stats w) + failures <= Int64.max_int ->
   Errors (stats w') = Errors (stats w) + failures) /\
  (Retries (stats w) + retries <= Int64.max_int ->
   Retries (stats w') = Retries (stats w) + retries) /\
  (Traces (stats w') = Traces (stats w) /\
   Spans (stats w') = Spans (stats w) /\
   Bytes (stats w') = Bytes (stats w)) /\
  (forall typeName : string,
     stats (fst (handleEvent (w, o) (Some (OtherEvent typeName)))) = stats w) /\
  stats (fst (handleEvent (w, o) None)) = stats w /\
  (let s6 := fst (monitor
       [Some (SenderSuccessEvent 1 Examples.payload);
        Some (SenderRetryEvent 1 1 "timeout");
        Some (SenderRetryEvent 2 2 "timeout");
        Some (SenderFailureEvent 1 Examples.payload "timeout")]
       (NewTraceWriter "host" "none", o)) in
   Payloads (stats s6) = 1 /\ Retries (stats s6) = 2 /\ Errors (stats s6) = 1).
Proof.
  intros Hp He Hr w' successes failures retries.
  destruct (monitor_counts_from events w w o 0 0 0)
    as (H1 & H2 & H3 & H4 & H5 & H6 & _);
    try (rewrite Z.add_0_r; symmetry; by apply wrap_in_range).
  rewrite !Z.add_0_l in *. fold w' successes failures retries in H1, H2, H3, H4, H5, H6.
  assert (Hs : 0 <= successes) by apply len_nonneg.
  assert (Hf : 0 <= failures) by apply len_nonneg.
  assert (Hrt : 0 <= retries) by apply len_nonneg.
  unfold Int64.in_range in *.
  split; [done|].
  split; [intros; rewrite H1; apply wrap_in_range; unfold Int64.in_range; lia|].
  split; [intros; rewrite H2; apply wrap_in_range; unfold Int64.in_range; lia|].
  split; [intros; rewrite H3; apply wrap_in_range; unfold Int64.in_range; lia|].
  split; [done|]. split; [done|]. split; [done|].
  by vm_compute.
Qed.

(** C6 (telemetry). [updateInfo], run without interleaving, leaves every
    counter at zero and publishes the values the counters had before: as
    the six named counts of the stats client, in the order payloads,
    traces, spans, bytes, retries, errors, and as the value of the info
    registry. It touches neither the buffer nor the sender nor the log. *)
Theorem updateInfo_swaps_and_publishes (w : TraceWriter) (o : World) :
  let s' := updateInfo (w, o) in
  stats (fst s') = zero_info /\
  statsd (snd s') = statsd o ++
    [Count "datadog.trace_agent.trace_writer.payloads" (Payloads (stats w));
     Count "datadog.trace_agent.trace_writer.traces" (Traces (stats w));
     Count "datadog.trace_agent.trace_writer.spans" (Spans (stats w));
     Count "datadog.trace_agent.trace_writer.bytes" (Bytes (stats w));
     Count "datadog.trace_agent.trace_writer.retries" (Retries (stats w));
     Count "datadog.trace_agent.trace_writer.errors" (Errors (stats w))] /\
  info_registry (snd s') = stats w /\
  traces (fst s') = traces w /\
  spansInBuffer (fst s') = spansInBuffer w /\
  conf (fst s') = conf w /\
  sent (snd s') = sent o /\
  logged (snd s') = logged o.
Proof.
  destruct w as [h e c [pa tr sp by_ re er] ts n]. simpl.
  repeat split. by rewrite <- !app_assoc.
Qed.

End MonitorProofs.

(** ** The writer on sample inputs *)

Section WriterExamples.
Import Model Writer Examples.

Lemma marshal_ok_total : Marshal_total marshal_ok.
Proof. intros p. eexists. reflexivity. Defined.

(** Scenario S1: three traces of 10 spans under a cap of 100, then a flush
    tick: one payload of 30 spans, three traces and 30 spans counted. *)
Example scenario_small_batch :
  let s := Run marshal_ok [] 12
             [InTrace (Some (spans 10)); InTrace (Some (spans 10));
              InTrace (Some (spans 10)); FlushTick]
             (writer 100, empty_world) in
  sent_sizes s = [30%nat] /\ buffered s = 0 /\
  match s with
  | Done (w, _) => Traces (stats w) = 3 /\ Spans (stats w) = 30
  | _ => False
  end.
Proof. by vm_compute. Qed.

(** Scenario S2: five traces of 10 spans under a cap of 50: one payload of
    50 spans without any tick, and an empty buffer. *)
Example scenario_cap_flush :
  let s := Run marshal_ok [] 12
             [InTrace (Some (spans 10)); InTrace (Some (spans 10));
              InTrace (Some (spans 10)); InTrace (Some (spans 10));
              InTrace (Some (spans 10))]
             (writer 50, empty_world) in
  sent_sizes s = [50%nat] /\ buffered s = 0.
Proof. by vm_compute. Qed.

(** Scenario S3: one trace of 25 spans under a cap of 10: payloads of 10,
    10 and, once the rest is flushed, 5 spans, whose concatenation is the
    trace. *)
Example scenario_oversized :
  let s := Run marshal_ok [] 27 [InTrace (Some (spans 25)); FlushTick]
             (writer 10, empty_world) in
  sent_sizes s = [10%nat; 10%nat; 5%nat] /\ buffered s = 0 /\
  match s with
  | Done (_, o) => concat (map payload_spans (sent o)) = spans 25
  | _ => False
  end.
Proof. by vm_compute. Qed.

(** A failed flush at the cap: the buffer stays full and nothing is sent;
    the next trace is still being handled after a hundred levels of
    recursion. *)
Example scenario_failed_flush :
  match handleTrace marshal_fail [] 5 (writer 2, empty_world) (spans 2) with
  | Done (w, o) =>
      spansInBuffer w = 2 /\ sent o = [] /\
      handleTrace marshal_fail [] 100 (w, o) (spans 1) = OutOfFuel
  | _ => False
  end.
Proof. by vm_compute. Qed.


(** The cap invariant on a trace of three spans under a cap of two. *)
Lemma handleTrace_cap_invariant_witness :
  0 <= spansInBuffer (writer 2) /\
  spansInBuffer (writer 2) <= MaxSpansPerPayload (conf (writer 2)) /\
  MaxSpansPerPayload (conf (writer 2)) <= Int64.max_int /\
  len (spans 3) <= Int64.max_int /\
  exists w' o',
    handleTrace marshal_ok [] 5 (writer 2, empty_world) (spans 3) = Done (w', o') /\
    spansInBuffer w' <= MaxSpansPerPayload (conf w').
Proof.
  assert (H1 : 0 <= spansInBuffer (writer 2)) by (vm_compute; discriminate).
  assert (H2 : spansInBuffer (writer 2) <= MaxSpansPerPayload (conf (writer 2)))
    by (vm_compute; discriminate).
  assert (H3 : MaxSpansPerPayload (conf (writer 2)) <= Int64.max_int)
    by (vm_compute; discriminate).
  assert (H4 : len (spans 3) <= Int64.max_int) by (vm_compute; discriminate).
  assert (H5 : 0 < MaxSpansPerPayload (conf (writer 2))) by reflexivity.
  split; [exact H1|]. split; [exact H2|]. split; [exact H3|]. split; [exact H4|].
  exact (proj2 (handleTrace_cap_invariant marshal_ok [] (writer 2) empty_world
                  (spans 3) H1 H2 H3 H4) marshal_ok_total H5).
Defined.

(** The splitting rule on a trace of 25 spans under a cap of 10. *)
Lemma handleTrace_splits_oversized_witness :
  (0 <= spansInBuffer (writer 10) <= MaxSpansPerPayload (conf (writer 10))) /\
  MaxSpansPerPayload (conf (writer 10)) <= Int64.max_int /\
  len (spans 25) <= Int64.max_int /\
  0 < spansInBuffer (writer 10) + len (spans 25)
        - MaxSpansPerPayload (conf (writer 10)) /\
  exists w1 o1 w2 o2 ps,
    handleTrace marshal_ok [] 26 (writer 10, empty_world) (spans 25)
      = Done (w1, o1) /\
    flush marshal_ok [] (w1, o1) = (w2, o2) /\
    traces w2 = [] /\
    sent o2 = ps /\
    concat (map payload_spans ps) = spans 25 /\
    forall (i : nat) (c : list Span),
      map payload_spans ps !! i = Some c ->
      (0 < len c <= 10) /\ ((S i < length ps)%nat -> len c = 10).
Proof.
  assert (H1 : 0 <= spansInBuffer (writer 10)
               <= MaxSpansPerPayload (conf (writer 10)))
    by (split; vm_compute; discriminate).
  assert (H2 : MaxSpansPerPayload (conf (writer 10)) <= Int64.max_int)
    by (vm_compute; discriminate).
  assert (H3 : len (spans 25) <= Int64.max_int) by (vm_compute; discriminate).
  assert (H4 : 0 < spansInBuffer (writer 10) + len (spans 25)
                     - MaxSpansPerPayload (conf (writer 10))) by reflexivity.
  assert (H5 : 0 < MaxSpansPerPayload (conf (writer 10))) by reflexivity.
  split; [exact H1|]. split; [exact H2|]. split; [exact H3|]. split; [exact H4|].
  exact (proj2 (handleTrace_splits_oversized marshal_ok [] (writer 10) empty_world
                  (spans 25) H1 H2 H3 H4) marshal_ok_total eq_refl eq_refl H5).
Defined.

(** Conservation over a run with two traces, a flush tick, a nil trace, a
    telemetry tick and the exit, under a cap of two. *)
Lemma spans_conserved_witness :
  let events := [InTrace (Some (spans 3)); FlushTick; InTrace None;
                 UpdateInfoTick; InTrace (Some (spans 4)); Exit] in
  (0 <= spansInBuffer (writer 2) <= MaxSpansPerPayload (conf (writer 2))) /\
  MaxSpansPerPayload (conf (writer 2)) <= Int64.max_int /\
  Forall (fun t : Trace => len t <= Int64.max_int) (ingested events) /\
  exists w' o',
    Run marshal_ok [] 10 events (writer 2, empty_world) = Done (w', o') /\
    concat (map payload_spans (sent o')) ++ spans_of (traces w')
      ≡ₚ spans 3 ++ spans 4.
Proof.
  intros events.
  assert (H1 : 0 <= spansInBuffer (writer 2)
               <= MaxSpansPerPayload (conf (writer 2)))
    by (split; vm_compute; discriminate).
  assert (H2 : MaxSpansPerPayload (conf (writer 2)) <= Int64.max_int)
    by (vm_compute; discriminate).
  assert (H3 : Forall (fun t : Trace => len t <= Int64.max_int) (ingested events))
    by (repeat constructor; vm_compute; discriminate).
  assert (H4 : 0 < MaxSpansPerPayload (conf (writer 2))) by reflexivity.
  assert (H5 : Forall (fun t : Trace => (S (length t) < 10)%nat) (ingested events))
    by (repeat constructor; simpl; lia).
  split; [exact H1|]. split; [exact H2|]. split; [exact H3|].
  destruct (spans_conserved marshal_ok [] 10 events (writer 2) empty_world H1 H2 H3)
    as [Hs Hr].
  destruct (Hr marshal_ok_total H4 H5) as [[w' o'] Hrun].
  rewrite Hrun in Hs. destruct Hs as [Hp _].
  exists w', o'. split; [exact Hrun|].
  rewrite Hp. reflexivity.
Defined.

(** The counters after one Success, two Retry and one Failure event. *)
Lemma monitor_counts_witness :
  let events := [Some (SenderSuccessEvent 1 payload);
                 Some (SenderRetryEvent 1 1 "timeout");
                 Some (SenderRetryEvent 2 2 "timeout");
                 Some (SenderFailureEvent 1 payload "timeout")] in
  let w := NewTraceWriter "host" "none" in
  Int64.in_range (Payloads (stats w)) /\
  Int64.in_range (Errors (stats w)) /\
  Int64.in_range (Retries (stats w)) /\
  Payloads (stats (fst (monitor events (w, empty_world)))) = 1 /\
  Errors (stats (fst (monitor events (w, empty_world)))) = 1 /\
  Retries (stats (fst (monitor events (w, empty_world)))) = 2.
Proof.
  intros events w.
  assert (H : Int64.in_range 0) by (split; vm_compute; discriminate).
  split; [exact H|]. split; [exact H|]. split; [exact H|].
  exact (proj1 (monitor_counts events w empty_world H H H)).
Defined.

End WriterExamples.

(** ** The span normalizer *)

Section NormalizerProofs.
Import Model.

Variable NormalizeTag : string -> string.
Variable now : Z.

Notation "'Normalize'" := (Model.Normalize NormalizeTag now).
Notation "'NormalizeTrace'" := (Model.NormalizeTrace NormalizeTag now).
Notation "'normalize_spans'" := (Model.normalize_spans NormalizeTag now).

Lemma Meta_set_Meta (m : gmap string string) (s : Span) :
  Meta (set_Meta m s) = m.
Proof. reflexivity. Qed.

Lemma Meta_set_ParentID (v : Z) (s : Span) : Meta (set_ParentID v s) = Meta s.
Proof. reflexivity. Qed.

Lemma Meta_set_Name (v : string) (s : Span) : Meta (set_Name v s) = Meta s.
Proof. reflexivity. Qed.

Lemma Meta_set_Service (v : string) (s : Span) : Meta (set_Service v s) = Meta s.
Proof. reflexivity. Qed.

(** Reduction of the field accesses and assignments of a span. *)
Ltac span_simpl :=
  cbn [Service Name Resource TraceID SpanID ParentID Start Duration Type_ Meta
       set_Service set_Name set_ParentID set_Meta fst snd negb].

(** Case analysis along the checks of [Normalize]. *)
Ltac normalize_cases :=
  repeat match goal with
         | |- context [(ParentID ?a =? TraceID ?a) && (ParentID ?a =? SpanID ?a)] =>
             destruct ((ParentID a =? TraceID a) && (ParentID a =? SpanID a)) eqn:?;
             simpl in *; try done
         | |- context [decide ?P] => destruct (decide P); simpl in *; try done
         | |- context [normMetricNameParse ?n] =>
             destruct (normMetricNameParse n) as [? []]; simpl in *; try done
         | |- context [if ?c then _ else _] =>
             destruct c eqn:?; simpl in *; try done
         | |- context [match ?m !! ?k with _ => _ end] =>
             destruct (m !! k) eqn:?; simpl in *; try done
         end.

(** A span with one of the defects of [malformed] is rejected. *)
Lemma Normalize_rejects_malformed (s : Span) :
  malformed s -> snd (Normalize s) <> None.
Proof.
  unfold malformed, MaxServiceLen, MaxNameLen, MaxTypeLen.
  intros [H|[H|[H|[H|[H|[H|[H|H]]]]]]];
    unfold Model.Normalize, MaxServiceLen, MaxNameLen, MaxTypeLen;
    normalize_cases; try lia; congruence.
Qed.


(** A span that ends more than ten minutes after [now] is rejected,
    provided its end date fits 64 bits. *)
Lemma Normalize_rejects_future (s : Span) :
  Int64.in_range (now + MaxEndDateOffset) ->
  Start s + Duration s <= Int64.max_int ->
  ends_in_future now s ->
  snd (Normalize s) <> None.
Proof.
  unfold ends_in_future. intros Hnow Hfit Hfut.
  assert (Hsum : Int64.in_range (Start s + Duration s)).
  { unfold Int64.in_range in *. lia. }
  unfold Model.Normalize, end_date_limit.
  rewrite (wrap_in_range _ Hnow).
  normalize_cases; rewrite add_exact in * by done; lia.
Qed.

(** What an accepted trace looks like: its span ids are pairwise distinct
    and new, every span has the expected trace id and passes
    [Normalize]. *)
Lemma normalize_spans_accepted (traceID : Z) (todo : Trace) :
  forall (spanIDs : gset Z) (done r : Trace),
    normalize_spans traceID spanIDs done todo = (r, None) ->
    NoDup (map SpanID todo) /\
    Forall (fun span => (SpanID span ∉ spanIDs) /\ TraceID span = traceID /\
                        snd (Normalize span) = None) todo.
Proof.
  induction todo as [|span rest IH]; intros spanIDs done r Hrun.
  { split; constructor. }
  cbn [Model.normalize_spans] in Hrun.
  destruct (decide (SpanID span ∈ spanIDs)) as [|Hnew]; [done|].
  destruct (TraceID span =? traceID) eqn:Htid; [|done]. cbn [negb] in Hrun.
  destruct (Normalize span) as [span' [err|]] eqn:Hnorm; [done|].
  apply IH in Hrun as [Hnd Hall]. apply Z.eqb_eq in Htid. split.
  - cbn [map]. constructor; [|done].
    intros Hin. apply list_elem_of_fmap in Hin as (other & Heq & Hin).
    rewrite Forall_forall in Hall. apply Hall in Hin as (Hnot & _).
    apply Hnot. rewrite <- Heq. apply elem_of_union. left.
    by apply elem_of_singleton.
  - constructor.
    + by rewrite Hnorm.
    + eapply Forall_impl; [exact Hall|]. intros other (Hnot & ? & ?).
      split; [|done]. intros Hin. apply Hnot, elem_of_union. by right.
Qed.

Lemma NormalizeTrace_accepted (t r : Trace) :
  NormalizeTrace t = (r, None) ->
  t <> [] /\
  NoDup (map SpanID t) /\
  Forall (fun span => Some (TraceID span) = TraceID <$> head t /\
                      snd (Normalize span) = None) t.
Proof.
  destruct t as [|first rest]; [done|]. unfold Model.NormalizeTrace.
  intros Hrun. apply normalize_spans_accepted in Hrun as [Hnd Hall].
  split; [done|]. split; [done|].
  eapply Forall_impl; [exact Hall|]. simpl. intros span (_ & -> & ?). done.
Qed.

(** The rejections of [NormalizeTrace]: an empty trace, two spans with the
    same span id, a span whose trace id is not that of the first span, a
    span that [Normalize] rejects. *)
Lemma NormalizeTrace_rejects (t : Trace) :
  t = [] \/
  ~ NoDup (map SpanID t) \/
  (exists span first, span ∈ t /\ head t = Some first /\
                      TraceID span <> TraceID first) \/
  (exists span, span ∈ t /\ snd (Normalize span) <> None) ->
  snd (NormalizeTrace t) <> None.
Proof.
  intros Hbad Hok.
  destruct (NormalizeTrace t) as [r e] eqn:Hrun. simpl in Hok. subst e.
  apply NormalizeTrace_accepted in Hrun as (Hne & Hnd & Hall).
  rewrite Forall_forall in Hall.
  destruct Hbad as [?|[?|[(span & first & Hin & Hhd & Hdiff)|(span & Hin & Hrej)]]];
    try done.
  - apply Hall in Hin as (Htid & _). rewrite Hhd in Htid. simpl in Htid.
    congruence.
  - apply Hall in Hin as (_ & ?). done.
Qed.

(** The grounds of rejection the specification lists, with the end date
    required to fit 64 bits. *)
Lemma NormalizeTrace_rejects_listed (t : Trace) :
  Int64.in_range (now + MaxEndDateOffset) ->
  t = [] \/
  ~ NoDup (map SpanID t) \/
  (exists span first, span ∈ t /\ head t = Some first /\
                      TraceID span <> TraceID first) \/
  (exists span, span ∈ t /\
     (malformed span \/
      (ends_in_future now span /\ Start span + Duration span <= Int64.max_int))) ->
  snd (NormalizeTrace t) <> None.
Proof.
  intros Hnow Hbad. apply NormalizeTrace_rejects.
  destruct Hbad as [?|[?|[?|(span & Hin & Hrej)]]]; [by left|by right; left|by right; right; left|].
  right; right; right. exists span. split; [done|].
  destruct Hrej as [Hm|[Hf Hfit]].
  - by apply Normalize_rejects_malformed.
  - by apply Normalize_rejects_future.
Qed.

(** C8 (a span that is its own parent). For a span whose [ParentID],
    [TraceID] and [SpanID] are the same non-zero id, [Normalize] gives the
    verdict it gives for the same span with [ParentID] zero, so the three
    ids being equal is no ground for rejection; when the span is accepted
    the normalized span is that of the root span, with [ParentID] zero; and
    in every case [ParentID] has been zeroed unless one of the checks that
    come before (on [Service], [Name] and [Resource]) has rejected the
    span. It is the span given that becomes the root: [TraceID] and
    [SpanID] are the ids it had, nothing changes but what [Normalize]
    assigns ([Service], [Name], [ParentID] and the keys [env] and
    [http.status_code] of [Meta]), and the span after the call is the one
    the call leaves of the root span, or that one with the [ParentID] the
    span had when an early check has rejected it. *)
Theorem Normalize_self_parent_is_root (s : Span) :
  ParentID s = TraceID s ->
  ParentID s = SpanID s ->
  TraceID s <> 0 ->
  let r := Normalize s in
  let root := Normalize (set_ParentID 0 s) in
  snd r = snd root /\
  (snd r = None -> ParentID (fst r) = 0 /\ fst r = fst root) /\
  (ParentID (fst r) = 0 \/
   exists e, snd r = Some e /\ early_error e = true) /\
  TraceID (fst r) = TraceID s /\ SpanID (fst r) = SpanID s /\
  Normalized.same_but_normalized s (fst r) /\
  (fst r = fst root \/
   (fst r = set_ParentID (ParentID s) (fst root) /\
    exists e, snd r = Some e /\ early_error e = true)).
Proof.
  intros Hpt Hps Hnz r root. subst r root.
  assert (Hs : SpanID s <> 0) by congruence.
  assert (Hself : (ParentID s =? TraceID s) && (ParentID s =? SpanID s) = true).
  { rewrite <- Hpt, <- Hps, Z.eqb_refl. done. }
  assert (Hroot : (0 =? TraceID s) && (0 =? SpanID s) = false).
  { destruct (0 =? TraceID s) eqn:E; [apply Z.eqb_eq in E; congruence|done]. }
  destruct s as [svc name res tid sid pid start dur ty meta].
  unfold Normalized.same_but_normalized, Model.Normalize. span_simpl.
  cbn [Service Name Resource TraceID SpanID ParentID Start Duration Type_ Meta]
    in Hself, Hroot.
  rewrite Hself, Hroot.
  repeat (match goal with
          | |- context [decide ?P] => destruct (decide P)
          | |- context [normMetricNameParse ?n] =>
              destruct (normMetricNameParse n) as [? []]
          | |- context [if ?c then _ else _] => destruct c eqn:?
          | |- context [meta !! "env"%string] =>
              destruct (meta !! "env"%string) eqn:?
          | |- context [match ?m !! ?k with _ => _ end] =>
              destruct (m !! k) eqn:?
          end;
          simpl;
          rewrite ?Meta_set_Meta, ?Meta_set_ParentID, ?Meta_set_Name,
                  ?Meta_set_Service;
          try (split; [reflexivity|];
               split; [first [discriminate | intros _; split; reflexivity]|];
               split; [first [left; reflexivity
                             |right; eexists; split; reflexivity]|];
               split; [reflexivity|]; split; [reflexivity|];
               split; [repeat split; try reflexivity; intros k Hk1 Hk2;
                       rewrite ?lookup_delete_ne, ?lookup_insert_ne by done;
                       reflexivity|];
               first [left; reflexivity
                     |right; split; [reflexivity|eexists; split; reflexivity]])).
Qed.

End NormalizerProofs.

(** ** The normalizer on sample inputs *)

Section NormalizerExamples.
Import Model Examples.

Example normMetricNameParse_samples :
  normMetricNameParse "http.request" = ("http.request"%string, true) /\
  normMetricNameParse "_foo" = ("foo"%string, true) /\
  normMetricNameParse "a b" = ("a_b"%string, true) /\
  normMetricNameParse "a__b" = ("a_b"%string, true) /\
  normMetricNameParse "a._b" = ("a.b"%string, true) /\
  normMetricNameParse "a_.b" = ("a.b"%string, true) /\
  normMetricNameParse "abc_" = ("abc"%string, true) /\
  normMetricNameParse "123" = (EmptyString, false).
Proof. by vm_compute. Qed.

Example isValidStatusCode_samples :
  isValidStatusCode "200" = true /\ isValidStatusCode "0404" = true /\
  isValidStatusCode "99" = false /\ isValidStatusCode "600" = false /\
  isValidStatusCode "2e2" = false /\ isValidStatusCode "" = false /\
  isValidStatusCode "99999999999999999999999" = false.
Proof. by vm_compute. Qed.

(** C7 (rejections of the normalizer), where the code departs from it: a
    trace of one span that starts at the clock reading and lasts
    [2^63 - 1] nanoseconds ends far more than ten minutes in the future,
    yet [NormalizeTrace] accepts it. [Start + Duration] wraps around to a
    negative number, which is not above the limit. *)
Theorem NormalizeTrace_accepts_endless_span :
  Int64.in_range (Start endless_span) /\
  Int64.in_range (Duration endless_span) /\
  ends_in_future clock endless_span /\
  Int64.add (Start endless_span) (Duration endless_span) < 0 /\
  snd (NormalizeTrace tag_id clock [endless_span]) = None.
Proof. by vm_compute. Qed.

(** A span whose three ids are 7 is accepted as the root span of trace 7,
    with [ParentID] zeroed and its ids kept. *)
Lemma Normalize_self_parent_is_root_witness :
  ParentID self_parent_span = TraceID self_parent_span /\
  ParentID self_parent_span = SpanID self_parent_span /\
  TraceID self_parent_span <> 0 /\
  snd (Normalize tag_id clock self_parent_span) = None /\
  ParentID (fst (Normalize tag_id clock self_parent_span)) = 0 /\
  TraceID (fst (Normalize tag_id clock self_parent_span)) = 7 /\
  SpanID (fst (Normalize tag_id clock self_parent_span)) = 7.
Proof.
  assert (H1 : ParentID self_parent_span = TraceID self_parent_span)
    by reflexivity.
  assert (H2 : ParentID self_parent_span = SpanID self_parent_span)
    by reflexivity.
  assert (H3 : TraceID self_parent_span <> 0) by discriminate.
  assert (H4 : snd (Normalize tag_id clock self_parent_span) = None)
    by (vm_compute; reflexivity).
  pose proof (Normalize_self_parent_is_root tag_id clock self_parent_span H1 H2 H3)
    as (_ & Hacc & _ & Htid & Hsid & _).
  split; [exact H1|]. split; [exact H2|]. split; [exact H3|]. split; [exact H4|].
  split; [exact (proj1 (Hacc H4))|]. split; [exact Htid|exact Hsid].
Defined.

End NormalizerExamples.

(** ** The resource filter *)

Section FilterProofs.
Import Model Filters.
Import Writer (Outcome, Done, Panic, OutOfFuel, bind).

Variable Regexp : Type.
Variable Compile : string -> option Regexp.
Variable MatchString : Regexp -> string -> bool.
Variable ReplaceAllString : Regexp -> string -> string -> string.

Notation "'Keep'" := (Filters.Keep Regexp MatchString ReplaceAllString).
Notation "'apply_rule'" := (Filters.apply_rule Regexp MatchString ReplaceAllString).
Notation "'apply_entry'" := (Filters.apply_entry Regexp MatchString ReplaceAllString).
Notation "'apply_entries'" := (Filters.apply_entries Regexp MatchString ReplaceAllString).
Notation "'apply_searchReplace'" :=
  (Filters.apply_searchReplace Regexp MatchString ReplaceAllString).
Notation "'rewrite_step'" := (Filters.rewrite_step Regexp MatchString ReplaceAllString).
Notation "'rewrite_url'" := (Filters.rewrite_url Regexp MatchString ReplaceAllString).
Notation "'some_rule_fires'" := (Filters.some_rule_fires Regexp MatchString ReplaceAllString).
Notation "'matches_blacklist'" := (Filters.matches_blacklist Regexp MatchString).
Notation "'rewritten'" := (Filters.rewritten MatchString ReplaceAllString).
Notation "'nil_map_panic'" := ("assignment to entry in nil map"%string).

Lemma same_but_url_refl (t : Span) : same_but_url t t.
Proof. by repeat split. Qed.

Lemma same_but_url_trans (t1 t2 t3 : Span) :
  same_but_url t1 t2 -> same_but_url t2 t3 -> same_but_url t1 t3.
Proof.
  unfold same_but_url. intros H1 H2.
  destruct H1 as (?&?&?&?&?&?&?&?&?&Hm1).
  destruct H2 as (?&?&?&?&?&?&?&?&?&Hm2).
  repeat split; try congruence.
  intros k Hk. rewrite Hm2, Hm1; done.
Qed.

Lemma http_url_with_http_url (v : string) (t : SpanPtr) :
  http_url (with_http_url v t) = v.
Proof. unfold http_url, with_http_url. simpl. by rewrite lookup_insert_eq. Qed.

Lemma with_http_url_twice (v1 v2 : string) (t : SpanPtr) :
  with_http_url v2 (with_http_url v1 t) = with_http_url v2 t.
Proof.
  unfold with_http_url. simpl. f_equal. unfold set_Meta. simpl.
  by rewrite insert_insert_eq.
Qed.

Lemma with_http_url_same_but (v : string) (t : SpanPtr) :
  same_but_url (fields t) (fields (with_http_url v t)) /\
  Meta (fields (with_http_url v t)) !! "http.url"%string = Some v.
Proof.
  unfold with_http_url. simpl. split.
  - repeat split. simpl. intros k Hk. by rewrite lookup_insert_ne.
  - by rewrite lookup_insert_eq.
Qed.

(** No rule fires: the url is left as it is. *)
Lemma rewrite_url_no_fire (rules : list (Regexp * string)) :
  forall u : string, some_rule_fires rules u = false -> rewrite_url rules u = u.
Proof.
  induction rules as [|r rs IHr]; intros u Hf; [done|].
  cbn [Filters.some_rule_fires] in Hf. apply orb_false_iff in Hf as [H1 H2].
  unfold Filters.rewrite_url. cbn [fold_left].
  unfold Filters.rewrite_step at 2. rewrite H1.
  apply IHr. unfold Filters.rewrite_step in H2. by rewrite H1 in H2.
Qed.

(** The rules on a span whose map is nil: the url reads empty until the
    first rule that matches it, whose assignment panics. *)
Lemma apply_entry_nil (rules : list (Regexp * string)) (t : SpanPtr) :
  Meta_is_nil t = true ->
  apply_entry t rules =
    if some_rule_fires rules EmptyString then Panic nil_map_panic else Done t.
Proof.
  intros Hnil. assert (Hurl : http_url t = EmptyString).
  { unfold http_url. by rewrite Hnil. }
  induction rules as [|[key value] rules IH]; [done|].
  cbn [Filters.apply_entry Filters.some_rule_fires]. unfold Filters.apply_rule.
  unfold Filters.rewrite_step. cbn [fst snd]. rewrite Hurl.
  destruct (MatchString key EmptyString) eqn:Hm.
  - unfold assign_http_url. by rewrite Hnil.
  - cbn [bind orb]. exact IH.
Qed.

(** The rules on a span whose map is allocated: no panic, and the url is
    the one every matching rule has rewritten in turn. *)
Lemma apply_entry_allocated (rules : list (Regexp * string)) :
  forall t : SpanPtr,
    Meta_is_nil t = false ->
    apply_entry t rules = Done (rewritten rules t).
Proof.
  unfold Filters.rewritten.
  induction rules as [|[key value] rules IH]; intros t Halloc; [done|].
  cbn [Filters.apply_entry Filters.some_rule_fires]. unfold Filters.apply_rule.
  unfold Filters.rewrite_url. cbn [fold_left].
  fold (rewrite_url rules (rewrite_step (http_url t) (key, value))).
  unfold Filters.rewrite_step. cbn [fst snd].
  destruct (MatchString key (http_url t)) eqn:Hm.
  - unfold assign_http_url. rewrite Halloc. cbn [bind orb].
    rewrite IH by done. rewrite http_url_with_http_url. f_equal.
    destruct (some_rule_fires rules _) eqn:Hrest.
    + by rewrite with_http_url_twice.
    + by rewrite rewrite_url_no_fire.
  - cbn [bind orb]. by apply IH.
Qed.

Lemma apply_entry_app (l1 l2 : list (Regexp * string)) :
  forall t : SpanPtr,
    apply_entry t (l1 ++ l2) = bind (apply_entry t l1) (fun t' => apply_entry t' l2).
Proof.
  induction l1 as [|rule l1 IH]; intros t; [done|].
  cbn [app Filters.apply_entry].
  destruct (apply_rule t rule) as [t'| |]; cbn [bind]; [apply IH|done..].
Qed.

(** The nested loops of [Keep] visit the rules of all the maps in order. *)
Lemma apply_searchReplace_concat (f : resourceFilter Regexp) (t : SpanPtr) :
  apply_searchReplace f t = apply_entry t (concat (searchReplace _ f)).
Proof.
  unfold Filters.apply_searchReplace. revert t.
  induction (searchReplace _ f) as [|entry rest IH]; intros t; [done|].
  cbn [Filters.apply_entries concat]. rewrite apply_entry_app.
  destruct (apply_entry t entry) as [t'| |]; cbn [bind]; [apply IH|done..].
Qed.

(** What the two loops do to a span, in one expression. *)
Lemma apply_searchReplace_cases (f : resourceFilter Regexp) (t : SpanPtr) :
  apply_searchReplace f t =
    if Meta_is_nil t && some_rule_fires (concat (searchReplace _ f)) EmptyString
    then Panic nil_map_panic
    else Done (rewritten (concat (searchReplace _ f)) t).
Proof.
  rewrite apply_searchReplace_concat.
  destruct (Meta_is_nil t) eqn:Hnil; cbn [andb].
  - rewrite apply_entry_nil by done.
    destruct (some_rule_fires _ EmptyString) eqn:Hf; [done|].
    unfold Filters.rewritten, http_url. by rewrite Hnil, Hf.
  - by apply apply_entry_allocated.
Qed.

(** The span after the rewriting: its url, and what it keeps. *)
Lemma rewritten_spec (rules : list (Regexp * string)) (t : SpanPtr) :
  Meta_is_nil t = false \/ some_rule_fires rules EmptyString = false ->
  http_url (rewritten rules t) = rewrite_url rules (http_url t) /\
  same_but_url_ptr t (rewritten rules t) /\
  (some_rule_fires rules (http_url t) = true ->
   Meta (fields (rewritten rules t)) !! "http.url"%string
     = Some (rewrite_url rules (http_url t))) /\
  (some_rule_fires rules (http_url t) = false -> rewritten rules t = t).
Proof.
  intros Hok. unfold Filters.rewritten.
  destruct (some_rule_fires rules (http_url t)) eqn:Hf.
  - assert (Halloc : Meta_is_nil t = false).
    { destruct Hok as [?|Hno]; [done|]. destruct (Meta_is_nil t) eqn:Hnil; [|done].
      unfold http_url in Hf. rewrite Hnil in Hf. congruence. }
    rewrite http_url_with_http_url.
    destruct (with_http_url_same_but (rewrite_url rules (http_url t)) t) as [Hs Hk].
    split; [done|]. split; [split; [by rewrite Halloc|done]|]. split; done.
  - split.
    + by rewrite rewrite_url_no_fire.
    + split; [split; [done|apply same_but_url_refl]|]. split; done.
Qed.

(** Every map [compileSearchReplace] builds holds one rule. *)
Lemma compileSearchReplace_singletons (entries : list (list string)) :
  Forall (fun entry => length entry = 1%nat)
         (compileSearchReplace Regexp Compile entries).
Proof.
  induction entries as [|entry rest IH]; [constructor|].
  cbn [compileSearchReplace].
  destruct entry as [|search [|replace [|? ?]]]; try done.
  destruct (Compile search); [constructor|]; done.
Qed.

(** The [Keep] of [filters/resource.go] is the read-only [Keep] of the
    other revision followed, for a span that is kept, by what [ApplyRegex]
    does to one span. *)
Lemma Keep_is_readonly_then_ApplyRegex (f : resourceFilter Regexp) (t : SpanPtr) :
  Keep f t =
    (if Keep_readonly Regexp MatchString f t
     then bind (apply_searchReplace f t) (fun t' => Done (true, t'))
     else Done (false, t)) /\
  ApplyRegex Regexp MatchString ReplaceAllString f [t]
  = bind (apply_searchReplace f t) (fun t' => Done [t']).
Proof.
  unfold Filters.Keep, Keep_readonly, Filters.ApplyRegex. cbn [Filters.apply_spans].
  split; [by destruct (matches_blacklist (blacklist _ f) (Resource (fields t)))|].
  by destruct (apply_searchReplace f t).
Qed.

(** [Keep] on a span whose [Meta] is not nil does what the sentence of the
    specification says. The verdict is decided by [Resource] and the
    blacklist alone; a span that matches a blacklist pattern is dropped
    and left as it is; a span that matches none is kept, and
    [Meta["http.url"]] becomes the url after every search-replace rule, in
    order, whose pattern matches the url it is given; the key is written
    as soon as one rule fires, and no other field or key changes. *)
Lemma Keep_rewrites_http_url (f : resourceFilter Regexp) (t : SpanPtr) :
  Meta_is_nil t = false ->
  let rules := concat (searchReplace _ f) in
  exists r : SpanPtr,
    Keep f t = Done (negb (matches_blacklist (blacklist _ f) (Resource (fields t))), r) /\
    (forall t' : SpanPtr,
       Meta_is_nil t' = false -> Resource (fields t') = Resource (fields t) ->
       exists r', Keep f t' = Done (negb (matches_blacklist (blacklist _ f)
                                            (Resource (fields t))), r')) /\
    (matches_blacklist (blacklist _ f) (Resource (fields t)) = true -> r = t) /\
    (matches_blacklist (blacklist _ f) (Resource (fields t)) = false ->
     http_url r = rewrite_url rules (http_url t) /\
     same_but_url_ptr t r /\
     (some_rule_fires rules (http_url t) = true ->
      Meta (fields r) !! "http.url"%string = Some (rewrite_url rules (http_url t))) /\
     (some_rule_fires rules (http_url t) = false -> r = t) /\
     (rewrite_url rules (http_url t) <> http_url t -> r <> t)).
Proof.
  intros Halloc rules.
  assert (Hrun : forall t' : SpanPtr, Meta_is_nil t' = false ->
            Keep f t' = if matches_blacklist (blacklist _ f) (Resource (fields t'))
                        then Done (false, t') else Done (true, rewritten rules t')).
  { intros t' Ht'. unfold Filters.Keep.
    destruct (matches_blacklist _ _); [done|].
    rewrite apply_searchReplace_cases, Ht'. done. }
  exists (if matches_blacklist (blacklist _ f) (Resource (fields t))
          then t else rewritten rules t).
  split; [rewrite (Hrun t Halloc); by destruct (matches_blacklist _ _)|].
  split.
  { intros t' Ht' Hres. rewrite (Hrun t' Ht'), Hres.
    destruct (matches_blacklist _ _); eexists; done. }
  destruct (matches_blacklist (blacklist _ f) (Resource (fields t))).
  { split; done. }
  split; [done|]. intros _.
  destruct (rewritten_spec rules t (or_introl Halloc)) as (Hu & Hs & Hfire & Hnot).
  repeat split; try done; try apply Hs.
  intros Hdiff Heq. apply Hdiff. rewrite <- Hu. by rewrite Heq.
Qed.

(** [Keep] on a span whose [Meta] is nil: the span is dropped or kept as
    it is, unless it is to be kept and some rule matches the empty url;
    the assignment then panics. *)
Lemma Keep_nil_Meta (f : resourceFilter Regexp) (t : SpanPtr) :
  Meta_is_nil t = true ->
  Keep f t =
    if matches_blacklist (blacklist _ f) (Resource (fields t)) then Done (false, t)
    else if some_rule_fires (concat (searchReplace _ f)) EmptyString
         then Panic nil_map_panic
         else Done (true, t).
Proof.
  intros Hnil. unfold Filters.Keep.
  destruct (matches_blacklist _ _); [done|].
  rewrite apply_searchReplace_cases, Hnil. cbn [andb].
  destruct (some_rule_fires _ EmptyString) eqn:Hf; [done|].
  cbn [bind]. unfold Filters.rewritten, http_url. by rewrite Hnil, Hf.
Qed.

End FilterProofs.

(** ** The filter on sample inputs *)

Section FilterExamples.
Import Model Filters Literal.
Import Writer (Outcome, Done, Panic, OutOfFuel, bind).

Example Literal_samples :
  ReplaceAllString "foo" "/foo/bar/foo" "FOO" = "/FOO/bar/FOO"%string /\
  ReplaceAllString "bar" "/foo/bar/foo/bar" "BAR" = "/foo/BAR/foo/BAR"%string /\
  ReplaceAllString "" "ab" "-" = "-a-b-"%string /\
  MatchString "FOO" "/foo/bar" = false /\
  MatchString "" "" = true /\
  Compile "[123" = None /\ Compile "" = Some EmptyString /\
  searchReplace _ filter =
    [[("match2", "replace2")]; [("match1", "replace1")]]%string.
Proof. by vm_compute. Qed.

(** A span that is kept comes back with its url rewritten by both rules;
    a blacklisted span comes back as it was. *)
Example Keep_samples :
  Keep string MatchString ReplaceAllString filter
       (url_span "GET /users" "/match1/match2/remainder")
    = Done (true, url_span "GET /users" "/replace1/replace2/remainder") /\
  Keep string MatchString ReplaceAllString filter
       (url_span "GET /healthcheck" "/match1/match2/remainder")
    = Done (false, url_span "GET /healthcheck" "/match1/match2/remainder").
Proof. by vm_compute. Qed.

(** C10 ([Keep] also writes), where the code departs from it: a span whose
    [Meta] is nil, which the blacklist does not match, under a filter
    with one search-replace rule whose pattern matches the empty url.
    [Keep] neither returns true nor writes the url: the assignment to
    [Meta["http.url"]] panics. On the same span with a map that is
    allocated and empty, [Keep] returns true and writes the url. *)
Theorem Keep_panics_on_nil_Meta :
  Meta_is_nil (bare_span "GET /users") = true /\
  matches_blacklist string MatchString (blacklist _ default_url_filter)
                    (Resource (fields (bare_span "GET /users"))) = false /\
  Keep string MatchString ReplaceAllString default_url_filter
       (bare_span "GET /users")
    = Panic "assignment to entry in nil map" /\
  Keep string MatchString ReplaceAllString default_url_filter
       (empty_meta_span "GET /users")
    = Done (true, url_span "GET /users" "none").
Proof. by vm_compute. Qed.

End FilterExamples.

(** ** The wire format of the summary *)

Section QuantileProofs.
Import Quantile.

Lemma Z_of_byte_of_Z (x : Z) : Z_of_byte (byte_of_Z x) = x mod 256.
Proof.
  unfold Z_of_byte, byte_of_Z.
  pose proof (Z.mod_pos_bound x 256 ltac:(lia)) as Hb.
  destruct (Byte.of_N (Z.to_N (x mod 256))) as [b|] eqn:E; simpl.
  - apply Byte.to_of_N in E. rewrite E. lia.
  - apply Byte.of_N_None_iff in E. lia.
Qed.

Lemma uint_of_put_uint (width : nat) :
  forall x : Z, 0 <= x < 256 ^ Z.of_nat width ->
    uint_of (put_uint width x) = x.
Proof.
  induction width as [|width IH]; intros x Hx.
  - simpl in *. lia.
  - cbn [put_uint uint_of]. rewrite Z_of_byte_of_Z.
    rewrite Nat2Z.inj_succ, Z.pow_succ_r in Hx by lia.
    rewrite IH.
    + pose proof (Z.div_mod x 256 ltac:(lia)). lia.
    + split; [apply Z.div_pos; lia|].
      apply Z.div_lt_upper_bound; lia.
Qed.

Lemma length_put_uint (width : nat) (x : Z) : length (put_uint width x) = width.
Proof. revert x. induction width as [|width IH]; intros x; simpl; [done|]. by rewrite IH. Qed.

(** Reading back an integer that was written with the same width. *)
Lemma get_put_uint {B} (width : nat) (x : Z) (k : Z -> Reader B) (rest : list byte) :
  0 <= x < 256 ^ Z.of_nat width ->
  bind (get_uint width) k (put_uint width x ++ rest) = k x rest.
Proof.
  intros Hx. unfold bind, get_uint.
  rewrite length_app, length_put_uint.
  destruct (width <=? width + length rest)%nat eqn:E;
    [|apply Nat.leb_gt in E; lia].
  rewrite <- (length_put_uint width x) at 1 3.
  rewrite take_app_length, drop_app_length.
  by rewrite uint_of_put_uint.
Qed.

Lemma u64_width (x : Z) : u64 x -> 0 <= x < 256 ^ Z.of_nat 8.
Proof. unfold u64. change (256 ^ Z.of_nat 8) with (2 ^ 64). done. Qed.

Lemma u32_width (x : Z) : u32 x -> 0 <= x < 256 ^ Z.of_nat 4.
Proof. unfold u32. change (256 ^ Z.of_nat 4) with (2 ^ 32). done. Qed.

Lemma bind_assoc {A B C} (r : Reader A) (f : A -> Reader B) (k : B -> Reader C)
    (bs : list byte) :
  bind (bind r f) k bs = bind r (fun a => bind (f a) k) bs.
Proof. unfold bind. by destruct (r bs) as [[a rest]|]. Qed.

Lemma bind_ret {A B} (a : A) (k : A -> Reader B) (bs : list byte) :
  bind (ret a) k bs = k a bs.
Proof. reflexivity. Qed.

Lemma get_many_samples {B} (samples : list Z) (k : list Z -> Reader B)
    (rest : list byte) :
  Forall u64 samples ->
  bind (get_many (get_uint 8) (length samples)) k
       (concat (map (put_uint 8) samples) ++ rest)
  = k samples rest.
Proof.
  revert k rest. induction samples as [|x samples IH]; intros k rest Hall.
  { reflexivity. }
  apply Forall_cons in Hall as [Hx Hall].
  cbn [length get_many map concat]. rewrite <- app_assoc.
  rewrite bind_assoc, get_put_uint by by apply u64_width.
  rewrite bind_assoc, IH by done. apply bind_ret.
Qed.

Lemma get_put_entry {B} (e : Entry) (k : Entry -> Reader B) (rest : list byte) :
  entry_fits e ->
  bind get_entry k (put_entry e ++ rest) = k e rest.
Proof.
  intros (Hv & Hg & Hd & Hc & Hs). unfold get_entry, put_entry.
  rewrite <- !app_assoc.
  rewrite bind_assoc, get_put_uint by by apply u64_width.
  rewrite bind_assoc, get_put_uint by by apply u32_width.
  rewrite bind_assoc, get_put_uint by by apply u32_width.
  rewrite bind_assoc, get_put_uint by by apply u32_width.
  replace (Z.to_nat (len (Samples e))) with (length (Samples e))
    by (unfold len; lia).
  rewrite bind_assoc, get_many_samples by done.
  rewrite bind_ret. by destruct e.
Qed.

Lemma get_many_entries {B} (es : list Entry) (k : list Entry -> Reader B)
    (rest : list byte) :
  Forall entry_fits es ->
  bind (get_many get_entry (length es)) k (concat (map put_entry es) ++ rest)
  = k es rest.
Proof.
  revert k rest. induction es as [|e es IH]; intros k rest Hall.
  { reflexivity. }
  apply Forall_cons in Hall as [He Hall].
  cbn [length get_many map concat]. rewrite <- app_assoc.
  rewrite bind_assoc, get_put_entry by done.
  rewrite bind_assoc, IH by done. apply bind_ret.
Qed.

(** The reader reads back what the writer wrote, and nothing is left. *)
Lemma get_summary_Serialize (s : Summary) :
  fits s -> get_summary (Serialize s) = Some (s, []).
Proof.
  intros (He & Hn & Hc & Hes). unfold get_summary, Serialize.
  rewrite get_put_uint by (unfold version; simpl; lia).
  rewrite Z.eqb_refl.
  rewrite get_put_uint by by apply u64_width.
  rewrite get_put_uint by by apply u64_width.
  rewrite get_put_uint by by apply u32_width.
  replace (Z.to_nat (len (Entries s))) with (length (Entries s))
    by (unfold len; lia).
  rewrite <- (app_nil_r (concat (map put_entry (Entries s)))).
  rewrite get_many_entries by done.
  unfold ret. by destruct s.
Qed.

(** Entries that are in value order stay as they are. *)
Lemma sort_entries_sorted (bound : Z) (es : list Entry) :
  adjacent_ok bound es = true -> sort_entries es = es.
Proof.
  induction es as [|e1 es IH]; [done|].
  intros Hadj. cbn [sort_entries foldr]. fold (sort_entries es).
  destruct es as [|e2 es']; [done|].
  cbn [adjacent_ok] in Hadj.
  apply andb_prop in Hadj as [Hadj Hrest].
  apply andb_prop in Hadj as [Hle _].
  rewrite IH by done. cbn [insert_entry]. by rewrite Hle.
Qed.

(** C9 (serialization round trip). For every summary that satisfies the
    invariants of the data model and whose fields fit the widths of the
    wire format, reading back what was written gives a summary: it is the
    summary that was written, so it has the same [N] and the same epsilon
    and [Quantile] answers the same for every [q]. *)
Theorem Deserialize_Serialize (s : Summary) :
  fits s ->
  invariants_hold s = true ->
  exists s' : Summary,
    Deserialize (Serialize s) = Some s' /\
    N s' = N s /\ EPS s' = EPS s /\
    (forall q : Q, Quantile s' q = Quantile s q) /\
    s' = s.
Proof.
  intros Hfits Hinv. exists s.
  split; [|done].
  unfold Deserialize. rewrite get_summary_Serialize by done.
  assert (Hsort : sort_entries (Entries s) = Entries s).
  { unfold invariants_hold in Hinv.
    destruct (f64_value (EPS s)) as [eps|]; [|done].
    apply andb_prop in Hinv as [_ Hadj].
    by apply sort_entries_sorted in Hadj. }
  rewrite Hsort. destruct s as [es n eps]. cbn [Entries N EPS] in *.
  by rewrite Hinv.
Qed.


(** The round trip on the sample summary. *)
Lemma Deserialize_Serialize_witness :
  fits Sketch.summary /\
  invariants_hold Sketch.summary = true /\
  exists s' : Summary,
    Deserialize (Serialize Sketch.summary) = Some s' /\
    N s' = 3 /\ EPS s' = Sketch.f64_eps /\
    (forall q : Q, Quantile s' q = Quantile Sketch.summary q) /\
    s' = Sketch.summary.
Proof.
  assert (H1 : fits Sketch.summary).
  { unfold fits, entry_fits, u64, u32.
    repeat first [split | apply Forall_cons | apply Forall_nil];
      vm_compute; first [reflexivity | discriminate]. }
  assert (H2 : invariants_hold Sketch.summary = true) by (vm_compute; reflexivity).
  split; [exact H1|]. split; [exact H2|].
  exact (Deserialize_Serialize Sketch.summary H1 H2).
Defined.

(** The sample summary on the wire and back: 105 bytes; the reader refuses
    another version and trailing bytes, and puts entries that arrive out of
    order back in order. *)
Example Deserialize_samples :
  length (Serialize Sketch.summary) = 105%nat /\
  Deserialize (Serialize Sketch.summary) = Some Sketch.summary /\
  Deserialize (x02 :: tail (Serialize Sketch.summary)) = None /\
  Deserialize (Serialize Sketch.summary ++ [x00]) = None /\
  Deserialize (Serialize Sketch.shuffled) = Some Sketch.summary.
Proof. by vm_compute. Qed.

Example Quantile_samples :
  Quantile Sketch.summary (0 # 1) = Some (Sketch.f64_1, [11]) /\
  Quantile Sketch.summary (1 # 1) = Some (Sketch.f64_3, [13]) /\
  Quantile Sketch.summary (1 # 4) = Some (Sketch.f64_2, [12]) /\
  Quantile (mkSummary [] 0 Sketch.f64_eps) (1 # 2) = None.
Proof. by vm_compute. Qed.

End QuantileProofs.

(* ===================================================================== *)
(** * Part III: further properties of the code                            *)
(* ===================================================================== *)

(** ** The trace writer: payloads, counters, shutdown, degenerate caps *)

Section WriterFacts.
Import Model Writer.

Variable Marshal : TracePayload -> option (list byte).
Variable Languages : list string.

Arguments Writer.flush : simpl never.
Arguments Writer.updateInfo : simpl never.
Arguments push : simpl never.

Notation "'flush'" := (Writer.flush Marshal Languages).
Notation "'handleTrace'" := (Writer.handleTrace Marshal Languages).
Notation "'Run'" := (Writer.Run Marshal Languages).
Notation "'select_loop'" := (Writer.select_loop Marshal Languages).
Notation "'Max' w" := (MaxSpansPerPayload (conf w)) (at level 10, w at level 9).
Notation "'Marshal_total'" := (Writer.Marshal_total Marshal).

(** What one [flush] gives the sender: nothing, or the one payload built
    from the buffer, in which case the buffer is reset. *)
Lemma flush_sent (w : TraceWriter) (o : World) :
  exists w' o' ps,
    flush (w, o) = (w', o') /\
    sent o' = sent o ++ ps /\
    Forall (fun p => fst p = payload_of w /\ traces w <> []) ps /\
    conf w' = conf w /\ hostName w' = hostName w /\ env w' = env w /\
    ((ps = [] /\ spansInBuffer w' = spansInBuffer w /\ traces w' = traces w) \/
     (spansInBuffer w' = 0 /\ traces w' = [])).
Proof.
  assert (Hcase : traces w = [] \/ traces w <> [])
    by (destruct (traces w); [by left|by right]).
  destruct Hcase as [Ht|Ht].
  - exists w, o, []. rewrite (flush_empty Marshal Languages) by done.
    rewrite app_nil_r. repeat split; try done. left. done.
  - destruct (Marshal (payload_of w)) as [bytes|] eqn:Hm.
    + destruct (flush_success Marshal Languages w o bytes Ht Hm)
        as (w' & o' & p & Hf & H1 & H2 & H3 & H4 & H5 & H6 & H7 & H8).
      exists w', o', [(payload_of w, p)].
      repeat split; try done.
      * constructor; [|constructor]. done.
      * right. done.
    + destruct (flush_marshal_error Marshal Languages w o Ht Hm)
        as (w' & o' & Hf & H1 & H2 & H3 & H4 & H5 & H6 & H7).
      exists w', o', []. rewrite app_nil_r.
      repeat split; try done. left. done.
Qed.

Lemma payload_spans_payload_of (w : TraceWriter) (p : Payload) :
  payload_spans (payload_of w, p) = spans_of (traces w).
Proof. reflexivity. Qed.

(** The payloads one call of [handleTrace] gives the sender: each holds
    exactly [MaxSpansPerPayload] spans, whatever the marshaller does. *)
Lemma handleTrace_payloads (fuel : nat) :
  forall (w : TraceWriter) (o : World) (t : Trace),
    within_cap w -> counts_buffer w ->
    Max w <= Int64.max_int ->
    len t <= Int64.max_int ->
    forall w' o', handleTrace fuel (w, o) t = Done (w', o') ->
    hostName w' = hostName w /\ env w' = env w /\
    exists ps,
      sent o' = sent o ++ ps /\
      Forall (fun p => len (payload_spans p) = Max w /\
                       tp_Traces (fst p) <> [] /\
                       HostName (fst p) = hostName w /\
                       Env (fst p) = env w) ps.
Proof.
  induction fuel as [|fuel IH]; intros w o t Hcap Hcb Hmax Hlen w' o' Hrun;
    [done|].
  destruct t as [|x t'] eqn:Ht.
  { rewrite handleTrace_nil in Hrun. injection Hrun as <- <-.
    split; [done|]. split; [done|]. exists []. by rewrite app_nil_r. }
  rewrite <- Ht in *. assert (Hne : t <> []) by (by rewrite Ht).
  clear Ht x t'. unfold within_cap in Hcap.
  destruct (Z.lt_trichotomy (spansInBuffer w + len t) (Max w)) as [Hlt|[Heq|Hgt]].
  - destruct (handleTrace_below Marshal Languages fuel w o t)
      as (o1 & Ho1 & Hr); try done; [lia|].
    rewrite Hr in Hrun. injection Hrun as <- <-.
    split; [done|]. split; [done|]. exists [].
    rewrite app_nil_r. split; [apply Ho1|constructor].
  - destruct (handleTrace_fill Marshal Languages fuel w o t)
      as (o1 & Ho1 & Hr); try done; [lia|].
    rewrite Hr in Hrun.
    destruct (flush_sent (push w t) o1)
      as (w2 & o2 & ps & Hf & Hsent & Hps & Hc & Hh & He & _).
    rewrite Hf in Hrun. injection Hrun as <- <-.
    split; [done|]. split; [done|]. exists ps.
    split; [rewrite Hsent; f_equal; apply Ho1|].
    eapply Forall_impl; [exact Hps|]. intros [tp p] [Hp Hn]. simpl in Hp.
    subst tp. rewrite payload_spans_payload_of.
    apply (counts_buffer_push w t) in Hcb. unfold counts_buffer in Hcb.
    rewrite <- Hcb. unfold push. simpl. done.
  - destruct (handleTrace_split Marshal Languages fuel w o t)
      as (o1 & w2 & o2 & o3 & Ho1 & Hfull & Hf & Ho3 & Hd & Hr); try done.
    rewrite Hr in Hrun.
    set (k := Z.to_nat (Max w - spansInBuffer w)) in *.
    destruct (flush_sent (push w (take k t)) o1)
      as (w2' & o2' & ps & Hf' & Hsent & Hps & Hc & Hh & He & Hbuf).
    rewrite Hf in Hf'. injection Hf' as <- <-.
    assert (Hcb1 : counts_buffer (push w (take k t)))
      by by apply counts_buffer_push.
    assert (Hc2 : conf w2 = conf w) by (rewrite Hc; done).
    assert (Hcap2 : within_cap w2).
    { unfold within_cap. rewrite Hc2.
      destruct Hbuf as [(_ & -> & _)|[-> _]]; [rewrite Hfull|]; lia. }
    assert (Hcb2 : counts_buffer w2).
    { unfold counts_buffer in *.
      destruct Hbuf as [(_ & -> & ->)|[-> ->]]; done. }
    assert (Hlen2 : len (drop k t) <= Int64.max_int).
    { unfold len in *. rewrite length_drop. lia. }
    destruct (IH w2 o3 (drop k t) Hcap2 Hcb2 ltac:(by rewrite Hc2) Hlen2
                 w' o' Hrun) as (I1 & I2 & ps' & Hsent' & Hps').
    split; [by rewrite I1, Hh|]. split; [by rewrite I2, He|].
    exists (ps ++ ps'). split.
    { rewrite Hsent'. destruct Ho3 as (-> & _). rewrite Hsent.
      destruct Ho1 as (-> & _). by rewrite app_assoc. }
    apply Forall_app. split.
    + eapply Forall_impl; [exact Hps|]. intros [tp p] [Hp Hn]. simpl in Hp.
      subst tp. rewrite payload_spans_payload_of.
      unfold counts_buffer in Hcb1. rewrite <- Hcb1. done.
    + eapply Forall_impl; [exact Hps'|]. intros p (? & ? & ? & ?).
      rewrite Hc2, Hh, He in *. done.
Qed.


Lemma updateInfo_frame (w : TraceWriter) (o : World) :
  exists w' o',
    Writer.updateInfo (w, o) = (w', o') /\
    traces w' = traces w /\ spansInBuffer w' = spansInBuffer w /\
    conf w' = conf w /\ hostName w' = hostName w /\ env w' = env w /\
    sent o' = sent o.
Proof. eexists _, _. split; [reflexivity|]. done. Qed.

(** The state the loop of [Run] is in after any sequence of events, and
    the payloads it has given the sender. *)
Lemma select_loop_payloads (fuel : nat) (events : list LoopEvent) :
  forall (w : TraceWriter) (o : World),
    within_cap w -> counts_buffer w ->
    Max w <= Int64.max_int ->
    Forall (fun t : Trace => len t <= Int64.max_int) (ingested events) ->
    forall w' o', select_loop fuel events (w, o) = Done (w', o') ->
    within_cap w' /\ counts_buffer w' /\
    conf w' = conf w /\ hostName w' = hostName w /\ env w' = env w /\
    exists ps,
      sent o' = sent o ++ ps /\
      Forall (fun p => len (payload_spans p) <= Max w /\
                       tp_Traces (fst p) <> [] /\
                       HostName (fst p) = hostName w /\
                       Env (fst p) = env w) ps.
Proof.
  induction events as [|ev rest IH]; intros w o Hcap Hcb Hmax Hlen w' o' Hrun.
  { simpl in Hrun. injection Hrun as <- <-. repeat split; try done; try apply Hcap.
    exists []. by rewrite app_nil_r. }
  assert (Hflush : forall (o1 : World),
    exists w2 o2 ps,
      flush (w, o1) = (w2, o2) /\ within_cap w2 /\ counts_buffer w2 /\
      conf w2 = conf w /\ hostName w2 = hostName w /\ env w2 = env w /\
      sent o2 = sent o1 ++ ps /\
      Forall (fun p => len (payload_spans p) <= Max w /\
                       tp_Traces (fst p) <> [] /\
                       HostName (fst p) = hostName w /\
                       Env (fst p) = env w) ps).
  { intros o1.
    destruct (flush_sent w o1)
      as (w2 & o2 & ps & Hf & Hsent & Hps & Hc & Hh & He & Hbuf).
    exists w2, o2, ps. split; [done|].
    unfold within_cap, counts_buffer in *. rewrite Hc.
    split; [destruct Hbuf as [(_ & -> & _)|[-> _]]; lia|].
    split; [destruct Hbuf as [(_ & -> & ->)|[-> ->]]; done|].
    split; [done|]. split; [done|]. split; [done|]. split; [done|].
    eapply Forall_impl; [exact Hps|]. intros [tp p] [Hp Hn]. simpl in Hp.
    subst tp. rewrite payload_spans_payload_of. rewrite <- Hcb.
    split; [lia|done]. }
  destruct ev as [[t|]| | |]; simpl in Hrun, Hlen.
  - apply Forall_cons in Hlen as [Ht Hrest].
    pose proof (handleTrace_sound Marshal Languages fuel w o t Hcap Hmax Ht) as Hs.
    destruct (handleTrace fuel (w, o) t) as [[w1 o1]| |] eqn:Hh; [|done|done].
    simpl in Hrun. destruct Hs as (H1 & H2 & _ & H4).
    destruct (handleTrace_payloads fuel w o t Hcap Hcb Hmax Ht w1 o1 Hh)
      as (Hhost & Henv & ps & Hsent & Hps).
    destruct (IH w1 o1 H1 (H4 Hcb) ltac:(by rewrite H2) Hrest w' o' Hrun)
      as (I1 & I2 & I3 & I4 & I5 & ps' & Hsent' & Hps').
    split; [done|]. split; [done|]. split; [congruence|].
    split; [congruence|]. split; [congruence|].
    exists (ps ++ ps'). split; [rewrite Hsent', Hsent; by rewrite app_assoc|].
    apply Forall_app. split.
    + eapply Forall_impl; [exact Hps|]. intros p (Hp & ?). split; [lia|done].
    + eapply Forall_impl; [exact Hps'|]. intros p (? & ? & ? & ?).
      rewrite H2, Hhost, Henv in *. done.
  - by apply IH.
  - destruct (Hflush (log LvlDebug "Flushing current traces" o))
      as (w2 & o2 & ps & Hf & F1 & F2 & F3 & F4 & F5 & Hsent & Hps).
    rewrite Hf in Hrun.
    destruct (IH w2 o2 F1 F2 ltac:(by rewrite F3) Hlen w' o' Hrun)
      as (I1 & I2 & I3 & I4 & I5 & ps' & Hsent' & Hps').
    split; [done|]. split; [done|]. split; [congruence|].
    split; [congruence|]. split; [congruence|].
    exists (ps ++ ps'). split; [rewrite Hsent', Hsent; by rewrite app_assoc|].
    apply Forall_app. split; [done|].
    eapply Forall_impl; [exact Hps'|]. intros p (? & ? & ? & ?).
    rewrite F3, F4, F5 in *. done.
  - destruct (updateInfo_frame w (log LvlDebug "Updating info" o))
      as (w2 & o2 & Hu & U1 & U2 & U3 & U4 & U5 & U6).
    rewrite Hu in Hrun.
    assert (Hcap2 : within_cap w2) by (unfold within_cap; by rewrite U2, U3).
    assert (Hcb2 : counts_buffer w2) by (unfold counts_buffer; by rewrite U2, U1).
    destruct (IH w2 o2 Hcap2 Hcb2 ltac:(by rewrite U3) Hlen w' o' Hrun)
      as (I1 & I2 & I3 & I4 & I5 & ps' & Hsent' & Hps').
    split; [done|]. split; [done|]. split; [congruence|].
    split; [congruence|]. split; [congruence|].
    exists ps'. split; [by rewrite Hsent', U6|].
    eapply Forall_impl; [exact Hps'|]. intros p (? & ? & ? & ?).
    rewrite U3, U4, U5 in *. done.
  - destruct (Hflush (log LvlInfo "exiting trace writer, flushing all remaining traces" o))
      as (w2 & o2 & ps & Hf & F1 & F2 & F3 & F4 & F5 & Hsent & Hps).
    rewrite Hf in Hrun. injection Hrun as <- <-.
    split; [done|]. split; [done|]. split; [done|]. split; [done|].
    split; [done|]. exists ps. done.
Qed.

(** X1 (the count of the buffer). From a buffer whose [spansInBuffer] is the
    number of spans it holds and is within the cap, every run of the main
    loop that returns leaves a buffer whose [spansInBuffer] is again the
    number of spans it holds. *)
Theorem Run_counts_buffer (fuel : nat) (events : list LoopEvent)
    (w : TraceWriter) (o : World) (w' : TraceWriter) (o' : World) :
  0 <= spansInBuffer w <= Max w ->
  spansInBuffer w = len (spans_of (traces w)) ->
  Max w <= Int64.max_int ->
  Forall (fun t : Trace => len t <= Int64.max_int) (ingested events) ->
  Run fuel events (w, o) = Done (w', o') ->
  spansInBuffer w' = len (spans_of (traces w')).
Proof.
  intros Hcap Hcb Hmax Hlen Hrun. unfold Writer.Run in Hrun.
  by destruct (select_loop_payloads fuel events w _ Hcap Hcb Hmax Hlen w' o' Hrun)
    as (_ & ? & _).
Qed.

(** X2 (payloads stay within the cap). Under the same conditions, every
    payload the main loop gives the sender, whether at the cap, at a tick
    or at the exit, carries the host name and the environment of the
    writer, at least one trace, and at most [MaxSpansPerPayload] spans. *)
Theorem Run_payloads_within_cap (fuel : nat) (events : list LoopEvent)
    (w : TraceWriter) (o : World) (w' : TraceWriter) (o' : World) :
  0 <= spansInBuffer w <= Max w ->
  spansInBuffer w = len (spans_of (traces w)) ->
  Max w <= Int64.max_int ->
  Forall (fun t : Trace => len t <= Int64.max_int) (ingested events) ->
  Run fuel events (w, o) = Done (w', o') ->
  exists ps,
    sent o' = sent o ++ ps /\
    Forall (fun p => len (payload_spans p) <= Max w /\
                     tp_Traces (fst p) <> [] /\
                     HostName (fst p) = hostName w /\
                     Env (fst p) = env w) ps.
Proof.
  intros Hcap Hcb Hmax Hlen Hrun. unfold Writer.Run in Hrun.
  by destruct (select_loop_payloads fuel events w _ Hcap Hcb Hmax Hlen w' o' Hrun)
    as (_ & _ & _ & _ & _ & ?).
Qed.


(** How many payloads one call of [handleTrace] sends, and what it leaves
    in the buffer. *)
Lemma handleTrace_count (fuel : nat) :
  Marshal_total ->
  forall (w : TraceWriter) (o : World) (t : Trace),
    (length t < fuel)%nat ->
    0 <= spansInBuffer w < Max w ->
    Max w <= Int64.max_int ->
    len t <= Int64.max_int ->
    exists w' o' ps,
      handleTrace fuel (w, o) t = Done (w', o') /\
      sent o' = sent o ++ ps /\
      len ps = (spansInBuffer w + len t) / Max w /\
      spansInBuffer w' = (spansInBuffer w + len t) mod Max w.
Proof.
  intros Htot.
  induction fuel as [|fuel IH]; intros w o t Hfuel Hcap Hmax Hlen; [lia|].
  destruct t as [|x t'] eqn:Ht.
  { rewrite handleTrace_nil. eexists _, _, []. split; [done|].
    split; [simpl; by rewrite app_nil_r|].
    change (len (@nil Span)) with 0. rewrite Z.add_0_r.
    rewrite Z.div_small, Z.mod_small by lia. done. }
  rewrite <- Ht in *. assert (Hne : t <> []) by (by rewrite Ht).
  clear Ht x t'. pose proof (len_nonneg t) as Hl.
  destruct (Z.lt_trichotomy (spansInBuffer w + len t) (Max w)) as [Hlt|[Heq|Hgt]].
  - destruct (handleTrace_below Marshal Languages fuel w o t)
      as (o1 & Ho1 & ->); try done; [lia..|].
    exists (push w t), o1, []. split; [done|].
    split; [rewrite app_nil_r; apply Ho1|].
    rewrite Z.div_small, Z.mod_small by lia. done.
  - destruct (handleTrace_fill Marshal Languages fuel w o t)
      as (o1 & Ho1 & ->); try done; [lia..|].
    assert (Hne2 : traces (push w t) <> []).
    { unfold push. simpl. by destruct (traces w). }
    destruct (Htot (payload_of (push w t))) as [bytes Hb].
    destruct (flush_success Marshal Languages (push w t) o1 bytes Hne2 Hb)
      as (w' & o' & p & -> & Ht' & Hs' & Hc' & _ & _ & _ & Hsent & _).
    exists w', o', [(payload_of (push w t), p)].
    split; [done|]. split; [rewrite Hsent; f_equal; apply Ho1|].
    rewrite Heq, Z_div_same_full, Z_mod_same_full by lia. done.
  - destruct (handleTrace_split Marshal Languages fuel w o t)
      as (o1 & w2 & o2 & o3 & Ho1 & Hfull & Hf & Ho3 & Hd & ->);
      try done; [lia..|].
    set (k := Z.to_nat (Max w - spansInBuffer w)) in *.
    assert (Hne2 : traces (push w (take k t)) <> []).
    { unfold push. simpl. by destruct (traces w). }
    destruct (Htot (payload_of (push w (take k t)))) as [bytes Hb].
    destruct (flush_success Marshal Languages (push w (take k t)) o1 bytes Hne2 Hb)
      as (w' & o' & p & Hf' & Ht' & Hs' & Hc' & _ & _ & _ & Hsent & _).
    rewrite Hf in Hf'. injection Hf' as <- <-.
    assert (Hc2 : conf w2 = conf w) by (rewrite Hc'; done).
    assert (Hdrop : len (drop k t) = spansInBuffer w + len t - Max w).
    { unfold len. rewrite length_drop. unfold len in *. lia. }
    destruct (IH w2 o3 (drop k t)) as (w' & o' & ps & Hrun & Hsent3 & Hn & Hrem).
    + rewrite length_drop. assert (length t <> 0)%nat by (by destruct t). lia.
    + rewrite Hs', Hc2. lia.
    + by rewrite Hc2.
    + lia.
    + exists w', o', ((payload_of (push w (take k t)), p) :: ps).
      split; [done|]. split.
      { rewrite Hsent3. destruct Ho3 as (-> & _). rewrite Hsent.
        destruct Ho1 as (-> & _). by rewrite <- app_assoc. }
      rewrite Hs', Hc2, Hdrop, Z.add_0_l in *.
      replace (spansInBuffer w + len t)
        with ((spansInBuffer w + len t - Max w) + 1 * Max w) by lia.
      rewrite Z.div_add, Z.mod_add by lia.
      split; [|done]. unfold len in *. simpl length. lia.
Qed.

(** X3 (how many payloads a trace produces). With a marshaller that never
    fails and a buffer that holds [spansInBuffer] spans, fewer than the
    cap, [handleTrace] sends exactly [(spansInBuffer + len(trace)) / cap]
    payloads, each of exactly [cap] spans, and leaves
    [(spansInBuffer + len(trace)) mod cap] spans in the buffer. *)
Theorem handleTrace_payload_count (w : TraceWriter) (o : World) (t : Trace) :
  Marshal_total ->
  0 <= spansInBuffer w < Max w ->
  spansInBuffer w = len (spans_of (traces w)) ->
  Max w <= Int64.max_int ->
  len t <= Int64.max_int ->
  exists w' o' ps,
    handleTrace (S (length t)) (w, o) t = Done (w', o') /\
    sent o' = sent o ++ ps /\
    len ps = (spansInBuffer w + len t) / Max w /\
    Forall (fun p => len (payload_spans p) = Max w) ps /\
    spansInBuffer w' = (spansInBuffer w + len t) mod Max w /\
    len (spans_of (traces w')) = (spansInBuffer w + len t) mod Max w.
Proof.
  intros Htot Hcap Hcb Hmax Hlen.
  destruct (handleTrace_count (S (length t)) Htot w o t)
    as (w' & o' & ps & Hrun & Hsent & Hn & Hrem); try done; [lia|].
  assert (Hw : within_cap w) by (unfold within_cap; lia).
  destruct (handleTrace_payloads (S (length t)) w o t Hw Hcb Hmax Hlen w' o' Hrun)
    as (_ & _ & ps' & Hsent' & Hps').
  rewrite Hsent in Hsent'. apply app_inv_head in Hsent'. subst ps'.
  pose proof (handleTrace_sound Marshal Languages (S (length t)) w o t Hw Hmax Hlen)
    as Hs. rewrite Hrun in Hs. destruct Hs as (_ & _ & _ & Hcb').
  exists w', o', ps. repeat split; try done.
  - eapply Forall_impl; [exact Hps'|]. by intros p (? & _).
  - rewrite <- Hrem. symmetry. by apply Hcb'.
Qed.


(** *** Invariants of handleTrace and of the loop *)

(** A property of the writer and its surroundings that adding log lines,
    appending a trace within the cap and flushing keep is kept by
    [handleTrace]. *)
Lemma handleTrace_invariant (I : TraceWriter * World -> Prop) (fuel : nat) :
  (forall w o o1, only_logged o o1 -> I (w, o) -> I (w, o1)) ->
  (forall w o t, spansInBuffer w + len t <= Max w -> I (w, o) -> I (push w t, o)) ->
  (forall w o, I (w, o) -> I (flush (w, o))) ->
  forall (w : TraceWriter) (o : World) (t : Trace),
    within_cap w ->
    Max w <= Int64.max_int ->
    len t <= Int64.max_int ->
    I (w, o) ->
    forall s', handleTrace fuel (w, o) t = Done s' -> I s'.
Proof.
  intros Hlog Hpush Hflush.
  induction fuel as [|fuel IH]; intros w o t Hcap Hmax Hlen HI s' Hrun; [done|].
  destruct t as [|x t'] eqn:Ht.
  { rewrite handleTrace_nil in Hrun. injection Hrun as <-.
    eapply Hlog; [|exact HI]. apply only_logged_log, only_logged_refl. }
  rewrite <- Ht in *. assert (Hne : t <> []) by (by rewrite Ht).
  clear Ht x t'. unfold within_cap in Hcap.
  destruct (Z.lt_trichotomy (spansInBuffer w + len t) (Max w)) as [Hlt|[Heq|Hgt]].
  - destruct (handleTrace_below Marshal Languages fuel w o t)
      as (o1 & Ho1 & Hr); try done; [lia|].
    rewrite Hr in Hrun. injection Hrun as <-.
    apply (Hlog _ o); [done|]. apply Hpush; [lia|done].
  - destruct (handleTrace_fill Marshal Languages fuel w o t)
      as (o1 & Ho1 & Hr); try done; [lia|].
    rewrite Hr in Hrun. injection Hrun as <-.
    apply Hflush. apply (Hlog _ o); [done|]. apply Hpush; [lia|done].
  - destruct (handleTrace_split Marshal Languages fuel w o t)
      as (o1 & w2 & o2 & o3 & Ho1 & Hfull & Hf & Ho3 & Hd & Hr); try done.
    rewrite Hr in Hrun.
    set (k := Z.to_nat (Max w - spansInBuffer w)) in *.
    destruct (flush_sent (push w (take k t)) o1)
      as (w2' & o2' & ps & Hf' & Hsent & Hps & Hc & Hh & He & Hbuf).
    rewrite Hf in Hf'. injection Hf' as <- <-.
    assert (Hc2 : conf w2 = conf w) by (rewrite Hc; done).
    assert (Hcap2 : within_cap w2).
    { unfold within_cap. rewrite Hc2.
      destruct Hbuf as [(_ & -> & _)|[-> _]]; [rewrite Hfull|]; lia. }
    assert (Hlen2 : len (drop k t) <= Int64.max_int).
    { unfold len in *. rewrite length_drop. lia. }
    apply (IH w2 o3 (drop k t) Hcap2 ltac:(by rewrite Hc2) Hlen2); [|done].
    apply (Hlog _ o2); [done|]. rewrite <- Hf. apply Hflush.
    apply (Hlog _ o); [done|]. apply Hpush; [|done].
    unfold push in Hfull. simpl in Hfull. lia.
Qed.

(** The same for the loop of [Run], when no telemetry tick is among the
    events. *)
Lemma select_loop_invariant (I : TraceWriter * World -> Prop) (fuel : nat)
    (events : list LoopEvent) :
  (forall w o o1, only_logged o o1 -> I (w, o) -> I (w, o1)) ->
  (forall w o t, spansInBuffer w + len t <= Max w -> I (w, o) -> I (push w t, o)) ->
  (forall w o, I (w, o) -> I (flush (w, o))) ->
  Forall (fun e => e <> UpdateInfoTick) events ->
  forall (w : TraceWriter) (o : World),
    within_cap w ->
    Max w <= Int64.max_int ->
    Forall (fun t : Trace => len t <= Int64.max_int) (ingested events) ->
    I (w, o) ->
    forall s', select_loop fuel events (w, o) = Done s' -> I s'.
Proof.
  intros Hlog Hpush Hflush.
  induction events as [|ev rest IH]; intros Hno w o Hcap Hmax Hlen HI s' Hrun.
  { simpl in Hrun. by injection Hrun as <-. }
  apply Forall_cons in Hno as [Hev Hno].
  destruct ev as [[t|]| | |]; simpl in Hrun, Hlen; [| | |done|].
  - apply Forall_cons in Hlen as [Ht Hrest].
    pose proof (handleTrace_sound Marshal Languages fuel w o t Hcap Hmax Ht) as Hs.
    destruct (handleTrace fuel (w, o) t) as [[w1 o1]| |] eqn:Hh; [|done|done].
    simpl in Hrun. destruct Hs as (H1 & H2 & _).
    apply (IH Hno w1 o1 H1 ltac:(by rewrite H2) Hrest); [|done].
    by apply (handleTrace_invariant I fuel Hlog Hpush Hflush w o t).
  - by apply (IH Hno w o).
  - destruct (flush_within_cap Marshal Languages w
                (log LvlDebug "Flushing current traces" o) Hcap)
      as (w1 & o1 & Hf & H1 & H2 & _).
    rewrite Hf in Hrun.
    apply (IH Hno w1 o1 H1 ltac:(by rewrite H2) Hlen); [|done].
    rewrite <- Hf. apply Hflush. apply (Hlog _ o); [|done].
    apply only_logged_log, only_logged_refl.
  - destruct (Writer.flush _ _ _) as [w1 o1] eqn:Hf.
    injection Hrun as <-.
    apply (Hlog _ o1); [apply only_logged_log, only_logged_refl|].
    rewrite <- Hf. apply Hflush. apply (Hlog _ o); [|done].
    apply only_logged_log, only_logged_refl.
Qed.


(** *** The counters and what was sent *)

Import Accounting.

Lemma wrap_wrap_add (x y : Z) : Int64.wrap (Int64.wrap x + y) = Int64.wrap (x + y).
Proof.
  replace (Int64.wrap x + y) with (Int64.wrap x - (- y)) by lia.
  rewrite wrap_wrap_sub. f_equal. lia.
Qed.

Lemma accounted_refl (s : TraceWriter * World) :
  counters_ok (stats (fst s)) -> accounted s s.
Proof.
  intros (H1 & H2 & H3). exists []. rewrite app_nil_r.
  unfold traces_in, spans_in, bytes_in. simpl.
  change (len (@nil APITrace)) with 0. change (len (@nil Span)) with 0.
  change (len (@nil byte)) with 0. rewrite !Z.add_0_r.
  rewrite !wrap_in_range by done. done.
Qed.

Lemma accounted_trans (s1 s2 s3 : TraceWriter * World) :
  accounted s1 s2 -> accounted s2 s3 -> accounted s1 s3.
Proof.
  intros (ps & A1 & A2 & A3 & A4 & A5 & A6 & A7)
         (ps' & B1 & B2 & B3 & B4 & B5 & B6 & B7).
  exists (ps ++ ps'). unfold traces_in, spans_in, bytes_in in *.
  rewrite !map_app, !concat_app, !len_app.
  rewrite B1, A1, B2, A2, B3, A3, B4, A4, !wrap_wrap_add, !Z.add_assoc.
  rewrite <- app_assoc. repeat split; congruence.
Qed.

Lemma accounted_counters_ok (s s' : TraceWriter * World) :
  accounted s s' -> counters_ok (stats (fst s')).
Proof.
  intros (ps & _ & H1 & H2 & H3 & _). unfold counters_ok.
  rewrite H1, H2, H3. repeat split; apply wrap_range.
Qed.

(** The counters after a flush that sent a payload. *)
Lemma flush_success_stats (w : TraceWriter) (o : World) (serialized : list byte) :
  traces w <> [] ->
  Marshal (payload_of w) = Some serialized ->
  stats (fst (flush (w, o))) =
    set_Bytes (Int64.add (Bytes (stats w)) (len serialized))
      (set_Spans (Int64.add (Spans (stats w)) (spansInBuffer w))
         (set_Traces (Int64.add (Traces (stats w)) (len (traces w))) (stats w))).
Proof.
  intros Hne Hok. unfold Writer.flush.
  destruct (len (traces w) =? 0) eqn:E.
  - apply Z.eqb_eq in E. unfold len in E. destruct (traces w); [done|simpl in E; lia].
  - simpl. unfold payload_of in Hok. rewrite Hok. reflexivity.
Qed.

Lemma flush_accounted (w : TraceWriter) (o : World) :
  Marshal_total ->
  counts_buffer w ->
  counters_ok (stats w) ->
  accounted (w, o) (flush (w, o)).
Proof.
  intros Htot Hcb Hok.
  assert (Hcase : traces w = [] \/ traces w <> [])
    by (destruct (traces w); [by left|by right]).
  destruct Hcase as [Ht|Ht].
  - rewrite (flush_empty Marshal Languages) by done. by apply accounted_refl.
  - destruct (Htot (payload_of w)) as [bytes Hb].
    pose proof (flush_success_stats w o bytes Ht Hb) as Hstats.
    destruct (flush_success Marshal Languages w o bytes Ht Hb)
      as (w' & o' & p & Hf & _ & _ & _ & _ & _ & Hp & Hsent & _).
    rewrite Hf in *. simpl in Hstats.
    exists [(payload_of w, p)]. simpl. rewrite Hstats.
    unfold traces_in, spans_in, bytes_in. simpl.
    rewrite !app_nil_r, Hp. unfold payload_spans. simpl.
    unfold counts_buffer in Hcb. rewrite <- Hcb.
    repeat split; done.
Qed.

(** X4 (the counters match what was sent). With a marshaller that never
    fails and no telemetry tick among the events, a run of the main loop
    that returns has added to [Traces], [Spans] and [Bytes] the number of
    traces, spans and bytes of the payloads it gave the sender (in 64-bit
    arithmetic), and has left the counters of the sender events alone. *)
Theorem Run_counters_match_sent (fuel : nat) (events : list LoopEvent)
    (w : TraceWriter) (o : World) (w' : TraceWriter) (o' : World) :
  Marshal_total ->
  0 <= spansInBuffer w <= Max w ->
  spansInBuffer w = len (spans_of (traces w)) ->
  counters_ok (stats w) ->
  Max w <= Int64.max_int ->
  Forall (fun t : Trace => len t <= Int64.max_int) (ingested events) ->
  Forall (fun e => e <> UpdateInfoTick) events ->
  Run fuel events (w, o) = Done (w', o') ->
  exists ps,
    sent o' = sent o ++ ps /\
    Traces (stats w') = Int64.wrap (Traces (stats w) + traces_in ps) /\
    Spans (stats w') = Int64.wrap (Spans (stats w) + spans_in ps) /\
    Bytes (stats w') = Int64.wrap (Bytes (stats w) + bytes_in ps) /\
    Payloads (stats w') = Payloads (stats w) /\
    Retries (stats w') = Retries (stats w) /\
    Errors (stats w') = Errors (stats w).
Proof.
  intros Htot Hcap Hcb Hok Hmax Hlen Hno Hrun. unfold Writer.Run in Hrun.
  set (I := fun s : TraceWriter * World =>
              accounted (w, o) s /\ counts_buffer (fst s)).
  assert (Hlog : forall w1 o1 o2, only_logged o1 o2 -> I (w1, o1) -> I (w1, o2)).
  { intros w1 o1 o2 (Hs & _) [Ha Hc]. split; [|done].
    destruct Ha as (ps & A1 & A). exists ps. simpl in *. by rewrite Hs. }
  assert (Hpush : forall w1 o1 t, spansInBuffer w1 + len t <= Max w1 ->
                    I (w1, o1) -> I (push w1 t, o1)).
  { intros w1 o1 t _ [Ha Hc]. split; [|by apply counts_buffer_push].
    destruct Ha as (ps & A). by exists ps. }
  assert (Hflush : forall w1 o1, I (w1, o1) -> I (flush (w1, o1))).
  { intros w1 o1 [Ha Hc]. split.
    - eapply accounted_trans; [exact Ha|].
      apply flush_accounted; try done.
      by apply (accounted_counters_ok _ _ Ha).
    - destruct (flush_sent w1 o1)
        as (w2 & o2 & ps & -> & _ & _ & _ & _ & _ & Hbuf).
      unfold counts_buffer in *. simpl.
      destruct Hbuf as [(_ & -> & ->)|[-> ->]]; done. }
  assert (HI0 : I (w, log LvlDebug "starting trace writer" o)).
  { apply (Hlog w o); [apply only_logged_log, only_logged_refl|].
    split; [|done]. by apply (accounted_refl (w, o)). }
  pose proof (select_loop_invariant I fuel events Hlog Hpush Hflush Hno w _
                Hcap Hmax Hlen HI0 (w', o') Hrun) as [(ps & A) _].
  by exists ps.
Qed.


(** *** The exit *)

Lemma select_loop_exit_ignores (fuel : nat) (before later later' : list LoopEvent) :
  forall s : TraceWriter * World,
    select_loop fuel (before ++ Exit :: later) s =
    select_loop fuel (before ++ Exit :: later') s.
Proof.
  induction before as [|ev rest IH]; intros [w o]; [reflexivity|].
  destruct ev as [[t|]| | |]; simpl; try apply IH; try reflexivity.
  destruct (handleTrace fuel (w, o) t) as [s1| |]; simpl; [apply IH|done|done].
Qed.

Lemma flush_total_empties (w : TraceWriter) (o : World) :
  Marshal_total -> traces (fst (flush (w, o))) = [].
Proof.
  intros Htot.
  assert (Hcase : traces w = [] \/ traces w <> [])
    by (destruct (traces w); [by left|by right]).
  destruct Hcase as [Ht|Ht].
  - by rewrite (flush_empty Marshal Languages).
  - destruct (Htot (payload_of w)) as [bytes Hb].
    destruct (flush_success Marshal Languages w o bytes Ht Hb)
      as (w' & o' & p & -> & ? & _). done.
Qed.

Lemma select_loop_exit_empties (fuel : nat) (before later : list LoopEvent) :
  Marshal_total ->
  forall (s s' : TraceWriter * World),
    select_loop fuel (before ++ Exit :: later) s = Done s' ->
    traces (fst s') = [].
Proof.
  intros Htot. induction before as [|ev rest IH]; intros [w o] s' Hrun.
  - simpl in Hrun.
    pose proof (flush_total_empties w
      (log LvlInfo "exiting trace writer, flushing all remaining traces" o) Htot)
      as He.
    destruct (Writer.flush _ _ _) as [w1 o1]. injection Hrun as <-. done.
  - destruct ev as [[t|]| | |]; simpl in Hrun.
    + destruct (handleTrace fuel (w, o) t) as [s1| |]; simpl in Hrun;
        [by apply (IH s1)|done|done].
    + by apply (IH (w, o)).
    + by apply (IH _ s' Hrun).
    + by apply (IH _ s' Hrun).
    + pose proof (flush_total_empties w
        (log LvlInfo "exiting trace writer, flushing all remaining traces" o) Htot)
        as He.
      destruct (Writer.flush _ _ _) as [w1 o1]. injection Hrun as <-. done.
Qed.

(** X5 (nothing is left at the exit). With a marshaller that never fails,
    a run of the main loop that reaches the exit ends with an empty
    buffer: every span that was buffered or handed to [handleTrace] before
    the exit is in a payload given to the sender, in order. What is
    received after the exit plays no part. *)
Theorem Run_exit_sends_everything (fuel : nat) (before later : list LoopEvent)
    (w : TraceWriter) (o : World) (w' : TraceWriter) (o' : World) :
  Marshal_total ->
  0 <= spansInBuffer w <= Max w ->
  spansInBuffer w = len (spans_of (traces w)) ->
  Max w <= Int64.max_int ->
  Forall (fun t : Trace => len t <= Int64.max_int)
         (ingested (before ++ Exit :: later)) ->
  Run fuel (before ++ Exit :: later) (w, o) = Done (w', o') ->
  traces w' = [] /\ spansInBuffer w' = 0 /\
  concat (map payload_spans (sent o')) =
    (concat (map payload_spans (sent o)) ++ spans_of (traces w))
      ++ concat (ingested (before ++ Exit :: later)) /\
  forall later', Run fuel (before ++ Exit :: later') (w, o) = Done (w', o').
Proof.
  intros Htot Hcap Hcb Hmax Hlen Hrun.
  assert (Hempty : traces w' = []).
  { unfold Writer.Run in Hrun.
    by apply (select_loop_exit_empties fuel before later Htot _ _ Hrun). }
  assert (Hcb' : spansInBuffer w' = len (spans_of (traces w'))).
  { unfold Writer.Run in Hrun.
    by destruct (select_loop_payloads fuel _ w _ Hcap Hcb Hmax Hlen w' o' Hrun)
      as (_ & ? & _). }
  pose proof (Run_sound Marshal Languages fuel _ w o Hcap Hmax Hlen) as Hs.
  rewrite Hrun in Hs. destruct Hs as (_ & _ & Hall).
  unfold all_spans in Hall. simpl in Hall.
  rewrite Hempty in Hall, Hcb'. unfold spans_of in Hall at 1. simpl in Hall.
  rewrite app_nil_r in Hall.
  split; [done|]. split; [done|]. split; [done|].
  intros later'. rewrite <- Hrun. unfold Writer.Run.
  apply select_loop_exit_ignores.
Qed.

(** *** Caps that the writer cannot work with *)

(** X6 (a buffer stuck at the cap). When the buffer is at the cap on entry
    and a flush cannot bring it below (the cap is zero, or the marshaller
    fails every time), [handleTrace] on a trace that is not empty never
    returns: whatever the depth allowed, the recursion is still going. *)
Theorem handleTrace_stuck_at_cap (fuel : nat) :
  forall (w : TraceWriter) (o : World) (t : Trace),
    spansInBuffer w = Max w ->
    Max w = 0 \/ (forall p, Marshal p = None) ->
    0 <= Max w <= Int64.max_int ->
    len t <= Int64.max_int ->
    t <> [] ->
    handleTrace fuel (w, o) t = OutOfFuel.
Proof.
  induction fuel as [|fuel IH]; intros w o t Hfull Hstuck Hmax Hlen Hne; [done|].
  assert (0 < len t) by (unfold len; destruct t; [done|simpl; lia]).
  destruct (handleTrace_split Marshal Languages fuel w o t)
    as (o1 & w2 & o2 & o3 & Ho1 & Hfull2 & Hf & Ho3 & Hd & ->); try done; [lia..|].
  rewrite Hfull in *. rewrite Z.sub_diag in *.
  change (Z.to_nat 0) with 0%nat in *. rewrite take_0 in *. rewrite drop_0.
  destruct (flush_sent (push w []) o1)
    as (w2' & o2' & ps & Hf' & _ & _ & Hc & _ & _ & Hbuf).
  rewrite Hf in Hf'. injection Hf' as <- <-.
  assert (Hc2 : conf w2 = conf w) by (rewrite Hc; done).
  apply IH; try done; rewrite ?Hc2; try done.
  destruct Hstuck as [Hzero|Hfail].
  - destruct Hbuf as [(_ & -> & _)|[-> _]]; [done|lia].
  - assert (Hne2 : traces (push w []) <> []).
    { unfold push. simpl. by destruct (traces w). }
    destruct (flush_marshal_error Marshal Languages (push w []) o1 Hne2 (Hfail _))
      as (w' & o' & Hf' & _ & Hs' & _).
    rewrite Hf in Hf'. injection Hf' as <- <-. by rewrite Hs'.
Qed.

(** X7 (a buffer over the cap). When [spansInBuffer] is above the cap on
    entry (a negative cap is enough, with an empty buffer), [handleTrace]
    on a trace that is not empty panics at once, in the slice expression:
    the split index [cap - spansInBuffer] is negative. The panic the code
    provides for this state is not the one that fires. *)
Theorem handleTrace_over_cap_panics (fuel : nat) (w : TraceWriter) (o : World)
    (t : Trace) :
  Max w < spansInBuffer w ->
  spansInBuffer w + len t - Max w <= Int64.max_int ->
  t <> [] ->
  handleTrace (S fuel) (w, o) t = Panic "slice bounds out of range".
Proof.
  intros Hover Hfit Hne.
  pose proof (len_nonneg t) as Hl.
  assert (0 < len t) by (unfold len; destruct t; [done|simpl; lia]).
  assert (Hr : Int64.in_range (spansInBuffer w + len t - Max w))
    by (unfold Int64.in_range, Int64.min_int, Int64.max_int in *; lia).
  assert (Hr2 : Int64.in_range (len t - (spansInBuffer w + len t - Max w)))
    by (unfold Int64.in_range, Int64.min_int, Int64.max_int in *; lia).
  simpl. rewrite (len_nonzero t Hne). rewrite sub_add_exact by done.
  destruct (0 <? spansInBuffer w + len t - Max w) eqn:E; [|lia].
  rewrite sub_exact by done. unfold slice_from.
  destruct (0 <=? len t - (spansInBuffer w + len t - Max w)) eqn:E2; [lia|].
  reflexivity.
Qed.

End WriterFacts.

(** ** The sender events between two publications *)

Section TelemetryFacts.
Import Writer.

(** X8 (what a publication reports). When the monitor has consumed a
    sequence of sender events and [updateInfo] then runs, the snapshot
    given to the info registry holds the counters as they were before
    those events plus the number of Success, Retry and Failure events
    (as long as no counter passes the largest [int64]), and the counters
    are zero again; so after a further sequence of events the next
    [updateInfo] reports the events of that sequence only. *)
Theorem updateInfo_reports_since_last (events later : list (option SenderEvent))
    (w : TraceWriter) (o : World) :
  Int64.in_range (Payloads (stats w)) ->
  Int64.in_range (Errors (stats w)) ->
  Int64.in_range (Retries (stats w)) ->
  Payloads (stats w) + count_events is_success events <= Int64.max_int ->
  Errors (stats w) + count_events is_failure events <= Int64.max_int ->
  Retries (stats w) + count_events is_retry events <= Int64.max_int ->
  len later <= Int64.max_int ->
  let s1 := updateInfo (monitor events (w, o)) in
  let s2 := updateInfo (monitor later s1) in
  info_registry (snd s1) =
    mkInfo (Payloads (stats w) + count_events is_success events)
           (Traces (stats w)) (Spans (stats w)) (Bytes (stats w))
           (Retries (stats w) + count_events is_retry events)
           (Errors (stats w) + count_events is_failure events) /\
  stats (fst s1) = zero_info /\
  info_registry (snd s2) =
    mkInfo (count_events is_success later) 0 0 0
           (count_events is_retry later) (count_events is_failure later) /\
  stats (fst s2) = zero_info.
Proof.
  intros Hp He Hr Hps Hes Hrs Hl. cbv zeta.
  assert (Hpub : forall (evs : list (option SenderEvent)) (w0 : TraceWriter)
                        (o0 : World),
    Int64.in_range (Payloads (stats w0)) ->
    Int64.in_range (Errors (stats w0)) ->
    Int64.in_range (Retries (stats w0)) ->
    Payloads (stats w0) + count_events is_success evs <= Int64.max_int ->
    Errors (stats w0) + count_events is_failure evs <= Int64.max_int ->
    Retries (stats w0) + count_events is_retry evs <= Int64.max_int ->
    info_registry (snd (updateInfo (monitor evs (w0, o0)))) =
      mkInfo (Payloads (stats w0) + count_events is_success evs)
             (Traces (stats w0)) (Spans (stats w0)) (Bytes (stats w0))
             (Retries (stats w0) + count_events is_retry evs)
             (Errors (stats w0) + count_events is_failure evs) /\
    stats (fst (updateInfo (monitor evs (w0, o0)))) = zero_info).
  { intros evs w0 o0 Gp Ge Gr Gps Ges Grs.
    destruct (monitor_counts_from evs w0 w0 o0 0 0 0)
      as (H1 & H2 & H3 & H4 & H5 & H6 & _);
      try (rewrite Z.add_0_r; symmetry; by apply wrap_in_range).
    rewrite !Z.add_0_l in *.
    pose proof (len_nonneg (List.filter is_success evs)) as N1.
    pose proof (len_nonneg (List.filter is_failure evs)) as N2.
    pose proof (len_nonneg (List.filter is_retry evs)) as N3.
    fold (count_events is_success evs) in N1.
    fold (count_events is_failure evs) in N2.
    fold (count_events is_retry evs) in N3.
    unfold Int64.in_range in *.
    rewrite wrap_in_range in H1 by (unfold Int64.in_range; lia).
    rewrite wrap_in_range in H2 by (unfold Int64.in_range; lia).
    rewrite wrap_in_range in H3 by (unfold Int64.in_range; lia).
    destruct (monitor evs (w0, o0)) as [w1 o1]. simpl in *.
    destruct w1 as [h e c [pa tr sp by_ re er] ts n]. simpl in *.
    subst. done. }
  destruct (Hpub events w o Hp He Hr Hps Hes Hrs) as [P1 P2].
  split; [done|]. split; [done|].
  destruct (updateInfo (monitor events (w, o))) as [w1 o1]. simpl in P2.
  assert (Hz : Int64.in_range 0) by (split; vm_compute; discriminate).
  assert (Hcount : forall p, count_events p later <= Int64.max_int).
  { intros p. unfold count_events, len in *.
    pose proof (List.filter_length_le p later). lia. }
  assert (Hq : info_registry (snd (updateInfo (monitor later (w1, o1)))) =
      mkInfo (Payloads (stats w1) + count_events is_success later)
             (Traces (stats w1)) (Spans (stats w1)) (Bytes (stats w1))
             (Retries (stats w1) + count_events is_retry later)
             (Errors (stats w1) + count_events is_failure later) /\
    stats (fst (updateInfo (monitor later (w1, o1)))) = zero_info).
  { apply Hpub; rewrite P2; simpl; try done; apply Hcount. }
  destruct Hq as [Q1 Q2]. rewrite Q1, Q2, P2. simpl. done.
Qed.

End TelemetryFacts.

(** ** The further properties of the trace writer on sample inputs *)

Section WriterFactsExamples.
Import Model Writer Examples Accounting.



Ltac by_computation := vm_compute; first [reflexivity | discriminate].

Lemma writer_2_ready :
  (0 <= spansInBuffer (writer 2) <= MaxSpansPerPayload (conf (writer 2))) /\
  spansInBuffer (writer 2) = len (spans_of (traces (writer 2))) /\
  MaxSpansPerPayload (conf (writer 2)) <= Int64.max_int /\
  Forall (fun t : Trace => len t <= Int64.max_int) (ingested sample_events).
Proof.
  split; [split; by_computation|]. split; [reflexivity|].
  split; [by_computation|]. repeat constructor; by_computation.
Defined.

(** The buffer count after the sample events under a cap of two. *)
Lemma Run_counts_buffer_witness :
  exists w' o',
    Run marshal_ok [] 10 sample_events (writer 2, empty_world) = Done (w', o') /\
    spansInBuffer w' = len (spans_of (traces w')).
Proof.
  destruct (Run marshal_ok [] 10 sample_events (writer 2, empty_world))
    as [[w' o']| |] eqn:Hrun; [|vm_compute in Hrun; discriminate..].
  exists w', o'. split; [reflexivity|].
  destruct writer_2_ready as (H1 & H2 & H3 & H4).
  exact (Run_counts_buffer marshal_ok [] 10 sample_events (writer 2) empty_world
           w' o' H1 H2 H3 H4 Hrun).
Defined.

(** The payloads of the sample events under a cap of two. *)
Lemma Run_payloads_within_cap_witness :
  exists w' o' ps,
    Run marshal_ok [] 10 sample_events (writer 2, empty_world) = Done (w', o') /\
    sent o' = ps /\
    Forall (fun p => len (payload_spans p) <= 2 /\
                     tp_Traces (fst p) <> [] /\
                     HostName (fst p) = "host"%string /\
                     Env (fst p) = "none"%string) ps.
Proof.
  destruct (Run marshal_ok [] 10 sample_events (writer 2, empty_world))
    as [[w' o']| |] eqn:Hrun; [|vm_compute in Hrun; discriminate..].
  destruct writer_2_ready as (H1 & H2 & H3 & H4).
  destruct (Run_payloads_within_cap marshal_ok [] 10 sample_events (writer 2)
              empty_world w' o' H1 H2 H3 H4 Hrun) as (ps & Hsent & Hps).
  exists w', o', ps. split; [reflexivity|]. split; [exact Hsent|exact Hps].
Defined.

(** A trace of 25 spans under a cap of 10: two payloads, five spans left. *)
Lemma handleTrace_payload_count_witness :
  exists w' o' ps,
    handleTrace marshal_ok [] 26 (writer 10, empty_world) (spans 25)
      = Done (w', o') /\
    sent o' = ps /\ len ps = 2 /\
    Forall (fun p => len (payload_spans p) = 10) ps /\
    spansInBuffer w' = 5.
Proof.
  assert (H1 : 0 <= spansInBuffer (writer 10) < MaxSpansPerPayload (conf (writer 10)))
    by (split; by_computation).
  assert (H2 : spansInBuffer (writer 10) = len (spans_of (traces (writer 10))))
    by reflexivity.
  assert (H3 : MaxSpansPerPayload (conf (writer 10)) <= Int64.max_int)
    by by_computation.
  assert (H4 : len (spans 25) <= Int64.max_int) by by_computation.
  destruct (handleTrace_payload_count marshal_ok [] (writer 10) empty_world
              (spans 25) marshal_ok_total H1 H2 H3 H4)
    as (w' & o' & ps & Hrun & Hsent & Hn & Hps & Hrem & _).
  exists w', o', ps. split; [exact Hrun|]. split; [exact Hsent|].
  split; [exact Hn|]. split; [exact Hps|exact Hrem].
Defined.

(** The counters after the sample events, from a new writer. *)
Lemma Run_counters_match_sent_witness :
  exists w' o' ps,
    Run marshal_ok [] 10 sample_events (writer 2, empty_world) = Done (w', o') /\
    sent o' = ps /\
    Traces (stats w') = Int64.wrap (0 + traces_in ps) /\
    Spans (stats w') = Int64.wrap (0 + spans_in ps) /\
    Bytes (stats w') = Int64.wrap (0 + bytes_in ps).
Proof.
  destruct (Run marshal_ok [] 10 sample_events (writer 2, empty_world))
    as [[w' o']| |] eqn:Hrun; [|vm_compute in Hrun; discriminate..].
  destruct writer_2_ready as (H1 & H2 & H3 & H4).
  assert (H5 : counters_ok (stats (writer 2)))
    by (repeat split; by_computation).
  assert (H6 : Forall (fun e => e <> UpdateInfoTick) sample_events)
    by (repeat constructor; discriminate).
  destruct (Run_counters_match_sent marshal_ok [] 10 sample_events (writer 2)
              empty_world w' o' marshal_ok_total H1 H2 H5 H3 H4 H6 Hrun)
    as (ps & Hsent & Ht & Hs & Hb & _).
  exists w', o', ps. split; [reflexivity|]. split; [exact Hsent|].
  split; [exact Ht|]. split; [exact Hs|exact Hb].
Defined.

(** The sample events end with an exit followed by one more trace. *)
Lemma Run_exit_sends_everything_witness :
  exists w' o',
    Run marshal_ok [] 10 sample_events (writer 2, empty_world) = Done (w', o') /\
    traces w' = [] /\ spansInBuffer w' = 0 /\
    concat (map payload_spans (sent o')) = spans 3 ++ spans 4.
Proof.
  destruct (Run marshal_ok [] 10 sample_events (writer 2, empty_world))
    as [[w' o']| |] eqn:Hrun; [|vm_compute in Hrun; discriminate..].
  destruct writer_2_ready as (H1 & H2 & H3 & H4).
  destruct (Run_exit_sends_everything marshal_ok [] 10
              [InTrace (Some (spans 3)); FlushTick; InTrace None;
               InTrace (Some (spans 4))]
              [InTrace (Some (spans 2))]
              (writer 2) empty_world w' o' marshal_ok_total H1 H2 H3 H4 Hrun)
    as (Ht & Hs & Hall & _).
  exists w', o'. split; [reflexivity|]. split; [exact Ht|]. split; [exact Hs|].
  rewrite Hall. reflexivity.
Defined.

(** A cap of zero: the call is still running after fifty levels. *)
Lemma handleTrace_stuck_at_cap_witness :
  handleTrace marshal_ok [] 50 (writer 0, empty_world) (spans 1) = OutOfFuel.
Proof.
  apply (handleTrace_stuck_at_cap marshal_ok [] 50 (writer 0) empty_world (spans 1)).
  - reflexivity.
  - left. reflexivity.
  - split; by_computation.
  - by_computation.
  - discriminate.
Defined.

(** A cap of minus one and an empty buffer. *)
Lemma handleTrace_over_cap_panics_witness :
  handleTrace marshal_ok [] 1 (writer (-1), empty_world) (spans 1)
    = Panic "slice bounds out of range".
Proof.
  apply (handleTrace_over_cap_panics marshal_ok [] 0 (writer (-1)) empty_world
           (spans 1)).
  - reflexivity.
  - by_computation.
  - discriminate.
Defined.

(** Two publications: after one Success, two Retry and one Failure event,
    then after one more Success event. *)
Lemma updateInfo_reports_since_last_witness :
  let events := [Some (SenderSuccessEvent 1 payload);
                 Some (SenderRetryEvent 1 1 "timeout");
                 Some (SenderRetryEvent 2 2 "timeout");
                 Some (SenderFailureEvent 1 payload "timeout")] in
  let later := [Some (SenderSuccessEvent 2 payload)] in
  let s1 := updateInfo (monitor events (writer 2, empty_world)) in
  let s2 := updateInfo (monitor later s1) in
  info_registry (snd s1) = mkInfo 1 0 0 0 2 1 /\
  info_registry (snd s2) = mkInfo 1 0 0 0 0 0.
Proof.
  intros events later s1 s2.
  assert (Hz : Int64.in_range 0) by (split; by_computation).
  destruct (updateInfo_reports_since_last events later (writer 2) empty_world
              Hz Hz Hz) as (P1 & _ & P2 & _); try by_computation.
  split; [exact P1|exact P2].
Defined.

End WriterFactsExamples.

Section MetricNameFacts.
Import Model MetricName.

Lemma isAlpha_isAlphaNum (b : ascii) : isAlpha b = true -> isAlphaNum b = true.
Proof. intros H. unfold isAlphaNum. cbv zeta. by rewrite H. Qed.

Lemma isAlphaNum_name_byte (b : ascii) : isAlphaNum b = true -> name_byte b = true.
Proof. intros H. unfold name_byte. by rewrite H. Qed.

Lemma length_list_ascii_of_string (s : string) :
  length (String.list_ascii_of_string s) = String.length s.
Proof. induction s as [|a s IH]; simpl; congruence. Qed.

Lemma last_byte_snoc (res : list ascii) (b : ascii) : last_byte (res ++ [b]) = b.
Proof. unfold last_byte. apply List.last_last. Qed.

Lemma snoc_or_nil {A} (l : list A) : l = [] \/ exists l0 x, l = l0 ++ [x].
Proof.
  destruct l as [|x l0] using rev_ind; [by left|right]. by exists l0, x.
Qed.

(** The two ways [pre ++ x :: post] can be a list extended by one
    element. *)
Lemma app_snoc_split {A} (pre post res : list A) (x b : A) :
  pre ++ x :: post = res ++ [b] ->
  (post = [] /\ pre = res /\ x = b) \/
  (exists post0, post = post0 ++ [b] /\ res = pre ++ x :: post0).
Proof.
  intros Heq. destruct (snoc_or_nil post) as [->|(post0 & y & ->)].
  - left. apply app_inj_tail in Heq as [? ?]. done.
  - right. exists post0.
    change (pre ++ x :: post0 ++ [y]) with (pre ++ (x :: post0) ++ [y]) in Heq.
    rewrite app_assoc in Heq. apply app_inj_tail in Heq as [? ?].
    subst. done.
Qed.

Lemma hd_snoc (res : list ascii) (b d : ascii) :
  res <> [] -> hd d (res ++ [b]) = hd d res.
Proof. by destruct res. Qed.

Lemma building_nonempty (res : list ascii) : building res -> res <> [].
Proof. intros (H & _) ->. simpl in H. discriminate. Qed.

(** The five branches of one iteration of the second loop. *)
Lemma norm_step_cases (res : list ascii) (b : ascii) :
  (isAlphaNum b = true /\ norm_step res b = res ++ [b]) \/
  (b = "."%char /\ last_byte res = "_"%char /\
   norm_step res b = removelast res ++ ["."%char]) \/
  (b = "."%char /\ last_byte res <> "_"%char /\
   norm_step res b = res ++ ["."%char]) \/
  (isAlphaNum b = false /\ b <> "."%char /\
   (last_byte res = "."%char \/ last_byte res = "_"%char) /\
   norm_step res b = res) \/
  (isAlphaNum b = false /\ b <> "."%char /\
   last_byte res <> "."%char /\ last_byte res <> "_"%char /\
   norm_step res b = res ++ ["_"%char]).
Proof.
  unfold norm_step. destruct (isAlphaNum b) eqn:Hb; [by left|right].
  destruct (Ascii.eqb_spec b "."%char) as [->|Hdot].
  - destruct (Ascii.eqb_spec (last_byte res) "_"%char); [by left|by right; left].
  - right; right.
    destruct (Ascii.eqb_spec (last_byte res) "."%char);
      destruct (Ascii.eqb_spec (last_byte res) "_"%char); simpl;
      try (left; by auto); right; by auto.
Qed.

(** A name byte that is neither a period nor an underscore is a letter or
    a digit. *)
Lemma name_byte_alnum (c : ascii) :
  name_byte c = true -> c <> "."%char -> c <> "_"%char -> isAlphaNum c = true.
Proof.
  unfold name_byte. intros H Hd Hu.
  destruct (isAlphaNum c); [done|]. simpl in H.
  destruct (Ascii.eqb_spec c "."%char); [done|].
  destruct (Ascii.eqb_spec c "_"%char); done.
Qed.

(** One iteration of the second loop keeps the buffer well formed. *)
Lemma building_step (res : list ascii) (b : ascii) :
  building res -> building (norm_step res b).
Proof.
  intros Hres. pose proof (building_nonempty _ Hres) as Hne.
  destruct Hres as (Hhd & Hall & Hus).
  destruct (snoc_or_nil res) as [?|(r0 & c & ->)]; [done|].
  assert (Hc : name_byte c = true).
  { apply Forall_app in Hall as [_ Hc]. by inversion Hc. }
  pose proof (norm_step_cases (r0 ++ [c]) b) as Hcases.
  rewrite last_byte_snoc in Hcases.
  destruct Hcases
    as [(Hb & ->)|[(-> & Hl & ->)|[(-> & Hl & ->)|[(Hb & Hd & Hl & ->)
       |(Hb & Hd & Hl1 & Hl2 & ->)]]]].
  - (* a letter or a digit is appended *)
    split; [by rewrite hd_snoc|]. split.
    { apply Forall_app. split; [done|]. constructor; [|done].
      by apply isAlphaNum_name_byte. }
    intros pre post Heq. symmetry in Heq.
    apply app_snoc_split in Heq as [(-> & -> & <-)|(post0 & -> & Heq)].
    { done. }
    destruct (Hus _ _ Heq) as (Hp & Hn). split; [done|]. right.
    destruct Hn as [->|Hn]; [done|].
    destruct post0; [done|]. done.
  - (* a period overwrites the underscore at the end *)
    subst c. rewrite removelast_last.
    destruct (Hus r0 [] eq_refl) as (Hr0 & _).
    assert (Hr0ne : r0 <> []) by (intros ->; done).
    split.
    { rewrite hd_snoc by done. rewrite hd_snoc in Hhd; done. }
    split.
    { apply Forall_app in Hall as [Hall _].
      apply Forall_app. split; [done|]. by constructor. }
    intros pre post Heq. symmetry in Heq.
    apply app_snoc_split in Heq as [(_ & _ & ?)|(post0 & -> & Heq)]; [done|].
    assert (Hwhole : r0 ++ ["_"%char] = pre ++ "_"%char :: (post0 ++ ["_"%char])).
    { rewrite Heq. by rewrite <- app_assoc. }
    destruct (Hus _ _ Hwhole) as (Hp & Hn). split; [done|]. right.
    destruct Hn as [Hn|Hn]; [by destruct post0|].
    destruct post0; [done|]. done.
  - (* a period is appended *)
    split; [by rewrite hd_snoc|]. split.
    { apply Forall_app. split; [done|]. by constructor. }
    intros pre post Heq. symmetry in Heq.
    apply app_snoc_split in Heq as [(_ & _ & ?)|(post0 & -> & Heq)]; [done|].
    destruct (Hus _ _ Heq) as (Hp & Hn). split; [done|]. right.
    destruct Hn as [->|Hn].
    { apply app_inj_tail in Heq as [_ ?]. done. }
    destruct post0; [done|]. done.
  - (* nothing is written after a period or an underscore *)
    done.
  - (* an underscore is appended *)
    split; [by rewrite hd_snoc|]. split.
    { apply Forall_app. split; [done|]. by constructor. }
    intros pre post Heq. symmetry in Heq.
    apply app_snoc_split in Heq as [(-> & -> & _)|(post0 & -> & Heq)].
    { split; [|by left]. rewrite last_byte_snoc. by apply name_byte_alnum. }
    destruct (Hus _ _ Heq) as (Hp & Hn). split; [done|]. right.
    destruct Hn as [->|Hn].
    { apply app_inj_tail in Heq as [_ ?]. done. }
    destruct post0; [done|]. done.
Qed.

Lemma building_fold (l res : list ascii) :
  building res -> building (fold_left norm_step l res).
Proof.
  revert res. induction l as [|b l IH]; intros res Hres; [done|].
  simpl. apply IH. by apply building_step.
Qed.

Lemma building_first (b : ascii) : isAlpha b = true -> building [b].
Proof.
  intros Hb. split; [done|]. split.
  { constructor; [|done]. by apply isAlphaNum_name_byte, isAlpha_isAlphaNum. }
  intros pre post Heq. destruct pre as [|? [|? ?]]; simpl in Heq; [|done..].
  injection Heq as -> _. vm_compute in Hb. discriminate.
Qed.

Lemma norm_step_first (b : ascii) : isAlpha b = true -> norm_step [] b = [b].
Proof.
  intros Hb. unfold norm_step. by rewrite (isAlpha_isAlphaNum _ Hb).
Qed.

Lemma norm_step_length (res : list ascii) (b : ascii) :
  (length (norm_step res b) <= S (length res))%nat.
Proof.
  destruct (norm_step_cases res b)
    as [(_ & ->)|[(_ & _ & ->)|[(_ & _ & ->)|[(_ & _ & _ & ->)
       |(_ & _ & _ & _ & ->)]]]];
    rewrite ?length_app; simpl; try lia.
  destruct (snoc_or_nil res) as [->|(r0 & c & ->)]; simpl; [lia|].
  rewrite removelast_last, length_app. simpl. lia.
Qed.

Lemma fold_norm_step_length (l res : list ascii) :
  (length (fold_left norm_step l res) <= length res + length l)%nat.
Proof.
  revert res. induction l as [|b l IH]; intros res; simpl; [lia|].
  specialize (IH (norm_step res b)). pose proof (norm_step_length res b). lia.
Qed.

Lemma skip_non_alpha_cases (l : list ascii) :
  (skip_non_alpha l = [] /\ Forall (fun b => isAlpha b = false) l) \/
  (exists b rest, skip_non_alpha l = b :: rest /\ isAlpha b = true /\
                  (length (b :: rest) <= length l)%nat).
Proof.
  induction l as [|b l IH]; [left; by split|].
  cbn [skip_non_alpha]. destruct (isAlpha b) eqn:Hb.
  - right. exists b, l. done.
  - destruct IH as [(-> & Hall)|(b' & rest & -> & Hb' & Hlen)].
    + left. split; [done|]. by constructor.
    + right. exists b', rest. split; [done|]. split; [done|]. simpl in *. lia.
Qed.

(** Trimming the underscore at the end, if there is one, gives a
    normalized name. *)
Lemma building_trim (res : list ascii) :
  building res ->
  metric_name (String.string_of_list_ascii
                 (if Ascii.eqb (last_byte res) "_"%char
                  then removelast res else res)).
Proof.
  intros Hres. pose proof (building_nonempty _ Hres) as Hne.
  destruct Hres as (Hhd & Hall & Hus).
  unfold metric_name. cbv zeta. rewrite String.list_ascii_of_string_of_list_ascii.
  destruct (snoc_or_nil res) as [?|(r0 & c & ->)]; [done|].
  rewrite last_byte_snoc.
  destruct (Ascii.eqb_spec c "_"%char) as [->|Hl].
  - rewrite removelast_last.
    destruct (Hus r0 [] eq_refl) as (Hr0 & _).
    assert (Hr0ne : r0 <> []) by (intros ->; done).
    split; [rewrite hd_snoc in Hhd; done|]. split.
    { by apply Forall_app in Hall as [Hall _]. }
    intros pre post Heq.
    assert (Hwhole : r0 ++ ["_"%char] = pre ++ "_"%char :: (post ++ ["_"%char])).
    { rewrite Heq. by rewrite <- app_assoc. }
    destruct (Hus _ _ Hwhole) as (Hp & Hn). split; [done|].
    destruct Hn as [Hn|Hn]; [by destruct post|].
    destruct post; [done|]. done.
  - split; [done|]. split; [done|].
    intros pre post Heq. destruct (Hus _ _ Heq) as (Hp & Hn). split; [done|].
    destruct Hn as [->|Hn]; [|done].
    apply app_inj_tail in Heq as [_ ?]. done.
Qed.

(** What [normMetricNameParse] returns for a name it accepts. *)
Lemma normMetricNameParse_accepted (name out : string) :
  normMetricNameParse name = (out, true) ->
  metric_name out /\ len_str out <= len_str name /\ len_str name <= MaxNameLen.
Proof.
  unfold normMetricNameParse.
  destruct (decide (name = EmptyString)); [done|].
  destruct (MaxNameLen <? len_str name) eqn:Hmax; [done|].
  apply Z.ltb_ge in Hmax.
  destruct (skip_non_alpha_cases (String.list_ascii_of_string name))
    as [(-> & _)|(b & rest & -> & Hb & Hlen)]; [done|].
  intros [= <-]. cbn [fold_left]. rewrite (norm_step_first _ Hb).
  assert (Hbuild : building (fold_left norm_step rest [b])).
  { apply building_fold. by apply building_first. }
  split; [by apply building_trim|].
  assert (Hout : len_str (String.string_of_list_ascii
                   (if Ascii.eqb (last_byte (fold_left norm_step rest [b])) "_"
                    then removelast (fold_left norm_step rest [b])
                    else fold_left norm_step rest [b])) <= len_str name).
  { unfold len_str. rewrite <- !length_list_ascii_of_string.
    rewrite String.list_ascii_of_string_of_list_ascii.
    pose proof (fold_norm_step_length rest [b]) as Hfold.
    apply Nat2Z.inj_le.
    destruct (Ascii.eqb _ _).
    - destruct (snoc_or_nil (fold_left norm_step rest [b])) as [E|(r0 & c & E)];
        rewrite E in *; simpl in *; [lia|].
      rewrite removelast_last. rewrite length_app in Hfold. simpl in *. lia.
    - simpl in *. lia. }
  split; [done|]. lia.
Qed.

(** X10. [normMetricNameParse] refuses a name exactly when it is longer
    than 100 bytes or holds no ASCII letter (as the empty name does). It
    then returns the name as it was if it is empty or too long, and the
    empty string otherwise. *)
Theorem normMetricNameParse_refuses (name : string) :
  (snd (normMetricNameParse name) = false <->
   MaxNameLen < len_str name \/
   Forall (fun b => isAlpha b = false) (String.list_ascii_of_string name)) /\
  (snd (normMetricNameParse name) = false ->
   fst (normMetricNameParse name) =
     if decide (name = EmptyString) then name
     else if MaxNameLen <? len_str name then name else EmptyString).
Proof.
  unfold normMetricNameParse.
  destruct (decide (name = EmptyString)) as [->|Hne].
  { split; [|done]. split; [|done]. intros _. right. constructor. }
  destruct (MaxNameLen <? len_str name) eqn:Hmax.
  { split; [|done]. split; [|done]. intros _. left. by apply Z.ltb_lt. }
  apply Z.ltb_ge in Hmax.
  destruct (skip_non_alpha_cases (String.list_ascii_of_string name))
    as [(-> & Hall)|(b & rest & Hskip & Hb & Hlen)].
  { split; [|done]. split; [|done]. intros _. by right. }
  rewrite Hskip. split; [|done]. split; [done|].
  intros [?|Hall]; [lia|]. exfalso.
  destruct (skip_non_alpha_cases (String.list_ascii_of_string name))
    as [(E & _)|_]; [congruence|].
  clear -Hall Hskip Hb.
  induction Hall as [|c l Hc Hall IH]; [done|].
  cbn [skip_non_alpha] in Hskip. rewrite Hc in Hskip. by apply IH.
Qed.

(** The second loop leaves a normalized name as it is. *)
Lemma fold_norm_step_fixed (l : list ascii) :
  forall acc : list ascii,
    acc <> [] ->
    Forall (fun b => name_byte b = true) l ->
    (forall pre post : list ascii, acc ++ l = pre ++ "_"%char :: post ->
       isAlphaNum (last_byte pre) = true /\
       isAlphaNum (hd "_"%char post) = true) ->
    fold_left norm_step l acc = acc ++ l.
Proof.
  induction l as [|b l IH]; intros acc Hne Hall Hus.
  { by rewrite app_nil_r. }
  apply Forall_cons in Hall as [Hb Hall]. cbn [fold_left].
  assert (Hstep : norm_step acc b = acc ++ [b]).
  { assert (Hus_b : b = "_"%char -> isAlphaNum (last_byte acc) = true).
    { intros ->. by destruct (Hus acc l eq_refl). }
    assert (Hb_us : isAlphaNum b = false -> b <> "."%char -> b = "_"%char).
    { intros Hn Hd. unfold name_byte in Hb. rewrite Hn in Hb. simpl in Hb.
      destruct (Ascii.eqb_spec b "."%char); [done|].
      destruct (Ascii.eqb_spec b "_"%char); done. }
    destruct (norm_step_cases acc b)
      as [(_ & ->)|[(-> & Hl & _)|[(-> & _ & ->)|[(Hn & Hd & Hl & _)
         |(Hn & Hd & _ & _ & ->)]]]]; try done.
    - exfalso. destruct (snoc_or_nil acc) as [?|(a0 & c & ->)]; [done|].
      rewrite last_byte_snoc in Hl. subst c.
      destruct (Hus a0 ("."%char :: l)) as (_ & Hbad).
      { by rewrite <- app_assoc. }
      done.
    - exfalso. specialize (Hus_b (Hb_us Hn Hd)).
      destruct Hl as [Hl|Hl]; rewrite Hl in Hus_b; done.
    - by rewrite (Hb_us Hn Hd). }
  rewrite Hstep. rewrite IH.
  - by rewrite <- app_assoc.
  - by destruct acc.
  - done.
  - intros pre post Heq. apply Hus. rewrite <- Heq. by rewrite <- app_assoc.
Qed.

Lemma metric_name_fixed (name : string) :
  metric_name name -> len_str name <= MaxNameLen ->
  normMetricNameParse name = (name, true).
Proof.
  intros (Hhd & Hall & Hus) Hlen. unfold normMetricNameParse.
  destruct (String.list_ascii_of_string name) as [|b rest] eqn:Hl.
  { simpl in Hhd. vm_compute in Hhd. discriminate. }
  destruct (decide (name = EmptyString)) as [->|_]; [done|].
  apply Z.ltb_ge in Hlen. rewrite Hlen.
  cbn [hd] in Hhd. cbn [skip_non_alpha]. rewrite Hhd.
  cbn [fold_left]. rewrite (norm_step_first _ Hhd).
  apply Forall_cons in Hall as [_ Hall].
  rewrite (fold_norm_step_fixed rest [b]); [|done|done|exact Hus].
  assert (Hlast : Ascii.eqb (last_byte ([b] ++ rest)) "_"%char = false).
  { destruct (Ascii.eqb_spec (last_byte ([b] ++ rest)) "_"%char) as [E|]; [|done].
    exfalso. destruct (snoc_or_nil ([b] ++ rest)) as [?|(r0 & c & Hr)]; [done|].
    rewrite Hr, last_byte_snoc in E. subst c.
    destruct (Hus r0 [] Hr) as (_ & Hbad). done. }
  rewrite Hlast. f_equal. change ([b] ++ rest) with (b :: rest). rewrite <- Hl.
  apply String.string_of_list_ascii_of_string.
Qed.

(** X9. A name that [normMetricNameParse] accepts comes back as a
    normalized metric name: it starts with an ASCII letter, it is made of
    ASCII letters, digits, periods and underscores, every underscore
    stands between two letters or digits (so the name does not end with
    an underscore and has none next to a period or to another
    underscore); it is not empty and not longer than the name given,
    which has at most 100 bytes. *)
Theorem normMetricNameParse_shape (name out : string) :
  normMetricNameParse name = (out, true) ->
  metric_name out /\ out <> EmptyString /\
  len_str out <= len_str name /\ len_str name <= MaxNameLen.
Proof.
  intros Hrun. destruct (normMetricNameParse_accepted _ _ Hrun) as (Hm & H1 & H2).
  split; [done|]. split; [|done].
  intros ->. destruct Hm as (Hhd & _). vm_compute in Hhd. discriminate.
Qed.

(** X11. The names [normMetricNameParse] leaves as they are, are the
    normalized metric names of at most 100 bytes; and what it returns for
    a name it accepts is one of them, so that normalizing twice is
    normalizing once. *)
Theorem normMetricNameParse_fixed_points (name : string) :
  (normMetricNameParse name = (name, true) <->
   metric_name name /\ len_str name <= MaxNameLen) /\
  (forall out : string,
     normMetricNameParse name = (out, true) ->
     normMetricNameParse out = (out, true)).
Proof.
  split; [split|].
  - intros Hrun. destruct (normMetricNameParse_accepted _ _ Hrun) as (? & ? & ?).
    done.
  - intros [? ?]. by apply metric_name_fixed.
  - intros out Hrun.
    destruct (normMetricNameParse_accepted _ _ Hrun) as (? & ? & ?).
    apply metric_name_fixed; [done|lia].
Qed.

(** *** Status codes *)

Lemma byte_code_inj (a b : ascii) : byte_code a = byte_code b -> a = b.
Proof.
  unfold byte_code. intros H. apply N2Z.inj in H.
  rewrite <- (ascii_N_embedding a), <- (ascii_N_embedding b). by rewrite H.
Qed.

Lemma parse_digits_zero (l : list ascii) :
  parse_digits 0 ("0"%char :: l) = parse_digits 0 l.
Proof. reflexivity. Qed.

Lemma len_cons {A} (x : A) (l : list A) : len (x :: l) = len l + 1.
Proof. unfold len. simpl length. lia. Qed.

(** The digits read after [acc] shift it left, one decimal place each. *)
Lemma parse_digits_bounds (l : list ascii) :
  forall acc v : Z,
    0 <= acc -> parse_digits acc l = Some v ->
    Forall (fun b => is_digit b = true) l /\
    acc * 10 ^ len l <= v < (acc + 1) * 10 ^ len l.
Proof.
  induction l as [|b l IH]; intros acc v Hacc Hrun.
  { simpl in Hrun. injection Hrun as <-. split; [constructor|].
    change (len []) with 0. lia. }
  cbn [parse_digits] in Hrun. cbv zeta in Hrun.
  destruct ((48 <=? byte_code b) && (byte_code b <=? 57)) eqn:Hb; [|done].
  pose proof Hb as Hd. apply andb_true_iff in Hd as [H1 H2].
  apply Z.leb_le in H1, H2.
  apply IH in Hrun as [Hall Hv]; [|lia].
  split; [by constructor|].
  rewrite len_cons. pose proof (len_nonneg l) as Hn.
  rewrite Z.pow_add_r by lia. change (10 ^ 1) with 10.
  assert (0 < 10 ^ len l) by (apply Z.pow_pos_nonneg; lia). nia.
Qed.

(** A digit string that denotes a number from 100 to 599 is made of
    zeros followed by three digits, the first of which is 1 to 5. *)
Lemma parse_digits_status (l : list ascii) (v : Z) :
  parse_digits 0 l = Some v -> 100 <= v < 600 ->
  exists (k : nat) (d1 d2 d3 : ascii),
    l = replicate k "0"%char ++ [d1; d2; d3] /\
    49 <= byte_code d1 <= 53 /\ is_digit d2 = true /\ is_digit d3 = true.
Proof.
  induction l as [|b l IH]; intros Hrun Hv.
  { simpl in Hrun. injection Hrun as <-. lia. }
  destruct (decide (byte_code b = 48)) as [Hzero|Hnz].
  { assert (b = "0"%char) as -> by (by apply byte_code_inj).
    rewrite parse_digits_zero in Hrun.
    destruct (IH Hrun Hv) as (k & d1 & d2 & d3 & -> & ?).
    by exists (S k), d1, d2, d3. }
  cbn [parse_digits] in Hrun. cbv zeta in Hrun.
  destruct ((48 <=? byte_code b) && (byte_code b <=? 57)) eqn:Hb; [|done].
  apply andb_true_iff in Hb as [H1 H2]. apply Z.leb_le in H1, H2.
  apply parse_digits_bounds in Hrun as [Hall Hbound]; [|lia].
  destruct l as [|d2 [|d3 [|d4 l]]].
  - change (len []) with 0 in Hbound. lia.
  - change (len [d2]) with 1 in Hbound. lia.
  - change (len [d2; d3]) with 2 in Hbound.
    exists 0%nat, b, d2, d3. split; [done|].
    apply Forall_cons in Hall as [? Hall]. apply Forall_cons in Hall as [? _].
    split; [lia|done].
  - rewrite !len_cons in Hbound. pose proof (len_nonneg l) as Hn.
    rewrite !Z.pow_add_r in Hbound by lia. change (10 ^ 1) with 10 in Hbound.
    assert (0 < 10 ^ len l) by (apply Z.pow_pos_nonneg; lia). nia.
Qed.

Lemma parse_digits_zeros (k : nat) (l : list ascii) :
  parse_digits 0 (replicate k "0"%char ++ l) = parse_digits 0 l.
Proof. induction k as [|k IH]; [done|]. simpl replicate. exact IH. Qed.

(** X12. A status code is valid exactly when it is written as any number
    of zeros followed by three decimal digits, the first of which is 1 to
    5: a sign, a blank or any other byte makes it invalid. *)
Theorem isValidStatusCode_three_digits (sc : string) :
  isValidStatusCode sc = true <->
  exists (k : nat) (d1 d2 d3 : ascii),
    String.list_ascii_of_string sc = replicate k "0"%char ++ [d1; d2; d3] /\
    49 <= byte_code d1 <= 53 /\ is_digit d2 = true /\ is_digit d3 = true.
Proof.
  unfold isValidStatusCode, ParseUint. split.
  - destruct (String.list_ascii_of_string sc) as [|b l] eqn:Hl; [done|].
    destruct (parse_digits 0 (b :: l)) as [v|] eqn:Hrun; [|done].
    destruct (v <? 2 ^ 64); [|done].
    intros Hv. apply andb_true_iff in Hv as [H1 H2].
    apply Z.leb_le in H1. apply Z.ltb_lt in H2.
    by apply (parse_digits_status _ v).
  - intros (k & d1 & d2 & d3 & -> & Hd1 & Hd2 & Hd3).
    unfold is_digit in Hd2, Hd3.
    assert (Hrun : parse_digits 0 (replicate k "0"%char ++ [d1; d2; d3])
                   = Some ((byte_code d1 - 48) * 100 + (byte_code d2 - 48) * 10
                           + (byte_code d3 - 48))).
    { rewrite parse_digits_zeros. cbn [parse_digits]. cbv zeta.
      assert ((48 <=? byte_code d1) && (byte_code d1 <=? 57) = true) as ->.
      { apply andb_true_iff. split; apply Z.leb_le; lia. }
      rewrite Hd2, Hd3. f_equal. lia. }
    apply andb_true_iff in Hd2 as [? ?], Hd3 as [? ?].
    assert (Hlt : ((byte_code d1 - 48) * 100 + (byte_code d2 - 48) * 10
                   + (byte_code d3 - 48) <? 2 ^ 64) = true) by (apply Z.ltb_lt; lia).
    destruct (replicate k "0"%char ++ [d1; d2; d3]) as [|b l] eqn:Hl.
    { by destruct k. }
    rewrite Hrun, Hlt. apply andb_true_iff. split; [apply Z.leb_le|apply Z.ltb_lt]; lia.
Qed.

End MetricNameFacts.

Section NormalizerFacts.
Import Model MetricName Normalized.

Variable NormalizeTag : string -> string.
Variable now : Z.

Notation "'Normalize'" := (Model.Normalize NormalizeTag now).
Notation "'NormalizeTrace'" := (Model.NormalizeTrace NormalizeTag now).
Notation "'normalize_spans'" := (Model.normalize_spans NormalizeTag now).
Notation "'accepts'" := (Normalized.accepts NormalizeTag now).
Notation "'normalized'" := (Normalized.normalized NormalizeTag).
Notation "'well_formed'" := (Normalized.well_formed now).
Notation "'normalize_env'" := (Normalized.normalize_env NormalizeTag).

Ltac span_fields :=
  cbn [Service Name Resource TraceID SpanID ParentID Start Duration Type_ Meta
       set_Service set_Name set_ParentID set_Meta fst snd negb].

(** [Normalize] accepts a span exactly when the span passes its checks,
    and the span is then [normalized]. *)
Lemma Normalize_accepted_iff (s r : Span) :
  Normalize s = (r, None) <-> accepts s /\ r = normalized s.
Proof.
  unfold Model.Normalize, Normalized.accepts, Normalized.normalized,
    Normalized.normalize_env, check_status_code, self_parent.
  destruct (decide (Service s = EmptyString)) as [|H1]; [split; [done|tauto]|].
  destruct (MaxServiceLen <? len_str (Service s)) eqn:H2.
  { split; [done|]. apply Z.ltb_lt in H2. intros [? _]. lia. }
  apply Z.ltb_ge in H2. cbv zeta. span_fields.
  destruct (decide (NormalizeTag (Service s) = EmptyString)) as [|H3];
    [split; [done|tauto]|].
  destruct (decide (Name s = EmptyString)) as [|H4]; [split; [done|tauto]|].
  destruct (MaxNameLen <? len_str (Name s)) eqn:H5.
  { split; [done|]. apply Z.ltb_lt in H5. intros [? _]. lia. }
  apply Z.ltb_ge in H5.
  destruct (normMetricNameParse (Name s)) as [name ok] eqn:Hname. span_fields.
  destruct ok; span_fields; [|split; [done|intros [(_&_&_&_&_&?&_) _]; done]].
  destruct (decide (Resource s = EmptyString)) as [|H6]; [split; [done|tauto]|].
  destruct (TraceID s =? 0) eqn:H7.
  { split; [done|]. apply Z.eqb_eq in H7. tauto. }
  apply Z.eqb_neq in H7.
  destruct (SpanID s =? 0) eqn:H8.
  { split; [done|]. apply Z.eqb_eq in H8. tauto. }
  apply Z.eqb_neq in H8.
  assert (Hfields : forall b : bool,
            let s' := if b then set_ParentID 0 (set_Name name
                                  (set_Service (NormalizeTag (Service s)) s))
                      else set_Name name (set_Service (NormalizeTag (Service s)) s) in
            Start s' = Start s /\ Duration s' = Duration s /\
            Type_ s' = Type_ s /\ Meta s' = Meta s).
  { by intros []. }
  specialize (Hfields ((ParentID s =? TraceID s) && (ParentID s =? SpanID s))).
  cbv zeta in Hfields. destruct Hfields as (E1 & E2 & E3 & E4).
  rewrite E1, E2, E3, E4.
  destruct (Start s <? Year2000NanosecTS) eqn:H9.
  { split; [done|]. apply Z.ltb_lt in H9. intros [? _]. lia. }
  apply Z.ltb_ge in H9.
  destruct (end_date_limit now <? Int64.add (Start s) (Duration s)) eqn:H10.
  { split; [done|]. apply Z.ltb_lt in H10. intros [? _]. lia. }
  apply Z.ltb_ge in H10.
  destruct (Duration s <=? 0) eqn:H11.
  { split; [done|]. apply Z.leb_le in H11. intros [? _]. lia. }
  apply Z.leb_gt in H11.
  destruct (MaxTypeLen <? len_str (Type_ s)) eqn:H12.
  { split; [done|]. apply Z.ltb_lt in H12. intros [? _]. lia. }
  apply Z.ltb_ge in H12.
  assert (Hacc : Service s <> EmptyString /\ len_str (Service s) <= MaxServiceLen /\
                 NormalizeTag (Service s) <> EmptyString /\
                 Name s <> EmptyString /\ len_str (Name s) <= MaxNameLen /\
                 true = true /\
                 Resource s <> EmptyString /\ TraceID s <> 0 /\ SpanID s <> 0 /\
                 Year2000NanosecTS <= Start s /\
                 Int64.add (Start s) (Duration s) <= end_date_limit now /\
                 0 < Duration s /\ len_str (Type_ s) <= MaxTypeLen) by done.
  assert (Hr : forall x : Span, (x, @None SpanError) = (r, None) <-> r = x).
  { intros x. split; [by intros [= ->]|by intros ->]. }
  destruct ((ParentID s =? TraceID s) && (ParentID s =? SpanID s));
    destruct (Meta s !! "env"%string) as [env|] eqn:Henv;
    span_fields;
    match goal with
    | |- context [match ?m !! "http.status_code"%string with _ => _ end] =>
        destruct (m !! "http.status_code"%string) as [sc|] eqn:Hsc;
        [destruct (isValidStatusCode sc)|]
    end;
    rewrite Hr; (split; [intros ->; split; [exact Hacc|reflexivity]|by intros [_ ->]]).
Qed.


Lemma normalize_env_lookup (m : gmap string string) (k : string) :
  normalize_env m !! k =
    if decide (k = "env"%string) then NormalizeTag <$> m !! k else m !! k.
Proof.
  unfold Normalized.normalize_env.
  destruct (decide (k = "env"%string)) as [->|Hk].
  - destruct (m !! "env"%string) as [env|] eqn:E.
    + by rewrite lookup_insert_eq.
    + by rewrite E.
  - destruct (m !! "env"%string); [|done]. by rewrite lookup_insert_ne.
Qed.

Lemma check_status_code_lookup (m : gmap string string) (k : string) :
  check_status_code m !! k =
    if decide (k = "http.status_code"%string)
    then match m !! k with
         | Some sc => if isValidStatusCode sc then Some sc else None
         | None => None
         end
    else m !! k.
Proof.
  unfold check_status_code.
  destruct (decide (k = "http.status_code"%string)) as [->|Hk].
  - destruct (m !! "http.status_code"%string) as [sc|] eqn:E; [|done].
    destruct (isValidStatusCode sc); [done|]. by rewrite lookup_delete_eq.
  - destruct (m !! "http.status_code"%string) as [sc|]; [|done].
    destruct (isValidStatusCode sc); [done|]. by rewrite lookup_delete_ne.
Qed.

(** The two steps on [Meta] change nothing the second time, when the tag
    normalizer changes nothing the second time. *)
Lemma normalize_meta_twice (m : gmap string string) :
  (forall x : string, NormalizeTag (NormalizeTag x) = NormalizeTag x) ->
  check_status_code (normalize_env (check_status_code (normalize_env m)))
  = check_status_code (normalize_env m).
Proof.
  intros Hidem. apply map_eq. intros k.
  rewrite !check_status_code_lookup, !normalize_env_lookup,
          !check_status_code_lookup, !normalize_env_lookup.
  repeat case_decide; subst; try done.
  - destruct (m !! "http.status_code"%string) as [sc|]; [|done].
    destruct (isValidStatusCode sc) eqn:Hv; [|done]. by rewrite Hv.
  - destruct (m !! "env"%string); [|done]. simpl. by rewrite Hidem.
Qed.

Lemma self_parent_normalized (s : Span) :
  TraceID s <> 0 -> self_parent (normalized s) = false.
Proof.
  intros Ht. unfold self_parent, Normalized.normalized. span_fields.
  fold (self_parent s). destruct (self_parent s) eqn:E; [|exact E].
  destruct (0 =? TraceID s) eqn:Hz; [|done]. apply Z.eqb_eq in Hz. done.
Qed.

Lemma metric_name_nonempty (name : string) : metric_name name -> name <> EmptyString.
Proof. intros (Hhd & _) ->. vm_compute in Hhd. discriminate. Qed.

Lemma normalized_well_formed (s : Span) : accepts s -> well_formed (normalized s).
Proof.
  intros (A1 & A2 & A3 & A4 & A5 & A6 & A7 & A8 & A9 & A10 & A11 & A12 & A13).
  destruct (normMetricNameParse (Name s)) as [out ok] eqn:Hname.
  simpl in A6. subst ok.
  destruct (normMetricNameParse_accepted _ _ Hname) as (Hm & Hl1 & Hl2).
  unfold Normalized.well_formed.
  split; [done|]. split; [by unfold Normalized.normalized; rewrite Hname|].
  split; [unfold Normalized.normalized; rewrite Hname; span_fields; lia|].
  split; [done|]. split; [done|]. split; [done|].
  split; [by apply self_parent_normalized|].
  split; [done|]. split; [done|]. split; [done|]. split; [done|].
  intros sc. unfold Normalized.normalized. span_fields.
  rewrite check_status_code_lookup.
  destruct (decide _) as [_|]; [|done].
  destruct (normalize_env (Meta s) !! "http.status_code"%string) as [sc0|]; [|done].
  destruct (isValidStatusCode sc0) eqn:Hv; [|done]. by intros [= <-].
Qed.

(** X13. A span that [Normalize] accepts is well formed afterwards: its
    [Service] is the normalized tag and is not empty, its [Name] is a
    normalized metric name of at most 100 bytes, [Resource] is not empty,
    [TraceID] and [SpanID] are not zero, the span is not its own parent,
    it starts in or after the year 2000, lasts a positive time, does not
    end (in 64-bit arithmetic) after the limit, its [Type] has at most 100
    bytes, its [env] is the normalized tag of the one it had, and a status
    code, if it still has one, is valid. *)
Theorem Normalize_accepted_well_formed (s r : Span) :
  Normalize s = (r, None) ->
  well_formed r /\
  Service r = NormalizeTag (Service s) /\
  Name r = fst (normMetricNameParse (Name s)) /\
  Meta r !! "env"%string = NormalizeTag <$> Meta s !! "env"%string.
Proof.
  intros Hrun. apply Normalize_accepted_iff in Hrun as [Hacc ->].
  split; [by apply normalized_well_formed|]. split; [done|]. split; [done|].
  unfold Normalized.normalized. span_fields.
  rewrite check_status_code_lookup, normalize_env_lookup.
  destruct (decide ("env"%string = "http.status_code"%string)); [done|].
  by destruct (decide ("env"%string = "env"%string)).
Qed.

(** A span that has passed the checks passes them again once normalized,
    and normalizing it again changes nothing. *)
Lemma normalized_fixed (s : Span) :
  (forall x : string, NormalizeTag (NormalizeTag x) = NormalizeTag x) ->
  accepts s ->
  len_str (NormalizeTag (Service s)) <= MaxServiceLen ->
  accepts (normalized s) /\ normalized (normalized s) = normalized s.
Proof.
  intros Hidem Hacc Hlen.
  pose proof (normalized_well_formed s Hacc) as Hwf.
  destruct Hacc as (A1 & A2 & A3 & A4 & A5 & A6 & A7 & A8 & A9 & A10 & A11 & A12 & A13).
  destruct Hwf as (W1 & W2 & W3 & W4 & W5 & W6 & W7 & W8 & W9 & W10 & W11 & W12).
  pose proof (metric_name_fixed _ W2 W3) as Hfix.
  split.
  - unfold Normalized.accepts.
    split; [done|]. split; [done|].
    split; [by unfold Normalized.normalized; span_fields; rewrite Hidem|].
    split; [by apply metric_name_nonempty|]. split; [done|].
    split; [by rewrite Hfix|]. done.
  - unfold Normalized.normalized at 1. rewrite W7, Hfix.
    unfold Normalized.normalized. span_fields.
    rewrite Hidem, normalize_meta_twice by done. reflexivity.
Qed.

(** X15. Normalizing a span that has been accepted accepts it again and
    changes nothing, provided the tag normalizer changes nothing the second
    time and the normalized [Service] still has at most 100 bytes. *)
Theorem Normalize_idempotent (s r : Span) :
  (forall x : string, NormalizeTag (NormalizeTag x) = NormalizeTag x) ->
  Normalize s = (r, None) ->
  len_str (Service r) <= MaxServiceLen ->
  Normalize r = (r, None).
Proof.
  intros Hidem Hrun Hlen. apply Normalize_accepted_iff in Hrun as [Hacc ->].
  apply Normalize_accepted_iff.
  destruct (normalized_fixed s Hidem Hacc Hlen) as [? ?]. done.
Qed.

(** Case analysis along the checks of [Normalize], down to the span and
    the error it returns. *)
Ltac normalize_branches :=
  unfold Model.Normalize;
  repeat (match goal with
          | |- context [decide ?P] => destruct (decide P)
          | |- context [normMetricNameParse ?n] =>
              destruct (normMetricNameParse n) as [? []]
          | |- context [(ParentID ?a =? TraceID ?a) && (ParentID ?a =? SpanID ?a)] =>
              destruct ((ParentID a =? TraceID a) && (ParentID a =? SpanID a)) eqn:?
          | |- context [if ?c then _ else _] => destruct c eqn:?
          | |- context [match ?m !! ?k with _ => _ end] => destruct (m !! k) eqn:?
          end;
          simpl;
          rewrite ?Meta_set_Meta, ?Meta_set_ParentID, ?Meta_set_Name,
                  ?Meta_set_Service).

(** [Normalize] assigns [Service], [Name], [ParentID] and two keys of
    [Meta], and nothing else, whether it accepts the span or not. *)
Lemma Normalize_same_but (s : Span) : same_but_normalized s (fst (Normalize s)).
Proof.
  unfold same_but_normalized. normalize_branches;
    (repeat split; try reflexivity; intros k Hk1 Hk2;
     rewrite ?lookup_delete_ne, ?lookup_insert_ne by done; reflexivity).
Qed.

(** X14. What a call of [Normalize] changes, whether it accepts the span
    or not. [Resource], [TraceID], [SpanID], [Start], [Duration], [Type] and
    every key of [Meta] other than [env] and [http.status_code] are as they
    were; [Service] is as it was or its normalized tag; [Name] is as it was
    or what [normMetricNameParse] returned for it; [ParentID] is as it was,
    or zero when the span was its own parent; and [Meta] is untouched
    altogether when the span is rejected. *)
Theorem Normalize_changes_only (s : Span) :
  let r := fst (Normalize s) in
  same_but_normalized s r /\
  (Service r = Service s \/ Service r = NormalizeTag (Service s)) /\
  (Name r = Name s \/ Name r = fst (normMetricNameParse (Name s))) /\
  (ParentID r = ParentID s \/
   (ParentID r = 0 /\ ParentID s = TraceID s /\ ParentID s = SpanID s)) /\
  (snd (Normalize s) <> None -> Meta r = Meta s).
Proof.
  intros r. split; [apply Normalize_same_but|]. subst r.
  assert (Hself : (ParentID s =? TraceID s) && (ParentID s =? SpanID s) = true ->
                  ParentID s = TraceID s /\ ParentID s = SpanID s).
  { intros H. apply andb_true_iff in H as [H1 H2]. by apply Z.eqb_eq in H1, H2. }
  normalize_branches;
    (split; [first [by left|by right]|]; split; [first [by left|by right]|];
     split; [first [by left | right; split; [reflexivity|by apply Hself]]|]; done).
Qed.


(** *** Traces *)

Lemma same_but_normalized_refl (s : Span) : same_but_normalized s s.
Proof. by repeat split. Qed.

(** The loop of [NormalizeTrace] on spans it has no ground to reject. *)
Lemma normalize_spans_accepts (traceID : Z) (todo : Trace) :
  forall (spanIDs : gset Z) (done : Trace),
    NoDup (map SpanID todo) ->
    Forall (fun span => (SpanID span ∉ spanIDs) /\ TraceID span = traceID /\
                        snd (Normalize span) = None) todo ->
    normalize_spans traceID spanIDs done todo
    = (done ++ map (fun span => fst (Normalize span)) todo, None).
Proof.
  induction todo as [|span rest IH]; intros spanIDs dn Hnd Hall.
  { by rewrite app_nil_r. }
  apply Forall_cons in Hall as [(Hnew & Htid & Hok) Hall].
  change (map SpanID (span :: rest)) with (SpanID span :: map SpanID rest) in Hnd.
  apply NoDup_cons in Hnd as [Hfresh Hnd].
  cbn [Model.normalize_spans].
  destruct (decide (SpanID span ∈ spanIDs)); [done|].
  apply Z.eqb_eq in Htid. rewrite Htid. cbn [negb].
  destruct (Normalize span) as [span' e] eqn:Hnorm. simpl in Hok. subst e.
  rewrite IH.
  - cbn [map]. rewrite Hnorm. cbn [fst]. by rewrite <- app_assoc.
  - done.
  - rewrite Forall_forall in Hall |- *. intros other Hin.
    destruct (Hall other Hin) as (Ho & ? & ?). split; [|done].
    intros Hmem. apply elem_of_union in Hmem as [Hmem|Hmem]; [|done].
    apply elem_of_singleton in Hmem. apply Hfresh.
    rewrite <- Hmem. apply list_elem_of_fmap. by exists other.
Qed.

Lemma NormalizeTrace_accepts (t : Trace) :
  t <> [] -> NoDup (map SpanID t) ->
  Forall (fun span => Some (TraceID span) = TraceID <$> head t /\
                      snd (Normalize span) = None) t ->
  NormalizeTrace t = (map (fun span => fst (Normalize span)) t, None).
Proof.
  intros Hne Hnd Hall. destruct t as [|first rest]; [done|].
  unfold Model.NormalizeTrace. rewrite normalize_spans_accepts; [done|done|].
  eapply Forall_impl; [exact Hall|]. simpl. intros span ([= ->] & ?).
  split; [set_solver|done].
Qed.

(** X16. [NormalizeTrace] accepts a trace exactly when the trace is not
    empty, no two of its spans have the same [SpanID], every span has the
    [TraceID] of the first one and [Normalize] accepts every span; the
    trace it returns is then made of the normalized spans, in the order
    they had. *)
Theorem NormalizeTrace_accepts_iff (t r : Trace) :
  NormalizeTrace t = (r, None) <->
  t <> [] /\
  NoDup (map SpanID t) /\
  Forall (fun span => Some (TraceID span) = TraceID <$> head t /\
                      snd (Normalize span) = None) t /\
  r = map (fun span => fst (Normalize span)) t.
Proof.
  split.
  - intros Hrun.
    destruct (NormalizeTrace_accepted NormalizeTag now t r Hrun) as (Hne & Hnd & Hall).
    split; [done|]. split; [done|]. split; [done|].
    rewrite (NormalizeTrace_accepts t Hne Hnd Hall) in Hrun. by injection Hrun.
  - intros (Hne & Hnd & Hall & ->). by apply NormalizeTrace_accepts.
Qed.

(** The trace the loop of [NormalizeTrace] hands back when it stops at a
    span: the spans before that one have passed every check, that one
    fails a check, and the error says which. *)
Lemma normalize_spans_rejected (traceID : Z) (todo : Trace) :
  forall (spanIDs : gset Z) (dn : Trace),
    snd (normalize_spans traceID spanIDs dn todo) <> None ->
    exists (good : Trace) (bad bad' : Span) (rest : Trace),
      todo = good ++ bad :: rest /\
      NoDup (map SpanID good) /\
      Forall (fun span => (SpanID span ∉ spanIDs) /\ TraceID span = traceID /\
                          snd (Normalize span) = None) good /\
      (((SpanID bad ∈ spanIDs \/ SpanID bad ∈ map SpanID good) /\ bad' = bad /\
        snd (normalize_spans traceID spanIDs dn todo)
        = Some (DuplicateSpanID (SpanID bad))) \/
       ((SpanID bad ∉ spanIDs) /\ (SpanID bad ∉ map SpanID good) /\
        TraceID bad <> traceID /\ bad' = bad /\
        snd (normalize_spans traceID spanIDs dn todo) = Some TraceIDMismatch) \/
       ((SpanID bad ∉ spanIDs) /\ (SpanID bad ∉ map SpanID good) /\
        TraceID bad = traceID /\
        exists err, Normalize bad = (bad', Some err) /\
                    snd (normalize_spans traceID spanIDs dn todo)
                    = Some (InvalidSpan err))) /\
      fst (normalize_spans traceID spanIDs dn todo)
      = dn ++ map (fun span => fst (Normalize span)) good ++ bad' :: rest.
Proof.
  induction todo as [|span rest IH]; intros spanIDs dn Hrej; [done|].
  cbn [Model.normalize_spans] in Hrej |- *.
  destruct (decide (SpanID span ∈ spanIDs)) as [Hin|Hnew].
  { exists [], span, span, rest. split; [done|]. split; [constructor|].
    split; [done|]. split; [|done]. left. split; [by left|done]. }
  destruct (TraceID span =? traceID) eqn:Htid; cbn [negb] in Hrej |- *; cycle 1.
  { apply Z.eqb_neq in Htid.
    exists [], span, span, rest. split; [done|]. split; [constructor|].
    split; [done|]. split; [|done]. right; left.
    split; [done|]. split; [by intros ?%elem_of_nil|]. done. }
  apply Z.eqb_eq in Htid.
  destruct (Normalize span) as [span' [err|]] eqn:Hnorm.
  { exists [], span, span', rest. split; [done|]. split; [constructor|].
    split; [done|]. split; [|done]. right; right.
    split; [done|]. split; [by intros ?%elem_of_nil|]. split; [done|].
    by exists err. }
  destruct (IH _ _ Hrej)
    as (good & bad & bad' & rest' & -> & Hnd & Hgood & Hbad & Hfst).
  assert (Hfresh : SpanID span ∉ map SpanID good).
  { intros Hmem. apply list_elem_of_fmap in Hmem as (other & Heq & Hother).
    rewrite Forall_forall in Hgood. destruct (Hgood other Hother) as (Hnot & _).
    apply Hnot. rewrite <- Heq. apply elem_of_union. left.
    by apply elem_of_singleton. }
  exists (span :: good), bad, bad', rest'.
  split; [done|]. split; [cbn [map]; by constructor|]. split.
  { constructor; [by rewrite Hnorm|].
    eapply Forall_impl; [exact Hgood|]. intros other (Hnot & ? & ?).
    split; [|done]. intros Hmem. apply Hnot, elem_of_union. by right. }
  split.
  - destruct Hbad as [(Hdup & ? & ?)|[(Hn1 & Hn2 & ? & ? & ?)|(Hn1 & Hn2 & ? & ?)]].
    + left. split; [|done]. cbn [map]. rewrite elem_of_cons.
      destruct Hdup as [Hdup|Hdup]; [|by right; right].
      apply elem_of_union in Hdup as [Hdup|Hdup]; [|by left].
      apply elem_of_singleton in Hdup. right; left. done.
    + right; left. split; [|split; [|done]].
      * intros Hmem. apply Hn1, elem_of_union. by right.
      * cbn [map]. rewrite elem_of_cons. intros [Heq|Hmem]; [|done].
        apply Hn1, elem_of_union. left. by apply elem_of_singleton.
    + right; right. split; [|split; [|done]].
      * intros Hmem. apply Hn1, elem_of_union. by right.
      * cbn [map]. rewrite elem_of_cons. intros [Heq|Hmem]; [|done].
        apply Hn1, elem_of_union. left. by apply elem_of_singleton.
  - rewrite Hfst. cbn [map]. rewrite Hnorm. cbn [fst].
    by rewrite <- app_assoc.
Qed.

(** X17. When [NormalizeTrace] rejects a trace that is not empty, the
    trace it leaves to the caller is not the one it was given. The loop
    has stopped at the first span that fails a check: the spans before it
    have distinct [SpanID]s, the [TraceID] of the first span, and were
    accepted by [Normalize]; they come back normalized. The span it
    stopped at has the [SpanID] of an earlier span (it comes back
    untouched, the error is the duplicate id), or else a [TraceID] other
    than that of the first span (it comes back untouched, the error is the
    mismatch), or else is refused by [Normalize] (it comes back with the
    assignments [Normalize] made before its failing check, the error is
    that of [Normalize]). The spans after it come back untouched. *)
Theorem NormalizeTrace_rejected_shape (t : Trace) :
  t <> [] ->
  snd (NormalizeTrace t) <> None ->
  exists (good : Trace) (bad bad' : Span) (rest : Trace),
    t = good ++ bad :: rest /\
    NoDup (map SpanID good) /\
    Forall (fun span => Some (TraceID span) = TraceID <$> head t /\
                        snd (Normalize span) = None) good /\
    ((SpanID bad ∈ map SpanID good /\ bad' = bad /\
      snd (NormalizeTrace t) = Some (DuplicateSpanID (SpanID bad))) \/
     ((SpanID bad ∉ map SpanID good) /\
      Some (TraceID bad) <> TraceID <$> head t /\ bad' = bad /\
      snd (NormalizeTrace t) = Some TraceIDMismatch) \/
     ((SpanID bad ∉ map SpanID good) /\
      Some (TraceID bad) = TraceID <$> head t /\
      exists err, Normalize bad = (bad', Some err) /\
                  snd (NormalizeTrace t) = Some (InvalidSpan err))) /\
    fst (NormalizeTrace t)
    = map (fun span => fst (Normalize span)) good ++ bad' :: rest.
Proof.
  intros Hne Hrej. destruct t as [|first tl]; [done|].
  unfold Model.NormalizeTrace in *.
  destruct (normalize_spans_rejected _ _ _ _ Hrej)
    as (good & bad & bad' & rest & Heq & Hnd & Hgood & Hbad & Hfst).
  exists good, bad, bad', rest.
  split; [done|]. split; [done|]. split.
  { eapply Forall_impl; [exact Hgood|]. simpl. intros span (_ & -> & ?). done. }
  split; [|done]. simpl.
  destruct Hbad as [([Hdup|Hdup] & ? & ?)|[(_ & Hn & Htid & ? & ?)|(_ & Hn & Htid & ?)]].
  - set_solver.
  - by left.
  - right; left. split; [done|]. split; [congruence|done].
  - right; right. split; [done|]. split; [by rewrite Htid|done].
Qed.

Lemma normalize_spans_same_but (traceID : Z) (todo : Trace) :
  forall (spanIDs : gset Z) (done0 done : Trace),
    Forall2 same_but_normalized done0 done ->
    Forall2 same_but_normalized (done0 ++ todo)
            (fst (normalize_spans traceID spanIDs done todo)).
Proof.
  assert (Hrefl : forall l : Trace, Forall2 same_but_normalized l l).
  { intros l. apply Forall2_same_length_lookup_2; [done|].
    intros i x y Hx Hy. rewrite Hx in Hy. injection Hy as ->.
    apply same_but_normalized_refl. }
  induction todo as [|span rest IH]; intros spanIDs dn0 dn Hdone.
  { by rewrite app_nil_r. }
  cbn [Model.normalize_spans].
  destruct (decide (SpanID span ∈ spanIDs)).
  { apply Forall2_app; [done|apply Hrefl]. }
  destruct (negb (TraceID span =? traceID)).
  { apply Forall2_app; [done|apply Hrefl]. }
  pose proof (Normalize_same_but span) as Hspan.
  destruct (Normalize span) as [span' [err|]] eqn:Hnorm; cbn [fst] in *.
  { apply Forall2_app; [done|]. constructor; [done|apply Hrefl]. }
  replace (dn0 ++ span :: rest) with ((dn0 ++ [span]) ++ rest)
    by (by rewrite <- app_assoc).
  apply IH. apply Forall2_app; [done|]. by constructor.
Qed.

(** X18. [NormalizeTrace] never drops, adds or reorders spans: accepted or
    not, the trace it returns has the spans of the trace it was given, one
    for one, each with the [Resource], [TraceID], [SpanID], [Start],
    [Duration] and [Type] it had and with the [Meta] it had apart from the
    keys [env] and [http.status_code]. *)
Theorem NormalizeTrace_keeps_spans (t : Trace) :
  Forall2 same_but_normalized t (fst (NormalizeTrace t)) /\
  length (fst (NormalizeTrace t)) = length t /\
  map SpanID (fst (NormalizeTrace t)) = map SpanID t.
Proof.
  assert (Hall : Forall2 same_but_normalized t (fst (NormalizeTrace t))).
  { destruct t as [|first rest]; [constructor|].
    unfold Model.NormalizeTrace.
    apply (normalize_spans_same_but _ (first :: rest) _ [] []). constructor. }
  split; [done|]. split; [symmetry; by eapply Forall2_length|].
  induction Hall as [|s r l l' (_ & _ & Hid & _) _ IH]; [done|].
  cbn [map]. by rewrite Hid, IH.
Qed.

(** X19. A trace that [NormalizeTrace] has accepted is accepted again and
    comes back as it is, provided the tag normalizer changes nothing the
    second time and the normalized [Service] of every span still has at
    most 100 bytes. *)
Theorem NormalizeTrace_idempotent (t r : Trace) :
  (forall x : string, NormalizeTag (NormalizeTag x) = NormalizeTag x) ->
  NormalizeTrace t = (r, None) ->
  Forall (fun span => len_str (Service span) <= MaxServiceLen) r ->
  NormalizeTrace r = (r, None).
Proof.
  intros Hidem Hrun Hlen.
  destruct (NormalizeTrace_accepted NormalizeTag now t r Hrun) as (Hne & Hnd & Hall).
  rewrite (NormalizeTrace_accepts t Hne Hnd Hall) in Hrun. injection Hrun as <-.
  set (f := fun span : Span => fst (Normalize span)) in *.
  assert (Hids : forall span, SpanID (f span) = SpanID span /\
                              TraceID (f span) = TraceID span).
  { intros span. destruct (Normalize_same_but span) as (_ & ? & ? & _). done. }
  assert (Hnorm : forall span, span ∈ t -> Normalize (f span) = (f span, None)).
  { intros span Hin. rewrite Forall_forall in Hall, Hlen.
    destruct (Hall span Hin) as (_ & Hok).
    assert (Hl : len_str (Service (f span)) <= MaxServiceLen).
    { apply Hlen. apply list_elem_of_fmap. by exists span. }
    subst f. cbv beta in *.
    destruct (Normalize span) as [span' e] eqn:Hspan. simpl in Hok. subst e.
    cbn [fst] in *.
    apply Normalize_accepted_iff in Hspan as [Hacc ->].
    apply Normalize_accepted_iff.
    destruct (normalized_fixed span Hidem Hacc Hl) as [? ?]. done. }
  rewrite NormalizeTrace_accepts.
  - f_equal. rewrite map_map. apply map_ext_in. intros span Hin.
    apply list_elem_of_In in Hin. fold f. by rewrite (Hnorm span Hin).
  - by destruct t.
  - rewrite map_map. erewrite map_ext; [exact Hnd|]. intros span. apply Hids.
  - rewrite Forall_forall in Hall |- *. intros span' Hin'.
    apply list_elem_of_fmap in Hin' as (span & -> & Hin).
    destruct (Hall span Hin) as (Htid & _). split.
    + destruct t as [|first rest]; [done|]. simpl in *.
      destruct (Hids span) as [_ ->]. destruct (Hids first) as [_ ->]. done.
    + by rewrite (Hnorm span Hin).
Qed.

End NormalizerFacts.

(** ** The further properties of the normalizer on sample inputs *)

Section NormalizerFactsExamples.
Import Model MetricName Normalized Examples Samples.

(** The name of the sample span. *)
Lemma normMetricNameParse_shape_witness :
  normMetricNameParse "_http request_" = ("http_request"%string, true) /\
  metric_name "http_request".
Proof.
  assert (H : normMetricNameParse "_http request_" = ("http_request"%string, true))
    by (vm_compute; reflexivity).
  split; [exact H|].
  exact (proj1 (normMetricNameParse_shape _ _ H)).
Defined.

(** Normalizing the normalized name of the sample span. *)
Lemma normMetricNameParse_fixed_points_witness :
  normMetricNameParse "_http request_" = ("http_request"%string, true) /\
  normMetricNameParse "http_request" = ("http_request"%string, true).
Proof.
  assert (H : normMetricNameParse "_http request_" = ("http_request"%string, true))
    by (vm_compute; reflexivity).
  split; [exact H|].
  exact (proj2 (normMetricNameParse_fixed_points "_http request_") _ H).
Defined.

(** 404 with a leading zero. *)
Lemma isValidStatusCode_three_digits_witness :
  isValidStatusCode "0404" = true.
Proof.
  apply (proj2 (isValidStatusCode_three_digits "0404")).
  exists 1%nat, "4"%char, "0"%char, "4"%char.
  split; [reflexivity|]. split; [split; vm_compute; discriminate|].
  split; reflexivity.
Defined.

(** The sample span is accepted: its name is normalized, it is no longer
    its own parent and its status code is gone. *)
Lemma Normalize_accepted_well_formed_witness :
  exists r : Span,
    Normalize tag_id clock raw_span = (r, None) /\
    well_formed clock r /\ Name r = "http_request"%string /\ ParentID r = 0 /\
    Meta r !! "http.status_code"%string = None.
Proof.
  destruct (Normalize tag_id clock raw_span) as [r [e|]] eqn:Hrun;
    [vm_compute in Hrun; discriminate|].
  exists r. split; [reflexivity|].
  split; [exact (proj1 (Normalize_accepted_well_formed _ _ _ _ Hrun))|].
  vm_compute in Hrun. injection Hrun as <-. repeat split.
Defined.

(** Normalizing the sample span twice. *)
Lemma Normalize_idempotent_witness :
  exists r : Span,
    Normalize tag_id clock raw_span = (r, None) /\
    len_str (Service r) <= MaxServiceLen /\
    Normalize tag_id clock r = (r, None).
Proof.
  destruct (Normalize tag_id clock raw_span) as [r [e|]] eqn:Hrun;
    [vm_compute in Hrun; discriminate|].
  assert (Hlen : len_str (Service r) <= MaxServiceLen).
  { vm_compute in Hrun. injection Hrun as <-. vm_compute. discriminate. }
  exists r. split; [reflexivity|]. split; [exact Hlen|].
  exact (Normalize_idempotent tag_id clock raw_span r (fun x => eq_refl) Hrun Hlen).
Defined.

(** A trace of three well-formed spans is accepted. *)
Lemma NormalizeTrace_accepts_iff_witness :
  NormalizeTrace tag_id clock (spans 3)
  = (map (fun span => fst (Normalize tag_id clock span)) (spans 3), None).
Proof.
  apply (proj2 (NormalizeTrace_accepts_iff tag_id clock (spans 3) _)).
  split; [discriminate|]. split.
  { apply (bool_decide_unpack _). vm_compute. exact I. }
  split; [|reflexivity].
  repeat constructor.
Defined.

(** The broken trace is rejected at its second span, whose [Service] is
    empty: the first span has been normalized, the second and the third
    are as they were. *)
Lemma NormalizeTrace_rejected_shape_witness :
  broken_trace <> [] /\
  snd (NormalizeTrace tag_id clock broken_trace) <> None /\
  exists (good : Trace) (bad bad' : Span) (rest : Trace),
    broken_trace = good ++ bad :: rest /\
    Forall (fun span => snd (Normalize tag_id clock span) = None) good /\
    fst (NormalizeTrace tag_id clock broken_trace)
    = map (fun span => fst (Normalize tag_id clock span)) good ++ bad' :: rest.
Proof.
  assert (H1 : broken_trace <> []) by discriminate.
  assert (H2 : snd (NormalizeTrace tag_id clock broken_trace) <> None)
    by (vm_compute; discriminate).
  split; [exact H1|]. split; [exact H2|].
  destruct (NormalizeTrace_rejected_shape tag_id clock broken_trace H1 H2)
    as (good & bad & bad' & rest & Heq & _ & Hgood & _ & Hfst).
  exists good, bad, bad', rest. split; [exact Heq|]. split; [|exact Hfst].
  eapply Forall_impl; [exact Hgood|]. intros span [_ Hok]. exact Hok.
Defined.

(** Normalizing a trace of three well-formed spans twice. *)
Lemma NormalizeTrace_idempotent_witness :
  exists r : Trace,
    NormalizeTrace tag_id clock (spans 3) = (r, None) /\
    NormalizeTrace tag_id clock r = (r, None).
Proof.
  destruct (NormalizeTrace tag_id clock (spans 3)) as [r [e|]] eqn:Hrun;
    [vm_compute in Hrun; discriminate|].
  exists r. split; [reflexivity|].
  apply (NormalizeTrace_idempotent tag_id clock (spans 3) r (fun x => eq_refl) Hrun).
  vm_compute in Hrun. injection Hrun as <-.
  repeat constructor; vm_compute; discriminate.
Defined.

(** A name without a letter is refused and comes back empty. *)
Lemma normMetricNameParse_refuses_witness :
  snd (normMetricNameParse "123") = false /\
  fst (normMetricNameParse "123") = EmptyString.
Proof.
  assert (H : snd (normMetricNameParse "123") = false).
  { apply (proj2 (proj1 (normMetricNameParse_refuses "123"))).
    right. repeat constructor. }
  split; [exact H|]. exact (proj2 (normMetricNameParse_refuses "123") H).
Defined.

(** What the call leaves alone in the sample span. *)
Lemma Normalize_changes_only_witness :
  same_but_normalized raw_span (fst (Normalize tag_id clock raw_span)).
Proof. exact (proj1 (Normalize_changes_only tag_id clock raw_span)). Defined.

(** The broken trace comes back with its three spans. *)
Lemma NormalizeTrace_keeps_spans_witness :
  length (fst (NormalizeTrace tag_id clock broken_trace)) = length broken_trace /\
  map SpanID (fst (NormalizeTrace tag_id clock broken_trace))
  = map SpanID broken_trace.
Proof. exact (proj2 (NormalizeTrace_keeps_spans tag_id clock broken_trace)). Defined.

End NormalizerFactsExamples.

(** ** Further properties of the resource filter *)

Section FilterFacts.
Import Model Filters FilterConfig.
Import Writer (Outcome, Done, Panic, OutOfFuel, bind).

Variable Regexp : Type.
Variable Compile : string -> option Regexp.
Variable MatchString : Regexp -> string -> bool.
Variable ReplaceAllString : Regexp -> string -> string -> string.

Notation "'Keep'" := (Filters.Keep Regexp MatchString ReplaceAllString).
Notation "'Keep_readonly'" := (Filters.Keep_readonly Regexp MatchString).
Notation "'ApplyRegex'" := (Filters.ApplyRegex Regexp MatchString ReplaceAllString).
Notation "'apply_spans'" := (Filters.apply_spans Regexp MatchString ReplaceAllString).
Notation "'apply_searchReplace'" :=
  (Filters.apply_searchReplace Regexp MatchString ReplaceAllString).
Notation "'rewrite_url'" := (Filters.rewrite_url Regexp MatchString ReplaceAllString).
Notation "'some_rule_fires'" := (Filters.some_rule_fires Regexp MatchString ReplaceAllString).
Notation "'matches_blacklist'" := (Filters.matches_blacklist Regexp MatchString).
Notation "'rewritten'" := (Filters.rewritten MatchString ReplaceAllString).
Notation "'newResourceFilter'" := (Filters.newResourceFilter Regexp Compile).
Notation "'compileRules'" := (Filters.compileRules Regexp Compile).
Notation "'compileSearchReplace'" := (Filters.compileSearchReplace Regexp Compile).
Notation "'rule_of'" := (FilterConfig.rule_of Regexp Compile).
Notation "'nil_map_panic'" := ("assignment to entry in nil map"%string).

(** The blacklist holds the patterns that compile. *)
Lemma compileRules_elem (entries : list string) (re : Regexp) :
  re ∈ compileRules entries <->
  exists entry, entry ∈ entries /\ Compile entry = Some re.
Proof.
  induction entries as [|entry rest IH]; cbn [Filters.compileRules].
  { split; [by intros ?%elem_of_nil|]. by intros (? & ?%elem_of_nil & _). }
  destruct (Compile entry) as [rule|] eqn:Hc.
  - rewrite elem_of_cons, IH. split.
    + intros [->|(e & Hin & He)].
      * exists entry. split; [by left|done].
      * exists e. split; [by right|done].
    + intros (e & Hin & He). apply elem_of_cons in Hin as [->|Hin].
      * left. congruence.
      * right. by exists e.
  - rewrite IH. split.
    + intros (e & Hin & He). exists e. split; [by right|done].
    + intros (e & Hin & He). apply elem_of_cons in Hin as [->|Hin]; [congruence|].
      by exists e.
Qed.

Lemma matches_blacklist_elem (entries : list Regexp) (resource : string) :
  matches_blacklist entries resource = true <->
  exists re, re ∈ entries /\ MatchString re resource = true.
Proof.
  induction entries as [|entry rest IH]; cbn [Filters.matches_blacklist].
  { split; [done|]. by intros (? & ?%elem_of_nil & _). }
  destruct (MatchString entry resource) eqn:Hm.
  - split; [|done]. intros _. exists entry. split; [by left|done].
  - rewrite IH. split.
    + intros (re & Hin & Hre). exists re. split; [by right|done].
    + intros (re & Hin & Hre). apply elem_of_cons in Hin as [->|Hin]; [congruence|].
      by exists re.
Qed.

(** The search-replace maps hold the rules of the entries that stand for
    one, in the order of the configuration. *)
Lemma compileSearchReplace_rules (entries : list (list string)) :
  concat (compileSearchReplace entries) = omap rule_of entries.
Proof.
  induction entries as [|entry rest IH]; [done|].
  cbn [Filters.compileSearchReplace omap list_omap]. unfold FilterConfig.rule_of at 1.
  destruct entry as [|search [|replace [|? ?]]]; try done.
  destruct (Compile search); [|done]. cbn [concat app]. by rewrite IH.
Qed.

(** [Keep] in one expression. *)
Lemma Keep_cases (f : resourceFilter Regexp) (t : SpanPtr) :
  Keep f t =
    if matches_blacklist (blacklist _ f) (Resource (fields t)) then Done (false, t)
    else if Meta_is_nil t && some_rule_fires (concat (searchReplace _ f)) EmptyString
         then Panic nil_map_panic
         else Done (true, rewritten (concat (searchReplace _ f)) t).
Proof.
  unfold Filters.Keep. destruct (matches_blacklist _ _); [done|].
  rewrite (apply_searchReplace_cases Regexp MatchString ReplaceAllString).
  by destruct (_ && _).
Qed.

(** X20. What the filter [newResourceFilter] builds from a configuration
    does to a span. It drops the span, and leaves it as it is, exactly
    when some pattern of the ignore list compiles and matches the
    [Resource] of the span: a pattern that does not compile is left out,
    so that a list of patterns none of which compiles drops no span, and
    keeps every span whose [Meta] is not nil. It panics exactly when the
    span is not dropped, its [Meta] is nil and a search-replace rule
    matches the empty url. Otherwise it keeps the span, with the url
    rewritten by the search-replace entries that have two elements and a
    pattern that compiles, in the order of the configuration, and nothing
    else changed; the other entries have no effect. *)
Theorem newResourceFilter_Keep (ignore : list string) (regex : list (list string))
    (t : SpanPtr) :
  let f := newResourceFilter ignore regex in
  let rules := omap rule_of regex in
  let dropped := exists entry re, entry ∈ ignore /\ Compile entry = Some re /\
                                  MatchString re (Resource (fields t)) = true in
  (forall r, Keep f t = Done (false, r) <-> dropped /\ r = t) /\
  (forall reason, Keep f t = Panic reason <->
     ~ dropped /\ Meta_is_nil t = true /\ some_rule_fires rules EmptyString = true /\
     reason = nil_map_panic) /\
  (forall r, Keep f t = Done (true, r) ->
     ~ dropped /\
     http_url r = rewrite_url rules (http_url t) /\ same_but_url_ptr t r) /\
  ((forall entry, entry ∈ ignore -> Compile entry = None) ->
   (forall r, Keep f t <> Done (false, r)) /\
   (Meta_is_nil t = false -> exists r, Keep f t = Done (true, r))) /\
  Keep f t <> OutOfFuel.
Proof.
  intros f rules dropped.
  assert (Hdrop : matches_blacklist (blacklist _ f) (Resource (fields t)) = true
                  <-> dropped).
  { rewrite matches_blacklist_elem. subst f dropped. simpl. split.
    - intros (re & Hin & Hre). apply compileRules_elem in Hin as (entry & Hin & Hc).
      by exists entry, re.
    - intros (entry & re & Hin & Hc & Hre). exists re. split; [|done].
      apply compileRules_elem. by exists entry. }
  assert (Hrules : concat (searchReplace _ f) = rules).
  { subst f rules. simpl. apply compileSearchReplace_rules. }
  pose proof (Keep_cases f t) as Hrun. rewrite Hrules in Hrun.
  destruct (matches_blacklist (blacklist _ f) (Resource (fields t))) eqn:Hb.
  - (* dropped *)
    assert (Hd : dropped) by (by apply Hdrop).
    rewrite Hrun. split; [|split; [|split; [|split]]]; try done.
    + intros r. split; [by intros [= <-]|by intros [_ ->]].
    + intros reason. split; [done|]. by intros (Hnd & _).
    + intros Hnone. exfalso. destruct Hd as (entry & re & Hin & Hc & _).
      rewrite (Hnone entry Hin) in Hc. done.
  - assert (Hnd : ~ dropped).
    { intros Hd. apply Hdrop in Hd. done. }
    destruct (Meta_is_nil t && some_rule_fires rules EmptyString) eqn:Hp.
    + (* the assignment panics *)
      apply andb_true_iff in Hp as [Hnil Hfire].
      rewrite Hrun. split; [|split; [|split; [|split]]]; try done.
      * intros r. split; [done|]. by intros [? _].
      * intros reason. split; [by intros [= <-]|by intros (_ & _ & _ & ->)].
      * intros _. split; [done|]. intros Halloc. congruence.
    + (* kept *)
      assert (Hok : Meta_is_nil t = false \/ some_rule_fires rules EmptyString = false).
      { apply andb_false_iff in Hp. done. }
      destruct (rewritten_spec Regexp MatchString ReplaceAllString rules t Hok)
        as (Hu & Hs & _).
      rewrite Hrun. split; [|split; [|split; [|split]]]; try done.
      * intros r. split; [done|]. by intros [? _].
      * intros reason. split; [done|]. intros (_ & Hnil & Hfire & _).
        rewrite Hnil, Hfire in Hp. done.
      * intros r [= <-]. done.
      * intros _. split; [done|]. intros _. by eexists.
Qed.

(** [ApplyRegex] in one expression. *)
Lemma apply_spans_cases (f : resourceFilter Regexp) (t : list SpanPtr) :
  apply_spans f t =
    if existsb Meta_is_nil t && some_rule_fires (concat (searchReplace _ f)) EmptyString
    then Panic nil_map_panic
    else Done (map (rewritten (concat (searchReplace _ f))) t).
Proof.
  induction t as [|span rest IH]; [done|].
  cbn [Filters.apply_spans existsb map].
  rewrite (apply_searchReplace_cases Regexp MatchString ReplaceAllString), IH.
  destruct (some_rule_fires (concat (searchReplace _ f)) EmptyString);
    destruct (Meta_is_nil span); destruct (existsb Meta_is_nil rest); done.
Qed.

(** X21. [ApplyRegex], of the revision of the filter that rewrites apart
    from [Keep]. It panics exactly when some span of the trace has a nil
    [Meta] and a rule matches the empty url; it returns for every trace
    whose spans all have a [Meta] that is not nil. When it returns, the
    trace holds the spans it held, one for one, each with its url
    rewritten by the rules in order and nothing else changed, and the
    verdict of the read-only [Keep] on a span is the same before and
    after the rewriting, so that the order of the two calls does not
    matter. *)
Theorem ApplyRegex_keeps_verdicts (f : resourceFilter Regexp) (t : list SpanPtr) :
  let rules := concat (searchReplace _ f) in
  (forall reason, ApplyRegex f t = Panic reason <->
     Exists (fun span => Meta_is_nil span = true) t /\
     some_rule_fires rules EmptyString = true /\ reason = nil_map_panic) /\
  (Forall (fun span => Meta_is_nil span = false) t ->
   exists t', ApplyRegex f t = Done t') /\
  (forall t', ApplyRegex f t = Done t' ->
     length t' = length t /\
     Forall2 same_but_url_ptr t t' /\
     map http_url t' = map (fun span => rewrite_url rules (http_url span)) t /\
     map (Keep_readonly f) t' = map (Keep_readonly f) t) /\
  ApplyRegex f t <> OutOfFuel.
Proof.
  intros rules. unfold Filters.ApplyRegex. rewrite apply_spans_cases. fold rules.
  assert (Hnil : existsb Meta_is_nil t = true <->
                 Exists (fun span => Meta_is_nil span = true) t).
  { rewrite existsb_exists, Exists_exists. split.
    - intros (x & Hin & Hx). exists x. split; [by apply list_elem_of_In|done].
    - intros (x & Hin & Hx). exists x. split; [by apply list_elem_of_In|done]. }
  destruct (existsb Meta_is_nil t && some_rule_fires rules EmptyString) eqn:Hp.
  - apply andb_true_iff in Hp as [He Hfire].
    split; [|split; [|split]]; try done.
    + intros reason. split.
      * intros [= <-]. split; [by apply Hnil|done].
      * by intros (_ & _ & ->).
    + intros Hall. exfalso. apply Hnil in He. apply Exists_exists in He as (x & Hin & Hx).
      rewrite Forall_forall in Hall. rewrite (Hall x Hin) in Hx. done.
  - split; [|split; [|split]]; try done.
    + intros reason. split; [done|]. intros (He & Hfire & _).
      apply Hnil in He. rewrite He, Hfire in Hp. done.
    + intros _. by eexists.
    + intros t' [= <-].
      assert (Hone : forall span, span ∈ t ->
                http_url (rewritten rules span) = rewrite_url rules (http_url span) /\
                same_but_url_ptr span (rewritten rules span)).
      { intros span Hin.
        assert (Hok : Meta_is_nil span = false \/
                      some_rule_fires rules EmptyString = false).
        { apply andb_false_iff in Hp as [Hne|?]; [|by right]. left.
          destruct (Meta_is_nil span) eqn:Hs; [|done].
          assert (existsb Meta_is_nil t = true); [|congruence].
          apply Hnil, Exists_exists. by exists span. }
        destruct (rewritten_spec Regexp MatchString ReplaceAllString rules span Hok)
          as (Hu & Hs & _). done. }
      clear Hp Hnil. split; [by rewrite length_map|].
      induction t as [|span rest IH]; [by repeat split; constructor|].
      destruct IH as (IH1 & IH2 & IH3).
      { intros x Hin. apply Hone. by right. }
      destruct (Hone span) as (Hu & Hs); [by left|].
      cbn [map]. split; [by constructor|]. split; [by rewrite Hu, IH2|].
      rewrite IH3. f_equal. unfold Filters.Keep_readonly.
      destruct Hs as (_ & _ & _ & Hres & _). by rewrite Hres.
Qed.

End FilterFacts.

Section FilterFactsExamples.
Import Model Filters FilterConfig Literal.
Import Writer (Outcome, Done, Panic, OutOfFuel, bind).

(** The sample filter drops the health check; a filter whose only
    pattern opens a bracket it does not close keeps it. *)
Lemma newResourceFilter_Keep_witness :
  Keep string MatchString ReplaceAllString filter
       (url_span "GET /healthcheck" "/match1")
    = Done (false, url_span "GET /healthcheck" "/match1") /\
  exists r,
    Keep string MatchString ReplaceAllString
         (newResourceFilter string Compile ["[123"%string] [])
         (url_span "GET /healthcheck" "/match1")
    = Done (true, r).
Proof.
  split.
  - apply (proj1 (newResourceFilter_Keep string Compile MatchString
                    ReplaceAllString ["/healthcheck"%string]
                    [["match2"; "replace2"]; ["match1"; "replace1"];
                     ["broken"]]%string
                    (url_span "GET /healthcheck" "/match1"))).
    split; [|reflexivity].
    exists "/healthcheck"%string, "/healthcheck"%string.
    split; [by left|]. split; reflexivity.
  - apply (proj1 (proj2 (proj2 (proj2 (newResourceFilter_Keep string Compile
                    MatchString ReplaceAllString ["[123"%string] []
                    (url_span "GET /healthcheck" "/match1")))))).
    + intros entry Hin. apply list_elem_of_singleton in Hin as ->. reflexivity.
    + reflexivity.
Defined.

(** The two sample spans, rewritten: the verdicts are those on the spans
    as they were. With a span whose [Meta] is nil and a rule that matches
    the empty url, the call panics. *)
Lemma ApplyRegex_keeps_verdicts_witness :
  let t := [url_span "GET /users" "/match1/match2";
            url_span "GET /healthcheck" "/match1"] in
  (exists t', ApplyRegex string MatchString ReplaceAllString filter t = Done t' /\
              map (Keep_readonly string MatchString filter) t'
              = map (Keep_readonly string MatchString filter) t) /\
  ApplyRegex string MatchString ReplaceAllString default_url_filter
             [url_span "GET /users" "/match1"; bare_span "GET /users"]
  = Panic "assignment to entry in nil map".
Proof.
  intros t. split.
  - destruct (proj1 (proj2 (ApplyRegex_keeps_verdicts string MatchString
                              ReplaceAllString filter t))) as (t' & Hrun).
    { repeat constructor. }
    exists t'. split; [exact Hrun|].
    exact (proj2 (proj2 (proj2 (proj1 (proj2 (proj2
             (ApplyRegex_keeps_verdicts string MatchString ReplaceAllString
                filter t))) t' Hrun)))).
  - apply (proj1 (ApplyRegex_keeps_verdicts string MatchString ReplaceAllString
                    default_url_filter
                    [url_span "GET /users" "/match1"; bare_span "GET /users"])).
    split; [|split; reflexivity].
    apply Exists_cons_tl, Exists_cons_hd. reflexivity.
Defined.

End FilterFactsExamples.

(** ** The writer of payloads and services *)

Section MainWriterFacts.
Import Main.

Context {AgentPayload ServicesMetadata : Type}.
Variable Update : ServicesMetadata -> ServicesMetadata -> ServicesMetadata.
Context {E : Type} `{!BucketEndpoint AgentPayload ServicesMetadata E}.

Notation "'Writer'" := (Main.Writer AgentPayload ServicesMetadata E).
Notation "'Call'" := (Main.Call AgentPayload ServicesMetadata).
Notation "'Event'" := (Main.Event AgentPayload ServicesMetadata).
Notation "'run'" := (Main.run Update).
Notation "'services_due'" := (Main.services_due Update).

(** The loop of [Flush]: either every write succeeds, or the loop stops at
    the first payload the endpoint refuses. *)
Lemma write_loop_cases (ps : list AgentPayload) :
  forall (e : E) (flushed : Z),
    0 <= flushed -> flushed + len ps <= Int64.max_int ->
    (exists e',
       write_loop e ps flushed
       = (e', flushed + len ps, map (fun p => WriteCall p None) ps, [])) \/
    (exists e' pre p err post,
       ps = pre ++ p :: post /\
       write_loop e ps flushed
       = (e', flushed + len pre,
          map (fun p => WriteCall p None) pre ++ [WriteCall p (Some err)],
          [ErrorWritingBucket err])).
Proof.
  induction ps as [|p rest IH]; intros e flushed Hf Hmax.
  { left. exists e. simpl. change (len []) with 0. by rewrite Z.add_0_r. }
  rewrite len_cons in Hmax. pose proof (len_nonneg rest) as Hn.
  cbn [write_loop]. destruct (Write e p) as [e' [err|]] eqn:Hw.
  { right. exists e', [], p, err, rest. split; [done|].
    change (len []) with 0. by rewrite Z.add_0_r. }
  assert (Hadd : Int64.add flushed 1 = flushed + 1).
  { apply add_exact. unfold Int64.in_range, Int64.min_int, Int64.max_int in *. lia. }
  rewrite Hadd.
  destruct (IH e' (flushed + 1)) as [(e'' & ->)|(e'' & pre & q & err & post & -> & ->)];
    [lia|lia| |].
  - left. exists e''. rewrite len_cons. do 3 f_equal. lia.
  - right. exists e'', (p :: pre), q, err, post. split; [done|].
    rewrite len_cons. do 3 f_equal. lia.
Qed.

(** X22. [Flush] never keeps a payload. Either the endpoint accepts every
    buffered payload, in the order of the buffer, and the log reports them
    all flushed; or the writes stop at the first payload the endpoint
    refuses, the payloads behind it are not written at all, and the log
    reports the error and the count of those that went through. Either way
    the buffer is empty afterwards and the services are left alone. *)
Theorem Flush_never_keeps (w : Writer) :
  len (payloadsToWrite w) <= Int64.max_int ->
  let w' := Flush w in
  let total := len (payloadsToWrite w) in
  payloadsToWrite w' = [] /\
  svcs w' = svcs w /\ svcsVer w' = svcsVer w /\
  svcsFlushed w' = svcsFlushed w /\
  (payloadsToWrite w = [] /\ w' = w \/
   payloadsToWrite w <> [] /\
   calls w'
   = calls w ++ map (fun p => WriteCall p None) (payloadsToWrite w) /\
   logged w' = logged w ++ [Flushed total total] \/
   exists pre p err post,
     payloadsToWrite w = pre ++ p :: post /\
     calls w'
     = calls w ++ map (fun p => WriteCall p None) pre
                   ++ [WriteCall p (Some err)] /\
     logged w'
     = logged w ++ [ErrorWritingBucket err; Flushed (len pre) total]).
Proof.
  intros Hmax w' total. subst w' total. unfold Flush.
  destruct (payloadsToWrite w) as [|p0 ps0] eqn:Hps.
  { change (len [] =? 0) with true. cbv iota. rewrite Hps. by repeat split; try left. }
  assert (Hne : (len (p0 :: ps0) =? 0) = false).
  { apply Z.eqb_neq. rewrite len_cons. pose proof (len_nonneg ps0). lia. }
  rewrite Hne.
  destruct (write_loop_cases (p0 :: ps0) (endpoint w) 0)
    as [(e' & ->)|(e' & pre & p & err & post & Heq & ->)]; [lia|lia| |].
  - cbn [payloadsToWrite svcs svcsVer svcsFlushed calls logged].
    do 4 (split; [done|]). right; left. split; [done|]. split; [done|].
    by rewrite Z.add_0_l.
  - cbn [payloadsToWrite svcs svcsVer svcsFlushed calls logged].
    do 4 (split; [done|]). right; right. exists pre, p, err, post.
    split; [done|]. split; [done|]. by rewrite Z.add_0_l.
Qed.

(** What [Flush] does when the buffer holds one payload. *)
Lemma Flush_one (w : Writer) (p : AgentPayload) :
  payloadsToWrite w = [p] ->
  payloadsToWrite (Flush w) = [] /\
  svcs (Flush w) = svcs w /\
  svcsVer (Flush w) = svcsVer w /\
  svcsFlushed (Flush w) = svcsFlushed w /\
  exists err, calls (Flush w) = calls w ++ [WriteCall p err].
Proof.
  intros Hp. unfold Flush. rewrite Hp. change (len [p] =? 0) with false. cbv iota.
  cbn [write_loop]. destruct (Write (endpoint w) p) as [e' [err|]].
  - repeat split. by exists (Some err).
  - repeat split. by exists None.
Qed.

Lemma Flush_empty (w : Writer) :
  payloadsToWrite w = [] -> Flush w = w.
Proof. intros Hp. unfold Flush. by rewrite Hp. Qed.

(** What [FlushServices] does. *)
Lemma FlushServices_spec (w : Writer) :
  payloadsToWrite (FlushServices w) = payloadsToWrite w /\
  svcs (FlushServices w) = svcs w /\
  svcsVer (FlushServices w) = svcsVer w /\
  svcsFlushed (FlushServices w) = svcsVer w /\
  (svcsFlushed w = svcsVer w /\ FlushServices w = w \/
   svcsFlushed w <> svcsVer w /\
   exists err, calls (FlushServices w)
               = calls w ++ [WriteServicesCall (svcs w) err]).
Proof.
  unfold FlushServices.
  destruct (svcsFlushed w =? svcsVer w) eqn:Hv.
  - apply Z.eqb_eq in Hv. repeat split; try done. by left.
  - apply Z.eqb_neq in Hv.
    destruct (WriteServices (endpoint w) (svcs w)) as [e' err].
    repeat split. right. split; [done|]. by exists err.
Qed.

Lemma written_app (cs1 cs2 : list Call) :
  written (cs1 ++ cs2) = written cs1 ++ written cs2.
Proof. unfold written. apply omap_app. Qed.

Lemma services_written_app (cs1 cs2 : list Call) :
  services_written (cs1 ++ cs2)
  = services_written cs1 ++ services_written cs2.
Proof. unfold services_written. apply omap_app. Qed.

(** One payload event: one write, then the services if they are due. *)
Lemma run_payload_step (w : Writer) (p : AgentPayload) :
  payloadsToWrite w = [] ->
  let w1 := FlushServices
              (Flush
                 (mkWriter (endpoint (log_line ReceivedPayload w))
                    (payloadsToWrite (log_line ReceivedPayload w) ++ [p])
                    (svcs (log_line ReceivedPayload w))
                    (svcsVer (log_line ReceivedPayload w))
                    (svcsFlushed (log_line ReceivedPayload w))
                    (calls (log_line ReceivedPayload w))
                    (logged (log_line ReceivedPayload w)))) in
  payloadsToWrite w1 = [] /\
  svcs w1 = svcs w /\ svcsVer w1 = svcsVer w /\
  svcsFlushed w1 = svcsVer w /\
  exists err,
    (svcsFlushed w = svcsVer w /\
     calls w1 = calls w ++ [WriteCall p err]) \/
    (svcsFlushed w <> svcsVer w /\
     exists err', calls w1
                  = calls w ++ [WriteCall p err;
                                    WriteServicesCall (svcs w) err']).
Proof.
  intros Hp w1. subst w1. cbn [log_line endpoint payloadsToWrite svcs svcsVer svcsFlushed
                                 calls logged]. rewrite Hp. cbn [app].
  set (w0 := mkWriter _ _ _ _ _ _ _).
  destruct (Flush_one w0 p eq_refl) as (F1 & F2 & F3 & F4 & err & F5).
  destruct (FlushServices_spec (Flush w0)) as (S1 & S2 & S3 & S4 & S5).
  rewrite S1, S2, S3, S4, F1, F2, F3. subst w0.
  cbn [svcs svcsVer svcsFlushed calls] in *.
  do 4 (split; [done|]). exists err.
  destruct S5 as [(Heq & ->)|(Hne & err' & ->)].
  - left. rewrite F4, F3 in Heq. split; [done|]. by rewrite F5.
  - right. rewrite F4, F3 in Hne. split; [done|]. exists err'.
    rewrite F5, F2. by rewrite <- app_assoc.
Qed.

(** X23. Started with an empty buffer, [run] hands every payload it
    receives before the exit to the endpoint exactly once, in the order
    of arrival, whether the endpoint accepts it or not: nothing is
    written twice and nothing is kept for later, so the flush on exit has
    nothing to write. *)
Theorem run_writes_each_payload_once (events : list Event) (w : Writer) :
  payloadsToWrite w = [] ->
  payloadsToWrite (run events w) = [] /\
  written (calls (run events w))
  = written (calls w) ++ received events.
Proof.
  revert w. induction events as [|[p|sm|] rest IH]; intros w Hp.
  - split; [done|]. by rewrite app_nil_r.
  - cbn [Main.run received]. cbv zeta.
    destruct (run_payload_step w p Hp) as (P1 & _ & _ & _ & err & Hcalls).
    cbv zeta in P1, Hcalls.
    destruct (IH _ P1) as [IH1 IH2]. split; [done|]. rewrite IH2.
    destruct Hcalls as [(_ & ->)|(_ & err' & ->)];
      rewrite written_app; cbn; by rewrite <- app_assoc.
  - cbn [Main.run received]. set (w1 := mkWriter _ _ _ _ _ _ _).
    apply (IH w1 Hp).
  - cbn [Main.run received]. rewrite Flush_empty by done.
    split; [done|]. by rewrite app_nil_r.
Qed.

(** The version counter tells whether metadata has come in since the last
    flush, as long as it has not gone round. *)
Lemma wrap_add_fixed (x k : Z) :
  Int64.in_range x -> 0 <= k < 2 ^ 64 ->
  (Int64.wrap (x + k) = x <-> k = 0).
Proof.
  unfold Int64.in_range, Int64.wrap, Int64.min_int, Int64.max_int.
  intros Hx Hk. split.
  - intros Heq.
    destruct (Z_lt_dec (x + k + 2 ^ 63) (2 ^ 64)) as [Hlt|Hge].
    + rewrite Z.mod_small in Heq by lia. lia.
    + replace (x + k + 2 ^ 63) with ((x + k + 2 ^ 63 - 2 ^ 64) + 1 * 2 ^ 64) in Heq by lia.
      rewrite Z.mod_add in Heq by lia. rewrite Z.mod_small in Heq by lia. lia.
  - intros ->. rewrite Z.add_0_r, Z.mod_small; lia.
Qed.

Lemma run_services_from (events : list Event) :
  forall (w : Writer) (k : Z),
    payloadsToWrite w = [] ->
    Int64.in_range (svcsFlushed w) ->
    0 <= k -> k + len events < 2 ^ 64 ->
    svcsVer w = Int64.wrap (svcsFlushed w + k) ->
    services_written (calls (run events w))
    = services_written (calls w)
      ++ services_due (svcs w) (0 <? k) events.
Proof.
  induction events as [|[p|sm|] rest IH]; intros w k Hp Hr Hk Hlen Hver.
  - by rewrite app_nil_r.
  - rewrite len_cons in Hlen. pose proof (len_nonneg rest) as Hn.
    cbn [Main.run Main.services_due]. cbv zeta.
    destruct (run_payload_step w p Hp) as (P1 & P2 & P3 & P4 & err & Hcalls).
    cbv zeta in P1, P2, P3, P4, Hcalls.
    assert (Hrange : Int64.in_range (svcsVer w)).
    { rewrite Hver. apply wrap_range. }
    rewrite (IH _ 0); [| done | by rewrite P4 | lia | lia
                       | by rewrite P3, P4, Z.add_0_r, wrap_in_range].
    rewrite P2. change (0 <? 0) with false.
    destruct Hcalls as [(Heq & ->)|(Hne & err' & ->)].
    + assert (k = 0) as ->.
      { apply (wrap_add_fixed (svcsFlushed w)); [done|lia|congruence]. }
      change (0 <? 0) with false.
      rewrite services_written_app. cbn. by rewrite app_nil_r.
    + assert (0 < k).
      { destruct (decide (k = 0)) as [->|]; [|lia].
        rewrite Z.add_0_r, wrap_in_range in Hver by done. congruence. }
      assert (Hpos : (0 <? k) = true) by (apply Z.ltb_lt; lia). rewrite Hpos.
      rewrite services_written_app. cbn. by rewrite <- app_assoc.
  - rewrite len_cons in Hlen. pose proof (len_nonneg rest) as Hn.
    cbn [Main.run Main.services_due].
    rewrite (IH _ (k + 1)); cbn [payloadsToWrite svcsFlushed svcsVer svcs calls];
      [| done | done | lia | lia | by rewrite Hver, wrap_add_1].
    assert (Hpos : (0 <? k + 1) = true) by (apply Z.ltb_lt; lia). by rewrite Hpos.
  - cbn [Main.run Main.services_due]. rewrite Flush_empty by done.
    cbn [log_line calls]. by rewrite app_nil_r.
Qed.

(** X24. Started with an empty buffer and the services flushed, [run]
    writes the services metadata only right after a payload, and only if
    metadata has been received since the payload before; it then writes
    the metadata merged so far, once, whether the endpoint accepts it or
    not. (The version counter is 64 bits wide: the events are taken to be
    fewer than [2^64].) *)
Theorem run_writes_services_when_due (events : list Event) (w : Writer) :
  payloadsToWrite w = [] ->
  svcsFlushed w = svcsVer w ->
  Int64.in_range (svcsVer w) ->
  len events < 2 ^ 64 ->
  services_written (calls (run events w))
  = services_written (calls w) ++ services_due (svcs w) false events.
Proof.
  intros Hp Heq Hr Hlen.
  apply (run_services_from events w 0); try done.
  - by rewrite Heq.
  - by rewrite Z.add_0_r, Heq, wrap_in_range.
Qed.

(** X25. Metadata received after the last payload is never written: the
    calls [run] makes on the endpoint are the same whether or not
    services metadata arrives between the last payload and the exit. *)
Theorem run_exit_skips_services (before updates later : list Event) (w : Writer) :
  payloadsToWrite w = [] ->
  Forall (fun e => is_services e = true) updates ->
  calls (run (before ++ updates ++ Exit :: later) w)
  = calls (run (before ++ Exit :: later) w).
Proof.
  intros Hp Hup. revert w Hp.
  induction before as [|[p|sm|] rest IH]; intros w Hp.
  - cbn [app]. revert w Hp.
    induction Hup as [|[p|sm|] updates Hs _ IHu]; intros w Hp; try done.
    cbn [app Main.run]. rewrite IHu by done.
    cbn [Main.run]. rewrite !Flush_empty by done. done.
  - cbn [app Main.run]. cbv zeta.
    destruct (run_payload_step w p Hp) as (P1 & _). cbv zeta in P1.
    by apply IH.
  - cbn [app Main.run]. by apply IH.
  - done.
Qed.

End MainWriterFacts.

Section NullEndpointFacts.
Import Main.

Context {AgentPayload ServicesMetadata : Type}.
Variable Update : ServicesMetadata -> ServicesMetadata -> ServicesMetadata.

Notation "'Writer'" := (Main.Writer AgentPayload ServicesMetadata NullEndpoint).
Notation "'Event'" := (Main.Event AgentPayload ServicesMetadata).
Notation "'run'" := (Main.run Update).

(** X26. With the [NullEndpoint], which the writer uses when the API is
    disabled, no call ever returns an error: started with an empty buffer,
    [run] logs no error, and reports one payload flushed out of one for
    every payload it receives. *)
Theorem NullEndpoint_never_fails (events : list Event) (w : Writer) :
  payloadsToWrite w = [] ->
  payloadsToWrite (run events w) = [] /\
  exists cs ls,
    calls (run events w) = calls w ++ cs /\
    logged (run events w) = logged w ++ ls /\
    Forall (fun c => call_error c = None) cs /\
    Forall (fun l => all_flushed l = true) ls.
Proof.
  revert w. induction events as [|[p|sm|] rest IH]; intros w Hp.
  - split; [done|]. exists [], []. by rewrite !app_nil_r.
  - cbn [Main.run]. cbv zeta.
    cbn [log_line endpoint payloadsToWrite svcs svcsVer svcsFlushed calls logged].
    rewrite Hp. cbn [app]. unfold Flush at 1.
    cbn [payloadsToWrite write_loop endpoint Write NullEndpoint_BucketEndpoint].
    change (len [p] =? 0) with false. cbv iota.
    cbn [svcs svcsVer svcsFlushed calls logged].
    set (w1 := FlushServices _).
    assert (Hw1 : payloadsToWrite w1 = [] /\
                  exists cs,
                    calls w1 = calls w ++ WriteCall p None :: cs /\
                    logged w1 = logged w ++ [ReceivedPayload; Flushed 1 1] /\
                    Forall (fun c => call_error c = None) cs).
    { subst w1. unfold FlushServices.
      cbn [svcs svcsVer svcsFlushed calls logged endpoint payloadsToWrite
           WriteServices NullEndpoint_BucketEndpoint].
      destruct (svcsFlushed w =? svcsVer w).
      - split; [done|]. exists []. cbn [calls logged].
        split; [done|]. split; [by rewrite <- app_assoc|done].
      - split; [done|]. exists [WriteServicesCall (svcs w) None]. cbn [calls logged].
        split; [by rewrite <- app_assoc|].
        split; [by rewrite app_nil_r, <- app_assoc|]. by repeat constructor. }
    destruct Hw1 as (P1 & cs1 & C1 & L1 & A1).
    destruct (IH w1 P1) as (IH1 & cs & ls & C & L & Hcs & Hls).
    split; [done|]. exists (WriteCall p None :: cs1 ++ cs),
                           ([ReceivedPayload; Flushed 1 1] ++ ls).
    rewrite C, C1, L, L1. rewrite <- !app_assoc.
    split; [done|]. split; [done|]. split.
    + constructor; [done|]. by apply Forall_app.
    + apply Forall_app. split; [by repeat constructor|done].
  - cbn [Main.run]. set (w1 := mkWriter _ _ _ _ _ _ _). apply (IH w1 Hp).
  - cbn [Main.run]. rewrite Flush_empty by done. split; [done|].
    exists [], [WriterExiting]. rewrite app_nil_r. by repeat constructor.
Qed.

End NullEndpointFacts.

(** ** The writer of payloads on sample inputs *)

Section MainWriterExamples.
Import Main Picky.

(** The third payload is refused: the fourth is neither written nor
    kept. *)
Lemma Flush_never_keeps_witness :
  payloadsToWrite (Flush (picky_writer [1; 2; 30; 4])) = [] /\
  calls (Flush (picky_writer [1; 2; 30; 4]))
  = [WriteCall 1 None; WriteCall 2 None;
     WriteCall 30 (Some "too large"%string)] /\
  logged (Flush (picky_writer [1; 2; 30; 4]))
  = [ErrorWritingBucket "too large"; Flushed 2 4].
Proof.
  assert (Hmax : len (payloadsToWrite (picky_writer [1; 2; 30; 4])) <= Int64.max_int)
    by (vm_compute; discriminate).
  split; [exact (proj1 (Flush_never_keeps (picky_writer [1; 2; 30; 4]) Hmax))|].
  vm_compute. split; reflexivity.
Defined.

(** Three payloads, the second refused, around two updates of the
    services. *)
Lemma run_writes_each_payload_once_witness :
  written (calls
    (Main.run Update [InPayload 1; InServices [7]; InPayload 30;
                     InServices [8]; InPayload 3; Exit;
                     InPayload 4] (picky_writer [])))
  = [1; 30; 3].
Proof.
  exact (proj2 (run_writes_each_payload_once Update
                  [InPayload 1; InServices [7]; InPayload 30;
                   InServices [8]; InPayload 3; Exit; InPayload 4]
                  (picky_writer []) eq_refl)).
Defined.

(** The same events: the metadata is written after the second and the
    third payload. *)
Lemma run_writes_services_when_due_witness :
  services_written (calls
    (Main.run Update [InPayload 1; InServices [7]; InPayload 30;
                     InServices [8]; InPayload 3; Exit;
                     InPayload 4] (picky_writer [])))
  = [[7]; [7; 8]].
Proof.
  assert (Hr : Int64.in_range (svcsVer (picky_writer [])))
    by (split; vm_compute; discriminate).
  assert (Hlen : len [InPayload 1; InServices [7]; InPayload 30;
                      InServices [8]; InPayload 3; Exit;
                      InPayload 4] < 2 ^ 64) by (vm_compute; reflexivity).
  exact (run_writes_services_when_due Update _ (picky_writer []) eq_refl eq_refl Hr Hlen).
Defined.

(** Metadata that arrives just before the exit. *)
Lemma run_exit_skips_services_witness :
  calls (Main.run Update [InPayload 1; InServices [7]; Exit] (picky_writer []))
  = calls (Main.run Update [InPayload 1; Exit] (picky_writer [])).
Proof.
  apply (run_exit_skips_services Update [InPayload 1] [InServices [7]] []
           (picky_writer []) eq_refl).
  repeat constructor.
Defined.

(** Two payloads and an exit on the [NullEndpoint]. *)
Lemma NullEndpoint_never_fails_witness :
  let w := Main.run Update [InPayload 1; InServices [7]; InPayload 2; Exit]
             (NewWriter mkNullEndpoint []) in
  payloadsToWrite w = [] /\
  exists cs ls,
    calls w = [] ++ cs /\ logged w = [] ++ ls /\
    Forall (fun c => call_error c = None) cs /\
    Forall (fun l => all_flushed l = true) ls.
Proof.
  exact (NullEndpoint_never_fails Update
           [InPayload 1; InServices [7]; InPayload 2; Exit]
           (NewWriter mkNullEndpoint []) eq_refl).
Defined.

End MainWriterExamples.

(** ** Flushes that fail to serialize *)

Section FailedFlushFacts.
Import Model Writer.

Variable Marshal : TracePayload -> option (list byte).
Variable Languages : list string.

Notation "'flush'" := (Writer.flush Marshal Languages).
Notation "'Run'" := (Writer.Run Marshal Languages).
Notation "'select_loop'" := (Writer.select_loop Marshal Languages).

(** A flush whose serialization fails has counted the traces and the
    spans of the buffer, and nothing else. *)
Lemma flush_failure_counts (w : TraceWriter) (o : World) :
  traces w <> [] ->
  Marshal (payload_of w) = None ->
  exists w' o',
    flush (w, o) = (w', o') /\
    payload_of w' = payload_of w /\
    spansInBuffer w' = spansInBuffer w /\
    sent o' = sent o /\
    Traces (stats w') = Int64.add (Traces (stats w)) (len (traces w)) /\
    Spans (stats w') = Int64.add (Spans (stats w)) (spansInBuffer w) /\
    Bytes (stats w') = Bytes (stats w) /\
    Payloads (stats w') = Payloads (stats w) /\
    Errors (stats w') = Errors (stats w).
Proof.
  intros Hne Herr. unfold Writer.flush.
  destruct (len (traces w) =? 0) eqn:E.
  - apply Z.eqb_eq in E. unfold len in E. destruct (traces w); [done|simpl in E; lia].
  - simpl. unfold payload_of in Herr. rewrite Herr.
    eexists _, _. repeat split.
Qed.

(** X27. Flushes that fail to serialize inflate the counters: when
    [proto.Marshal] refuses the payload built from the buffer, every flush
    tick leaves the buffer as it is and gives the sender nothing, yet adds
    the number of buffered traces to [Traces] and the number of buffered
    spans to [Spans] once more (in 64-bit arithmetic); [Bytes], [Payloads]
    and [Errors] do not move. *)
Theorem failed_flushes_inflate_counters (k fuel : nat) (w : TraceWriter) (o : World) :
  traces w <> [] ->
  Marshal (payload_of w) = None ->
  Int64.in_range (Traces (stats w)) ->
  Int64.in_range (Spans (stats w)) ->
  exists w' o',
    Run fuel (replicate k FlushTick) (w, o) = Done (w', o') /\
    traces w' = traces w /\ spansInBuffer w' = spansInBuffer w /\
    sent o' = sent o /\
    Traces (stats w') = Int64.wrap (Traces (stats w) + Z.of_nat k * len (traces w)) /\
    Spans (stats w') = Int64.wrap (Spans (stats w) + Z.of_nat k * spansInBuffer w) /\
    Bytes (stats w') = Bytes (stats w) /\
    Payloads (stats w') = Payloads (stats w) /\
    Errors (stats w') = Errors (stats w).
Proof.
  intros Hne Herr Ht Hs. unfold Writer.Run.
  assert (Hgen : forall (k : nat) (w1 : TraceWriter) (o1 : World) (n : Z),
            payload_of w1 = payload_of w ->
            spansInBuffer w1 = spansInBuffer w ->
            Traces (stats w1) = Int64.wrap (Traces (stats w) + n * len (traces w)) ->
            Spans (stats w1) = Int64.wrap (Spans (stats w) + n * spansInBuffer w) ->
            exists w' o',
              select_loop fuel (replicate k FlushTick) (w1, o1) = Done (w', o') /\
              traces w' = traces w /\ spansInBuffer w' = spansInBuffer w /\
              sent o' = sent o1 /\
              Traces (stats w')
              = Int64.wrap (Traces (stats w) + (n + Z.of_nat k) * len (traces w)) /\
              Spans (stats w')
              = Int64.wrap (Spans (stats w) + (n + Z.of_nat k) * spansInBuffer w) /\
              Bytes (stats w') = Bytes (stats w1) /\
              Payloads (stats w') = Payloads (stats w1) /\
              Errors (stats w') = Errors (stats w1)).
  { intros k'. induction k' as [|k' IH]; intros w1 o1 n Hp Hb HT HS.
    - exists w1, o1. split; [done|].
      assert (Htr : traces w1 = traces w) by (by injection Hp).
      rewrite Z.add_0_r. done.
    - cbn [replicate Writer.select_loop].
      assert (Htr : traces w1 = traces w) by (by injection Hp).
      destruct (flush_failure_counts w1 (log LvlDebug "Flushing current traces" o1))
        as (w2 & o2 & -> & Hp2 & Hb2 & Hsent & HT2 & HS2 & HB2 & HP2 & HE2).
      { by rewrite Htr. }
      { by rewrite Hp. }
      destruct (IH w2 o2 (n + 1)) as (w' & o' & Hrun & ? & ? & Hsent' & HT' & HS' & HB' & HP' & HE').
      + by rewrite Hp2.
      + by rewrite Hb2.
      + rewrite HT2, HT, Htr. unfold Int64.add. rewrite wrap_wrap_add. f_equal. lia.
      + rewrite HS2, HS, Hb. unfold Int64.add. rewrite wrap_wrap_add. f_equal. lia.
      + exists w', o'. split; [done|]. split; [done|]. split; [done|].
        split; [by rewrite Hsent', Hsent|].
        replace (n + Z.of_nat (S k')) with (n + 1 + Z.of_nat k') by lia.
        split; [done|]. split; [done|].
        split; [by rewrite HB', HB2|]. split; [by rewrite HP', HP2|].
        by rewrite HE', HE2. }
  destruct (Hgen k w (log LvlDebug "starting trace writer" o) 0) as (w' & o' & Hrun & ? & ? & ? & HT & HS & ? & ? & ?);
    try done.
  - by rewrite Z.mul_0_l, Z.add_0_r, wrap_in_range.
  - by rewrite Z.mul_0_l, Z.add_0_r, wrap_in_range.
  - exists w', o'. rewrite Z.add_0_l in HT, HS. done.
Qed.

End FailedFlushFacts.

Section FailedFlushExamples.
Import Model Writer Examples Loaded.

(** Three ticks on a buffer of two spans that cannot be serialized. *)
Lemma failed_flushes_inflate_counters_witness :
  exists w' o',
    Run marshal_fail [] 0 [FlushTick; FlushTick; FlushTick]
        (loaded_writer, empty_world) = Done (w', o') /\
    sent o' = [] /\ Traces (stats w') = 3 /\ Spans (stats w') = 6.
Proof.
  assert (Hne : traces loaded_writer <> []) by discriminate.
  assert (Ht : Int64.in_range (Traces (stats loaded_writer)))
    by (split; vm_compute; discriminate).
  assert (Hs : Int64.in_range (Spans (stats loaded_writer)))
    by (split; vm_compute; discriminate).
  destruct (failed_flushes_inflate_counters marshal_fail [] 3 0 loaded_writer
              empty_world Hne eq_refl Ht Hs)
    as (w' & o' & Hrun & _ & _ & Hsent & HT & HS & _).
  exists w', o'. split; [exact Hrun|]. split; [exact Hsent|].
  split; [rewrite HT|rewrite HS]; vm_compute; reflexivity.
Defined.

End FailedFlushExamples.
